(** * TeaLearning: the constrained spiking layer and the additive pooling layer

    A shallow embedding of the two Keras layers of
    [software/tealayers/tealayer1.0/TeaLearningTutorial/TeaLearning.ipynb]:
    [Tea] (binary connections, integer leak, spike or sigmoid activation)
    and [AdditivePooling] (ticks summed, then the neurons of each class).

    Numbers.  The notebook computes on float32 tensors.  A tensor cell that
    holds a trained parameter or an input is modelled by a rational [Q]
    (every finite float32 is one; NaN and the infinities are left out); the
    result of [tf.round] is an integer-valued float and is carried as a [Z],
    and so is everything computed from rounded tensors up to the activation.
    Sums and products round as float32 does, to 24 significant bits with
    ties to even ([float32] on integer-valued cells, [float32Q] on the
    others).  The backend does not fix the order in which a sum adds its
    terms: the sums here add from the left, and every property that depends
    on the value of a sum bounds the terms so that no addition rounds,
    whatever the order.  The backend's float32 logistic function is not part
    of the notebook: it is a parameter [K_sigmoid] of the development.

    Tensors are stored as TensorFlow stores them: a shape and the cells in
    row-major order.  The backend operations the layers call ([tf.round],
    [K.clip], [K.dot], [K.bias_add], [K.sum], [tf.reshape], [tf.reduce_sum])
    are written from their documented meaning, cell by cell. *)

From Stdlib Require Import ZArith QArith Qround Qabs Lia Lqa.
From stdpp Require Import base tactics option numbers list.

Set Default Proof Using "Type".
Local Open Scope Z_scope.

(** ** Python exceptions and the two effects of the notebook's methods *)

Inductive exn : Set :=
  | AssertionError
  | AttributeError
  | IndexError
  | TypeError
  | ValueError
  | ZeroDivisionError
  | InvalidArgumentError.
(** [InvalidArgumentError] is TensorFlow's, raised while the graph runs; the
    shape errors TensorFlow finds while the graph is made are [ValueError]s. *)

Inductive result (A : Type) : Type :=
  | Ok (a : A)
  | Raise (e : exn).
Arguments Ok {A} a.
Arguments Raise {A} e.

Definition is_ok {A} (r : result A) : bool :=
  match r with Ok _ => true | Raise _ => false end.

Definition result_bind {A B} (f : A → result B) (r : result A) : result B :=
  match r with Ok a => f a | Raise e => Raise e end.

#[global] Instance result_ret : MRet result := λ A a, Ok a.
#[global] Instance result_mbind : MBind result := λ A B f r, result_bind f r.

(** A method body: it may read and assign the attributes of [self] (the state
    [S]) and it may raise.  An exception leaves the assignments made so far. *)
Definition py (S A : Type) : Type := S → result A * S.

Definition py_ret {S A} (a : A) : py S A := λ s, (Ok a, s).
Definition py_bind {S A B} (f : A → py S B) (m : py S A) : py S B :=
  λ s, match m s with
       | (Ok a, s') => f a s'
       | (Raise e, s') => (Raise e, s')
       end.
Definition py_raise {S A} (e : exn) : py S A := λ s, (Raise e, s).
Definition py_assert {S} (b : bool) : py S unit :=
  if b then py_ret tt else py_raise AssertionError.
Definition py_lift {S A} (r : result A) : py S A := λ s, (r, s).
(** [self.attr]: reading an attribute that was never assigned raises. *)
Definition py_getattr {S A} (attr : S → option A) : py S A :=
  λ s, match attr s with
       | Some a => (Ok a, s)
       | None => (Raise AttributeError, s)
       end.
Definition py_read {S A} (attr : S → A) : py S A := λ s, (Ok (attr s), s).
Definition py_modify {S} (f : S → S) : py S unit := λ s, (Ok tt, f s).

#[global] Instance py_mret {S} : MRet (py S) := λ A a, py_ret a.
#[global] Instance py_mbind {S} : MBind (py S) := λ A B f m, py_bind f m.

(** ** Tensors *)

Record tensor (A : Type) : Type := Tensor {
  shape : list nat;
  data : list A
}.
Arguments Tensor {A} shape data.
Arguments shape {A} t.
Arguments data {A} t.

Definition numel (sh : list nat) : nat := foldr Nat.mul 1%nat sh.

Definition tensor_wf {A} (t : tensor A) : Prop :=
  length (data t) = numel (shape t).

Definition tensor_map {A B} (f : A → B) (t : tensor A) : tensor B :=
  Tensor (shape t) (f <$> data t).

(** Cell [i] of the row-major storage.  The operations below only read
    below the length; beyond it the reading is [d]. *)
Definition at_index {A} (d : A) (l : list A) (i : nat) : A := default d (l !! i).

(** ** [tf.round]: to the nearest integer, ties to the even one *)

Definition round_half_even (q : Q) : Z :=
  let f := Qfloor q in
  match Qcompare (q - inject_Z f) (1 # 2) with
  | Lt => f
  | Gt => f + 1
  | Eq => if Z.even f then f else f + 1
  end.

Definition tf_round (t : tensor Q) : tensor Z := tensor_map round_half_even t.

(** ** float32 arithmetic on integer-valued cells

    A float32 has 24 significant bits: the integers of magnitude up to 2^24
    are float32 numbers, and beyond that only multiples of a power of two
    are.  [float32 z] is the float32 nearest to the integer [z], ties to the
    even significand: what the sum or the product of two integer-valued
    float32 numbers returns when its exact value is [z].  (Overflow to
    infinity, from 2^128 on, is left out.) *)
Definition float32 (z : Z) : Z :=
  let e := Z.log2 (Z.abs z) in
  if e <? 24 then z
  else
    let ulp := 2 ^ (e - 23) in
    round_half_even (z # Z.to_pos ulp)%Q * ulp.

(** A float32 sum: every addition rounds. *)
Definition sum32 (l : list Z) : Z := foldl (λ acc v, float32 (acc + v)) 0 l.

(** ** [K.clip]: Keras raises the upper bound to the lower one when they
    cross, then [tf.clip_by_value] takes the minimum with the upper bound
    and the maximum with the lower one. *)

Definition clip_by_value (x lo hi : Z) : Z := Z.max (Z.min x hi) lo.

Definition clip (x min_value max_value : Z) : Z :=
  let max_value := if max_value <? min_value then min_value else max_value in
  clip_by_value x min_value max_value.

Definition K_clip (t : tensor Z) (min_value max_value : Z) : tensor Z :=
  tensor_map (λ x, clip x min_value max_value) t.

(** ** [tea_weight_initializer] *)

(** The numpy array the initializer fills: its two dimensions and its rows. *)
Record ndarray2 : Type := NdArray2 {
  nd_rows : nat;
  nd_cols : nat;
  nd_cells : list (list Z)
}.

Definition np_zeros (a b : nat) : ndarray2 :=
  NdArray2 a b (replicate a (replicate b 0)).

(** [arr[r][c] = v]; the loops below only produce indices that are in range. *)
Definition nd_setitem (arr : ndarray2) (r c : nat) (v : Z) : ndarray2 :=
  NdArray2 (nd_rows arr) (nd_cols arr) (alter (λ row, <[c := v]> row) r (nd_cells arr)).

(** [for i in range(len(axon)): ret_array[axon_num][i] = v] *)
Definition fill_axon (v : Z) (axon_num : nat) (arr : ndarray2) : ndarray2 :=
  let axon := at_index [] (nd_cells arr) axon_num in
  foldl (λ arr i, nd_setitem arr axon_num i v) arr (seq 0 (length axon)).

Definition convert_to_tensor (arr : ndarray2) : tensor Z :=
  Tensor [nd_rows arr; nd_cols arr] (mjoin (nd_cells arr)).

Definition tea_weight_initializer (shape : Z * Z) : result (tensor Z) :=
  let num_axons := shape.1 in
  let num_neurons := shape.2 in
  if (num_axons <? 0) || (num_neurons <? 0) then Raise ValueError
  else
    let ret_array := np_zeros (Z.to_nat num_axons) (Z.to_nat num_neurons) in
    let ret_array :=
      foldl (λ ret_array axon_num,
               if (axon_num mod 2 =? 0)%nat
               then fill_axon 1 axon_num ret_array
               else fill_axon (-1) axon_num ret_array)
            ret_array (seq 0 (length (nd_cells ret_array))) in
    Ok (convert_to_tensor ret_array).

(** The alternating-sign rule, in closed form. *)
Definition axon_sign (i : nat) : Z := if Nat.even i then 1 else -1.

Definition alternating_rows (a b : nat) : list (list Z) :=
  (λ i, replicate b (axon_sign i)) <$> seq 0 a.

Definition alternating_weights (a b : nat) : tensor Z :=
  Tensor [a; b] (mjoin (alternating_rows a b)).

(** ** Shapes as Keras passes them to [build] and [compute_output_shape]:
    a dimension is an integer, or [None] while it is not known. *)

Definition dim : Type := option Z.
Definition keras_shape : Type := list dim.

(** Truth value of a dimension in [assert input_shape[-1]]. *)
Definition dim_truthy (d : dim) : bool :=
  match d with Some z => negb (z =? 0) | None => false end.

(** [int(d)] *)
Definition dim_int (d : dim) : result Z :=
  match d with Some z => Ok z | None => Raise TypeError end.

(** [shape[-1]] *)
Definition shape_last {A} (sh : list A) : result A :=
  match last sh with Some d => Ok d | None => Raise IndexError end.

(** [shape[-1] = v] on a list *)
Definition set_last {A} (sh : list A) (v : A) : list A :=
  <[pred (length sh) := v]> sh.

(** ** Backend operations on rounded tensors *)

Definition Zsum (l : list Z) : Z := foldr Z.add 0 l.

(** [a * b] on two tensors of one shape.  [build] gives the connections and
    the static weights the same shape; broadcasting between different shapes
    is not modelled and is reported as an error. *)
Definition tensor_mul (a b : tensor Z) : result (tensor Z) :=
  if decide (shape a = shape b)
  then Ok (Tensor (shape a) (zip_with (λ v w, float32 (v * w)) (data a) (data b)))
  else Raise ValueError.

(** Cell [(i, j)] of a matrix with [u] columns. *)
Definition cell (t : tensor Z) (u i j : nat) : Z :=
  at_index 0 (data t) (i * u + j)%nat.

(** [K.dot(x, y)]: contracts the trailing dimension of [x] with the rows of
    the matrix [y].  Cell [idx] of the result is the float32 sum of the
    float32 products along row [idx / u] of [x] and column [idx mod u] of
    [y]. *)
Definition dot_cell (x y : tensor Z) (n u idx : nat) : Z :=
  sum32 ((λ i, float32 (cell x n (idx / u) i * cell y u i (idx mod u)))
           <$> seq 0 n).

(** For a matrix [x], [K.dot] is [tf.matmul], which refuses an [x] of fewer
    than two dimensions and a trailing dimension that is not the number of
    rows of [y], both while the graph is made.  An [x] of three or more
    dimensions is first reshaped to [[-1, n]], which cannot be done for
    [n = 0] and fails when the graph runs.  (A [y] of more than two
    dimensions is not modelled and is reported as an error.) *)
Definition K_dot (x y : tensor Z) : result (tensor Z) :=
  match shape y with
  | [n; u] =>
      let rank := length (shape x) in
      let lead := take (pred rank) (shape x) in
      if (rank <? 2)%nat then Raise ValueError
      else if negb (bool_decide (last (shape x) = Some n)) then Raise ValueError
      else if (3 <=? rank)%nat && (n =? 0)%nat then Raise InvalidArgumentError
      else Ok (Tensor (lead ++ [u]) (dot_cell x y n u <$> seq 0 (numel lead * u)))
  | _ => Raise ValueError
  end.

(** [K.bias_add(output, biases, data_format='channels_last')]: one float32
    addition in every cell. *)
Definition K_bias_add (output biases : tensor Z) : result (tensor Z) :=
  match shape biases, last (shape output) with
  | [u], Some u' =>
      if decide (u' = u) then
        Ok (Tensor (shape output)
                   (imap (λ idx v,
                            float32 (v + at_index 0 (data biases) (idx mod u)%nat))
                         (data output)))
      else Raise ValueError
  | _, _ => Raise ValueError
  end.

(** [tf.cast(tf.greater_equal(output, 0.0), tf.float32)] *)
Definition greater_equal (p threshold : Z) : bool := threshold <=? p.
Definition cast_float32 (b : bool) : Q := if b then 1%Q else 0%Q.
Definition spike (p : Z) : Q := cast_float32 (greater_equal p 0).

(** [K.learning_phase()] *)
Inductive learning_phase : Set := Train | Inference.

Definition K_in_train_phase {A} (phase : learning_phase) (x alt : A) : A :=
  match phase with Train => x | Inference => alt end.

(** ** The [Tea] layer *)

Module Tea.

Record layer : Type := Layer {
  units : Z;
  uses_learning_phase : bool;
  static_weights : option (tensor Z);
  connections : option (tensor Q);
  biases : option (tensor Q)
}.

Definition __init__ (units : Z) : result layer :=
  Ok (Layer units true None None None).

Definition set_static_weights (w : tensor Z) (self : layer) : layer :=
  Layer (units self) (uses_learning_phase self) (Some w) (connections self) (biases self).
Definition set_connections (c : tensor Q) (self : layer) : layer :=
  Layer (units self) (uses_learning_phase self) (static_weights self) (Some c) (biases self).
Definition set_biases (b : tensor Q) (self : layer) : layer :=
  Layer (units self) (uses_learning_phase self) (static_weights self) (connections self) (Some b).

(** [build].  [truncated_normal k] is the [k]-th value the
    [TruncatedNormal(mean=0.5)] initializer draws. *)
Definition build (truncated_normal : nat → Q) (input_shape : keras_shape)
  : py layer unit :=
  _ ← py_assert (2 <=? length input_shape)%nat;
  last_dim ← py_lift (shape_last input_shape);
  units ← py_read units;
  num_axons ← py_lift (dim_int last_dim);
  w ← py_lift (tea_weight_initializer (num_axons, units));
  _ ← py_modify (set_static_weights w);
  let shape := [Z.to_nat num_axons; Z.to_nat units] in
  _ ← py_modify (set_connections (Tensor shape (truncated_normal <$> seq 0 (numel shape))));
  py_modify (set_biases (Tensor [Z.to_nat units] (replicate (Z.to_nat units) 0%Q))).

(** The potential of every neuron: the part of [call] before the activation. *)
Definition constrain_connections (connections : tensor Q) : tensor Z :=
  K_clip (tf_round connections) 0 1.

Definition effective_weights (connections : tensor Q) (static_weights : tensor Z)
  : result (tensor Z) :=
  tensor_mul (constrain_connections connections) static_weights.

Definition potential (x connections : tensor Q) (static_weights : tensor Z)
    (biases : tensor Q) : result (tensor Z) :=
  weighted_connections ← effective_weights connections static_weights;
  output ← K_dot (tf_round x) weighted_connections;
  K_bias_add output (tf_round biases).

Section Call.
(** The backend's logistic function on float32, at an integral potential. *)
Variable K_sigmoid : Z → Q.

(** The last step of [call], on the tensor of potentials. *)
Definition activation (phase : learning_phase) (output : tensor Z) : tensor Q :=
  K_in_train_phase phase (tensor_map K_sigmoid output) (tensor_map spike output).

Definition call (phase : learning_phase) (x : tensor Q) : py layer (tensor Q) :=
  (* Constrain input *)
  let x := tf_round x in
  (* Constrain connections *)
  connections ← py_getattr connections;
  let connections := tf_round connections in
  let connections := K_clip connections 0 1 in
  (* Multiply connections with weights *)
  static_weights ← py_getattr static_weights;
  weighted_connections ← py_lift (tensor_mul connections static_weights);
  (* Dot input with weighted connections *)
  output ← py_lift (K_dot x weighted_connections);
  (* Constrain biases *)
  biases ← py_getattr biases;
  let biases := tf_round biases in
  output ← py_lift (K_bias_add output biases);
  (* Apply activation / spike *)
  mret (K_in_train_phase phase
          (tensor_map K_sigmoid output)
          (tensor_map spike output)).
End Call.

Definition compute_output_shape (input_shape : keras_shape) : py layer keras_shape :=
  _ ← py_assert (negb (bool_decide (input_shape = [])) && (2 <=? length input_shape)%nat);
  last_dim ← py_lift (shape_last input_shape);
  _ ← py_assert (dim_truthy last_dim);
  units ← py_read units;
  let output_shape := set_last input_shape (Some units) in
  mret output_shape.

(** A layer as [build] leaves it on an input with [n] features, whatever the
    optimizer has made of the trainable cells since. *)
Record built (n : nat) (self : layer) : Prop := Built {
  built_units : 0 ≤ units self;
  built_static :
    static_weights self = Some (alternating_weights n (Z.to_nat (units self)));
  built_connections :
    ∃ c, connections self = Some c ∧ shape c = [n; Z.to_nat (units self)]
         ∧ tensor_wf c;
  built_biases :
    ∃ b, biases self = Some b ∧ shape b = [Z.to_nat (units self)] ∧ tensor_wf b
}.

End Tea.

(** ** Backend operations on float tensors used by the pooling layer *)

(** [2 ^ e] for an integer exponent. *)
Definition Qpow2 (e : Z) : Q :=
  if 0 <=? e then inject_Z (2 ^ e) else (1 # Z.to_pos (2 ^ (- e)))%Q.

(** The exponent of a positive rational [q]: [2 ^ e <= q < 2 ^ (e + 1)]. *)
Definition Qlog2 (q : Q) : Z :=
  let e := Z.log2 (Qnum q) - Z.log2 (Z.pos (Qden q)) in
  if Qle_bool (Qpow2 e) q then e else e - 1.

(** The float32 nearest to [q], ties to the even significand: 24
    significant bits, and the fixed spacing [2 ^ -149] below [2 ^ -126].
    (Overflow to infinity is left out.) *)
Definition float32Q (q : Q) : Q :=
  if Qeq_bool q 0 then 0%Q
  else
    let e := Z.max (Qlog2 (Qabs q)) (-126) in
    let ulp := Qpow2 (e - 23) in
    Qred (inject_Z (round_half_even (q / ulp)) * ulp).

(** A float32 sum: every addition rounds. *)
Definition sum32Q (l : list Q) : Q :=
  foldl (λ acc v, float32Q (acc + v)) 0%Q l.

(** The sum in exact arithmetic: what a float32 sum returns when no addition
    rounds. *)
Definition Qsum (l : list Q) : Q := foldl Qplus 0%Q l.

(** [K.sum(x, axis=1)] and [tf.reduce_sum(x, 1)]: on a tensor of shape
    [b :: t :: rest], cell [(bi, k)] of the result is the float32 sum over
    [ti] of cell [(bi, ti, k)]. *)
Definition sum_axis1_cell (x : tensor Q) (t r idx : nat) : Q :=
  sum32Q ((λ ti, at_index 0%Q (data x) ((idx / r * t + ti) * r + idx mod r)%nat)
            <$> seq 0 t).

Definition reduce_sum_axis1 (x : tensor Q) : result (tensor Q) :=
  match shape x with
  | b :: t :: rest =>
      let r := numel rest in
      Ok (Tensor (b :: rest) (sum_axis1_cell x t r <$> seq 0 (b * r)))
  | _ => Raise ValueError
  end.

(** [tf.reshape(x, [-1, d1, d2])]: the cells stay in place, the leading
    dimension is inferred.  A [d1] or [d2] below -1 is refused while the
    graph is made.  A [d1] or [d2] of -1 asks for a second inferred
    dimension, a zero product leaves the leading dimension without a value,
    and a cell count that is no multiple of [d1 * d2] cannot be arranged:
    these three are found when the graph runs. *)
Definition tf_reshape (x : tensor Q) (d1 d2 : Z) : result (tensor Q) :=
  if (d1 <? -1) || (d2 <? -1) then Raise ValueError
  else if (d1 =? -1) || (d2 =? -1) then Raise InvalidArgumentError
  else
    let k := (Z.to_nat d1 * Z.to_nat d2)%nat in
    if decide (k = 0%nat) then Raise InvalidArgumentError
    else if decide ((length (data x) mod k)%nat = 0%nat)
    then Ok (Tensor [(length (data x) / k)%nat; Z.to_nat d1; Z.to_nat d2] (data x))
    else Raise InvalidArgumentError.

(** [a % b] on a dimension and an integer. *)
Definition py_mod (a : dim) (b : Z) : result Z :=
  match a with
  | None => Raise TypeError
  | Some a => if b =? 0 then Raise ZeroDivisionError else Ok (a mod b)
  end.

(** [int(a / b)] under [from __future__ import division]: the quotient
    truncated towards zero.  Python computes the quotient as a float64; this
    is the exact quotient as long as [a] is at most 2^53 in magnitude, the
    range of the dimensions of a tensor that fits a memory, and the
    definition is written for that range. *)
Definition py_int_truediv (a : dim) (b : Z) : result Z :=
  match a with
  | None => Raise TypeError
  | Some a => if b =? 0 then Raise ZeroDivisionError else Ok (a ÷ b)
  end.

(** ** The [AdditivePooling] layer *)

Module AdditivePooling.

Record layer : Type := Layer {
  num_classes : Z;
  num_inputs : dim
}.

Definition __init__ (num_classes : Z) : result layer :=
  Ok (Layer num_classes None).

Definition set_num_inputs (d : dim) (self : layer) : layer :=
  Layer (num_classes self) d.

Definition build (input_shape : keras_shape) : py layer unit :=
  _ ← py_assert (2 <=? length input_shape)%nat;
  (* The number of neurons must be collapsable into the number of classes *)
  last_dim ← py_lift (shape_last input_shape);
  num_classes ← py_read num_classes;
  r ← py_lift (py_mod last_dim num_classes);
  _ ← py_assert (r =? 0);
  py_modify (set_num_inputs last_dim).

Definition call (x : tensor Q) : py layer (tensor Q) :=
  (* Sum up ticks if there are ticks *)
  output ← (if (3 <=? length (shape x))%nat
             then py_lift (reduce_sum_axis1 x)
             else mret x);
  (* Reshape output *)
  num_inputs ← py_read num_inputs;
  num_classes ← py_read num_classes;
  neurons_per_class ← py_lift (py_int_truediv num_inputs num_classes);
  output ← py_lift (tf_reshape output neurons_per_class num_classes);
  (* Sum up neurons *)
  output ← py_lift (reduce_sum_axis1 output);
  mret output.

Definition compute_output_shape (input_shape : keras_shape) : py layer keras_shape :=
  let output_shape := input_shape in
  (* Last dimension will be number of classes *)
  num_classes ← py_read num_classes;
  _ ← (if bool_decide (output_shape = []) then py_raise IndexError else mret tt);
  let output_shape := set_last output_shape (Some num_classes) in
  (* Ticks were summed, so delete tick dimension if exists *)
  let output_shape :=
    if (3 <=? length output_shape)%nat then delete 1%nat output_shape
    else output_shape in
  mret output_shape.

(** The neurons of class [c] among [n] neurons, in increasing order: those
    whose index is [c] modulo [nc]. *)
Definition class_members (n nc c : nat) : list nat :=
  filter (λ i, (i mod nc)%nat = c) (seq 0 n).

(** The cells of the neurons of class [c] in row [bi] of a [(b, n)] tensor,
    and their float32 sum. *)
Definition class_cells (x : tensor Q) (n nc bi c : nat) : list Q :=
  (λ i, at_index 0%Q (data x) (bi * n + i)%nat) <$> class_members n nc c.

Definition class_sum (x : tensor Q) (n nc bi c : nat) : Q :=
  sum32Q (class_cells x n nc bi c).

End AdditivePooling.

(** * The network of the notebook, its export and its input packets *)

(** ** Layers and operations of Keras and numpy the network is made of *)

(** [l[lo:hi]] on a Python sequence, for bounds that are not negative. *)
Definition py_slice {A} (l : list A) (lo hi : nat) : list A :=
  take (hi - lo) (drop lo l).

(** [enumerate(l)] *)
Definition enumerate {A} (l : list A) : list (nat * A) := imap pair l.

(** [l[k]] on a Python list. *)
Definition py_item {A} (l : list A) (k : nat) : result A :=
  match l !! k with Some a => Ok a | None => Raise IndexError end.

(** The dimensions before the trailing one. *)
Definition lead_dims {A} (sh : list A) : list A := take (pred (length sh)) sh.

(** [Flatten()]: the dimensions after the batch dimension are merged. *)
Definition Flatten (x : tensor Q) : result (tensor Q) :=
  match shape x with
  | b :: rest => Ok (Tensor [b; numel rest] (data x))
  | [] => Raise ValueError
  end.

(** [Lambda(lambda x : x[:, lo:hi])] on a matrix; [hi = None] is the open
    slice [x[:, lo:]].  Bounds beyond the width are cut to it. *)
Definition slice_columns (lo : nat) (hi : option nat) (x : tensor Q)
  : result (tensor Q) :=
  match shape x with
  | [b; n] =>
      let start := Nat.min lo n in
      let stop := Nat.min (default n hi) n in
      let w := (stop - start)%nat in
      Ok (Tensor [b; w]
            ((λ idx, at_index 0%Q (data x) (idx / w * n + start + idx mod w)%nat)
               <$> seq 0 (b * w)))
  | _ => Raise ValueError
  end.

(** Row [r] of a tensor seen as a matrix over its trailing dimension. *)
Definition tensor_row {A} (t : tensor A) (r : nat) : list A :=
  let n := default 0%nat (last (shape t)) in
  take n (drop (r * n) (data t)).

(** [concatenate(ts)], along the trailing axis: the tensors agree on the
    other dimensions, and row [r] of the result is row [r] of each tensor in
    turn. *)
Definition concatenate (ts : list (tensor Q)) : result (tensor Q) :=
  match ts with
  | [] => Raise ValueError
  | t0 :: _ =>
      let lead := lead_dims (shape t0) in
      if forallb (λ t, bool_decide (shape t ≠ [] ∧ lead_dims (shape t) = lead)) ts
      then Ok (Tensor (lead ++ [sum_list ((λ t, default 0%nat (last (shape t))) <$> ts)])
                      (mjoin ((λ r, mjoin ((λ t, tensor_row t r) <$> ts))
                                <$> seq 0 (numel lead))))
      else Raise ValueError
  end.

(** The shapes Keras infers for these three layers while the graph is made. *)
Definition Flatten_shape (input_shape : keras_shape) : result keras_shape :=
  match input_shape with
  | b :: rest =>
      match mapM id rest with
      | Some ds => Ok [b; Some (foldr Z.mul 1 ds)]
      | None => Ok [b; None]
      end
  | [] => Raise ValueError
  end.

Definition slice_columns_shape (lo : nat) (hi : option nat)
    (input_shape : keras_shape) : result keras_shape :=
  match input_shape with
  | [b; Some n] =>
      let n := Z.to_nat n in
      let start := Nat.min lo n in
      let stop := Nat.min (default n hi) n in
      Ok [b; Some (Z.of_nat (stop - start))]
  | _ => Raise ValueError
  end.

Definition concatenate_shape (shapes : list keras_shape) : result keras_shape :=
  match shapes with
  | [] => Raise ValueError
  | s0 :: _ =>
      let lead := lead_dims s0 in
      if forallb (λ s, bool_decide (s ≠ [] ∧ lead_dims s = lead)) shapes
      then match mapM (λ s, mjoin (last s)) shapes with
           | Some ds => Ok (lead ++ [Some (foldr Z.add 0 ds)])
           | None => Ok (lead ++ [None])
           end
      else Raise ValueError
  end.

(** [np.round] rounds half to even like [tf.round]; [np.clip(a, lo, hi)] is
    the minimum with [hi] of the maximum with [lo]. *)
Definition np_round (t : tensor Q) : tensor Z := tensor_map round_half_even t.

Definition np_clip (t : tensor Z) (a_min a_max : Z) : tensor Z :=
  tensor_map (λ x, Z.min (Z.max x a_min) a_max) t.

(** [astype(int)]: the conversion of an integer-valued float to numpy's
    default integer, 64 bits wide on Linux and macOS.  A value that no 64-bit
    integer holds is converted to [- 2 ^ 63] (the result of the conversion
    instruction of x86-64); the properties below keep to values in range. *)
Definition int64_min : Z := - 2 ^ 63.
Definition int64_max : Z := 2 ^ 63 - 1.

Definition astype_int (t : tensor Z) : tensor Z :=
  tensor_map (λ z, if (int64_min <=? z) && (z <=? int64_max) then z
                   else int64_min) t.

(** A tensor of integers that 64-bit integers hold. *)
Definition fits_int64 (t : tensor Z) : Prop :=
  Forall (λ z, int64_min ≤ z ≤ int64_max) (data t).

(** A cell that holds a count: an integer between 0 and [m]. *)
Definition count_upto (m : Z) (v : Q) : Prop :=
  ∃ k : Z, v = inject_Z k ∧ 0 ≤ k ≤ m.

(** The shape of a tensor as Keras writes it, every dimension known. *)
Definition static_shape {A} (t : tensor A) : keras_shape :=
  (λ d, Some (Z.of_nat d)) <$> shape t.

(** A method of one layer, run on the layer held in a larger state. *)
Definition on_layer {N S A} (get : N → S) (set : S → N → N) (m : py S A)
  : py N A :=
  λ net, let '(r, s) := m (get net) in (r, set s net).

(** ** The network (cell 21) *)

Module Network.

Record layers : Type := Layers {
  core0 : Tea.layer;
  core1 : Tea.layer;
  core2 : Tea.layer;
  core3 : Tea.layer;
  output_core : Tea.layer;
  pooling : AdditivePooling.layer
}.

Definition set_core0 (l : Tea.layer) (net : layers) : layers :=
  Layers l (core1 net) (core2 net) (core3 net) (output_core net) (pooling net).
Definition set_core1 (l : Tea.layer) (net : layers) : layers :=
  Layers (core0 net) l (core2 net) (core3 net) (output_core net) (pooling net).
Definition set_core2 (l : Tea.layer) (net : layers) : layers :=
  Layers (core0 net) (core1 net) l (core3 net) (output_core net) (pooling net).
Definition set_core3 (l : Tea.layer) (net : layers) : layers :=
  Layers (core0 net) (core1 net) (core2 net) l (output_core net) (pooling net).
Definition set_output_core (l : Tea.layer) (net : layers) : layers :=
  Layers (core0 net) (core1 net) (core2 net) (core3 net) l (pooling net).
Definition set_pooling (l : AdditivePooling.layer) (net : layers) : layers :=
  Layers (core0 net) (core1 net) (core2 net) (core3 net) (output_core net) l.

Section Forward.
Variable K_sigmoid : Z → Q.

(** The tensor [x] the network hands to its softmax: the class scores. *)
Definition class_scores (phase : learning_phase) (inputs : tensor Q)
  : py layers (tensor Q) :=
  flattened_inputs ← py_lift (Flatten inputs);
  (* Send input into 4 different cores (256 axons each) *)
  x0 ← py_lift (slice_columns 0 (Some 256%nat) flattened_inputs);
  x1 ← py_lift (slice_columns 176 (Some 432%nat) flattened_inputs);
  x2 ← py_lift (slice_columns 352 (Some 608%nat) flattened_inputs);
  x3 ← py_lift (slice_columns 528 None flattened_inputs);
  x0 ← on_layer core0 set_core0 (Tea.call K_sigmoid phase x0);
  x1 ← on_layer core1 set_core1 (Tea.call K_sigmoid phase x1);
  x2 ← on_layer core2 set_core2 (Tea.call K_sigmoid phase x2);
  x3 ← on_layer core3 set_core3 (Tea.call K_sigmoid phase x3);
  (* Concatenate output of first layer to send into next *)
  x ← py_lift (concatenate [x0; x1; x2; x3]);
  x ← on_layer output_core set_output_core (Tea.call K_sigmoid phase x);
  (* Pool spikes and output neurons into 10 classes. *)
  on_layer pooling set_pooling (AdditivePooling.call x).
End Forward.

(** [Tea(units)(x)] while the graph is made: the layer is constructed and
    built on the shape of [x], and [compute_output_shape] gives the shape of
    its output. *)
Definition new_tea (truncated_normal : nat → Q) (units : Z)
    (input_shape : keras_shape) : result (Tea.layer * keras_shape) :=
  self ← Tea.__init__ units;
  let '(r, self) := Tea.build truncated_normal input_shape self in
  _ ← r;
  let '(r, self) := Tea.compute_output_shape input_shape self in
  output_shape ← r;
  Ok (self, output_shape).

Definition new_pooling (num_classes : Z) (input_shape : keras_shape)
  : result (AdditivePooling.layer * keras_shape) :=
  self ← AdditivePooling.__init__ num_classes;
  let '(r, self) := AdditivePooling.build input_shape self in
  _ ← r;
  let '(r, self) := AdditivePooling.compute_output_shape input_shape self in
  output_shape ← r;
  Ok (self, output_shape).

(** The layers of cell 21 and the shape of the class scores.
    [truncated_normal k] is the stream of values drawn for the connections
    of the [k]-th [Tea] layer. *)
Definition build_model (truncated_normal : nat → nat → Q)
  : result (layers * keras_shape) :=
  let inputs := [None; Some 28; Some 28] in
  flattened_inputs ← Flatten_shape inputs;
  x0 ← slice_columns_shape 0 (Some 256%nat) flattened_inputs;
  x1 ← slice_columns_shape 176 (Some 432%nat) flattened_inputs;
  x2 ← slice_columns_shape 352 (Some 608%nat) flattened_inputs;
  x3 ← slice_columns_shape 528 None flattened_inputs;
  '(c0, x0) ← new_tea (truncated_normal 0%nat) 64 x0;
  '(c1, x1) ← new_tea (truncated_normal 1%nat) 64 x1;
  '(c2, x2) ← new_tea (truncated_normal 2%nat) 64 x2;
  '(c3, x3) ← new_tea (truncated_normal 3%nat) 64 x3;
  x ← concatenate_shape [x0; x1; x2; x3];
  '(oc, x) ← new_tea (truncated_normal 4%nat) 250 x;
  '(p, x) ← new_pooling 10 x;
  Ok (Layers c0 c1 c2 c3 oc p, x).

(** A network whose layers are built as in cell 21, whatever training has
    made of the connections and the leaks since. *)
Record ready (net : layers) : Prop := Ready {
  ready_core0 : Tea.built 256 (core0 net) ∧ Tea.units (core0 net) = 64;
  ready_core1 : Tea.built 256 (core1 net) ∧ Tea.units (core1 net) = 64;
  ready_core2 : Tea.built 256 (core2 net) ∧ Tea.units (core2 net) = 64;
  ready_core3 : Tea.built 256 (core3 net) ∧ Tea.units (core3 net) = 64;
  ready_output_core :
    Tea.built 256 (output_core net) ∧ Tea.units (output_core net) = 250;
  ready_pooling : pooling net = AdditivePooling.Layer 10 (Some 250)
}.

(** A layer that holds these three parameters. *)
Definition holds (self : Tea.layer) (c b : tensor Q) (w : tensor Z) : Prop :=
  Tea.connections self = Some c
  ∧ Tea.biases self = Some b
  ∧ Tea.static_weights self = Some w.

(** ** The export for the simulator (cell 25) *)

(** [layer.get_weights()]: the trainable arrays in the order [build] added
    them (connections, biases), then the others (static weights). *)
Definition tea_weights (self : Tea.layer) : list (tensor Q) :=
  option_list (Tea.connections self)
  ++ option_list (Tea.biases self)
  ++ option_list (tensor_map inject_Z <$> Tea.static_weights self).

(** [model.get_weights()]; only the [Tea] layers hold arrays. *)
Definition get_weights (net : layers) : list (tensor Q) :=
  tea_weights (core0 net) ++ tea_weights (core1 net) ++ tea_weights (core2 net)
  ++ tea_weights (core3 net) ++ tea_weights (output_core net).

Record export : Type := Export {
  connections : list (list (tensor Z));
  biases : list (list (tensor Z));
  weights : list (list (tensor Q))
}.

Definition export_connection (all_weights : list (tensor Q)) (k : nat)
  : result (tensor Z) :=
  a ← py_item all_weights k;
  Ok (astype_int (np_clip (np_round a) 0 1)).

Definition export_bias (all_weights : list (tensor Q)) (k : nat)
  : result (tensor Z) :=
  a ← py_item all_weights k;
  Ok (astype_int (np_round a)).

Definition export_model (net : layers) : result export :=
  let all_weights := get_weights net in
  c0 ← export_connection all_weights 0;
  c3 ← export_connection all_weights 3;
  c6 ← export_connection all_weights 6;
  c9 ← export_connection all_weights 9;
  c12 ← export_connection all_weights 12;
  b1 ← export_bias all_weights 1;
  b4 ← export_bias all_weights 4;
  b7 ← export_bias all_weights 7;
  b10 ← export_bias all_weights 10;
  b13 ← export_bias all_weights 13;
  w2 ← py_item all_weights 2;
  w5 ← py_item all_weights 5;
  w8 ← py_item all_weights 8;
  w11 ← py_item all_weights 11;
  w14 ← py_item all_weights 14;
  Ok (Export [[c0; c3; c6; c9]; [c12]]
             [[b1; b4; b7; b10]; [b13]]
             [[w2; w5; w8; w11]; [w14]]).

(** A layer whose rounded leaks are values a 64-bit integer holds, and a
    network made of such layers. *)
Definition leaks_fit_int64 (self : Tea.layer) : Prop :=
  ∀ b, Tea.biases self = Some b → fits_int64 (tf_round b).

Definition exportable (net : layers) : Prop :=
  leaks_fit_int64 (core0 net) ∧ leaks_fit_int64 (core1 net)
  ∧ leaks_fit_int64 (core2 net) ∧ leaks_fit_int64 (core3 net)
  ∧ leaks_fit_int64 (output_core net).

(** ** The input packets (cell 27) *)

(** [Packet(core, axon, 0)]: the coordinates of the core, the axon, and the
    third argument of the constructor. *)
Inductive packet : Type := Packet (core : Z * Z) (axon : nat) (third : Z).

(** Coordinates of input core *)
Definition core_coordinates : list (Z * Z) := [(0, 0); (1, 0); (2, 0); (3, 0)].

(** [image.reshape(784)] *)
Definition reshape_784 (image : tensor Q) : result (list Q) :=
  if decide (length (data image) = 784%nat) then Ok (data image)
  else Raise ValueError.

(** The packets of one image: the two inner loops. *)
Definition image_packets (image : tensor Q) : result (list packet) :=
  let temp_packets := [] in
  image ← reshape_784 image;
  Ok (foldl (λ temp_packets i,
               foldl (λ temp_packets '(pixel_num, pixel),
                        if Qlt_le_dec (1 # 2) pixel
                        then temp_packets
                             ++ [Packet (at_index (0, 0) core_coordinates i) pixel_num 0]
                        else temp_packets)
                     temp_packets
                     (enumerate (py_slice image (176 * i) (176 * i + 256))))
            temp_packets (seq 0 4)).

(** Convert the first 10 images to packets *)
Definition make_packets (x_test : list (tensor Q)) : result (list (list packet)) :=
  foldl (λ packets image,
           packets ← packets;
           temp_packets ← image_packets image;
           Ok (packets ++ [temp_packets]))
        (Ok []) (py_slice x_test 0 10).

End Network.

(** * Properties *)

(** ** The weight initializer *)

Section Initializer.
Local Open Scope nat_scope.

Lemma even_mod2 (i : nat) : (i mod 2 =? 0) = Nat.even i.
Proof.
  destruct (Nat.even i) eqn:E.
  - apply Nat.even_spec in E as [k ->]. apply Nat.eqb_eq.
    rewrite Nat.mul_comm. apply Nat.Div0.mod_mul.
  - apply Nat.eqb_neq. intros H.
    assert (Nat.even i = true) as E'; [|congruence].
    apply Nat.even_spec. exists (i / 2).
    pose proof (Nat.div_mod_eq i 2). lia.
Qed.

Lemma alter_insert_same {A} (f : A → A) (l : list A) (r : nat) (x : A) :
  alter f r (<[r := x]> l) = <[r := f x]> l.
Proof.
  rewrite !list_insert_alter, list_alter_alter_eq. by apply list_alter_ext.
Qed.

Lemma insert_fill_next (v : Z) (k : nat) (row : list Z) :
  k < length row →
  <[k := v]> (replicate k v ++ drop k row)
  = replicate (S k) v ++ drop (S k) row.
Proof.
  intros Hk. destruct (lookup_lt_is_Some_2 row k Hk) as [y Hy].
  rewrite (drop_S _ _ _ Hy), replicate_S_end, <-app_assoc. simpl.
  rewrite <-(Nat.add_0_r k) at 1.
  rewrite <-(length_replicate k v) at 1.
  by rewrite insert_app_r.
Qed.

Lemma fill_axon_prefix (v : Z) (r k : nat) (arr : ndarray2) (row : list Z) :
  nd_cells arr !! r = Some row →
  k ≤ length row →
  foldl (λ arr i, nd_setitem arr r i v) arr (seq 0 k)
  = NdArray2 (nd_rows arr) (nd_cols arr)
             (<[r := replicate k v ++ drop k row]> (nd_cells arr)).
Proof.
  intros Hrow. induction k as [|k IH]; intros Hk.
  - simpl. rewrite drop_0, list_insert_id by done. by destruct arr.
  - rewrite seq_S, foldl_app, IH by lia. simpl.
    unfold nd_setitem; simpl. f_equal.
    rewrite alter_insert_same. f_equal. apply insert_fill_next. lia.
Qed.

Lemma fill_axon_row (v : Z) (r : nat) (arr : ndarray2) (row : list Z) :
  nd_cells arr !! r = Some row →
  fill_axon v r arr
  = NdArray2 (nd_rows arr) (nd_cols arr)
             (<[r := replicate (length row) v]> (nd_cells arr)).
Proof.
  intros Hrow. unfold fill_axon.
  unfold at_index. rewrite Hrow. simpl.
  rewrite (fill_axon_prefix v r (length row) arr row Hrow) by lia.
  by rewrite drop_all, app_nil_r.
Qed.

(** The outer loop, after its first [k] rounds. *)
Lemma fill_rows_prefix (a b k : nat) :
  k ≤ a →
  foldl (λ ret_array axon_num,
           if axon_num mod 2 =? 0
           then fill_axon 1 axon_num ret_array
           else fill_axon (-1) axon_num ret_array)
        (np_zeros a b) (seq 0 k)
  = NdArray2 a b (alternating_rows k b ++ replicate (a - k) (replicate b 0%Z)).
Proof.
  induction k as [|k IH]; intros Hk.
  - simpl. by rewrite Nat.sub_0_r.
  - rewrite seq_S, foldl_app, IH by lia.
    change (0 + k) with k. cbn [foldl].
    assert (length (alternating_rows k b) = k) as Hlen.
    { unfold alternating_rows. by rewrite length_fmap, length_seq. }
    assert ((alternating_rows k b ++ replicate (a - k) (replicate b 0%Z)) !! k
            = Some (replicate b 0%Z)) as Hrow.
    { rewrite lookup_app_r by lia. rewrite Hlen, Nat.sub_diag.
      apply lookup_replicate_2. lia. }
    assert (∀ v, fill_axon v k
              (NdArray2 a b (alternating_rows k b ++ replicate (a - k) (replicate b 0%Z)))
            = NdArray2 a b (alternating_rows k b ++ replicate b v
                              :: replicate (a - S k) (replicate b 0%Z))) as Hfill.
    { intros v.
      rewrite (fill_axon_row v k (NdArray2 a b _) (replicate b 0%Z) Hrow).
      simpl. f_equal.
      rewrite length_replicate.
      replace (a - k) with (S (a - S k)) by lia. simpl.
      rewrite <-(Nat.add_0_r k) at 1. rewrite <-Hlen at 1.
      by rewrite insert_app_r. }
    rewrite even_mod2. unfold alternating_rows at 3.
    rewrite seq_S, fmap_app, <-app_assoc.
    change (0 + k) with k. cbn [fmap list_fmap app].
    unfold axon_sign. destruct (Nat.even k); by rewrite Hfill.
Qed.

Lemma tea_weight_initializer_closed (a b : nat) :
  tea_weight_initializer (Z.of_nat a, Z.of_nat b) = Ok (alternating_weights a b).
Proof.
  unfold tea_weight_initializer. simpl.
  replace (Z.of_nat a <? 0)%Z with false by (symmetry; apply Z.ltb_ge; lia).
  replace (Z.of_nat b <? 0)%Z with false by (symmetry; apply Z.ltb_ge; lia).
  simpl. rewrite !Nat2Z.id, length_replicate.
  rewrite fill_rows_prefix by lia.
  unfold convert_to_tensor, alternating_weights. simpl.
  by rewrite Nat.sub_diag, app_nil_r.
Qed.

Lemma alternating_weights_lookup (a b i j : nat) :
  i < a → j < b →
  data (alternating_weights a b) !! (i * b + j) = Some (axon_sign i).
Proof.
  intros Hi Hj. simpl.
  apply (join_lookup_Some_same_length' b); [|done|].
  - unfold alternating_rows. apply Forall_fmap, Forall_forall. intros k _.
    simpl. apply length_replicate.
  - exists (replicate b (axon_sign i)). split.
    + unfold alternating_rows. rewrite list_lookup_fmap, lookup_seq_lt by done.
      done.
    + by apply lookup_replicate_2.
Qed.

Lemma alternating_weights_wf (a b : nat) : tensor_wf (alternating_weights a b).
Proof.
  unfold tensor_wf. simpl. rewrite Nat.mul_1_r.
  unfold alternating_rows. induction a as [|a IH] using nat_ind.
  - done.
  - rewrite seq_S, fmap_app, join_app, length_app, IH. simpl.
    rewrite app_nil_r, length_replicate. lia.
Qed.
End Initializer.

(** ** Rounding and clipping *)

Section Rounding.
Local Open Scope Q_scope.

Lemma round_half_even_nearest (q : Q) :
  Qabs (q - inject_Z (round_half_even q)) <= 1 # 2.
Proof.
  unfold round_half_even.
  pose proof (Qfloor_le q) as Hlo. pose proof (Qlt_floor q) as Hhi.
  rewrite inject_Z_plus in Hhi.
  assert (inject_Z 1 == 1) as H1 by reflexivity. rewrite H1 in Hhi. 
  apply Qabs_Qle_condition.
  destruct (Qcompare_spec (q - inject_Z (Qfloor q)) (1 # 2)) as [E|E|E].
  - destruct (Z.even (Qfloor q)); [|rewrite inject_Z_plus, H1]; lra.
  - lra.
  - rewrite inject_Z_plus, H1. lra.
Qed.

Lemma round_half_even_zero (q : Q) : q == 0 → round_half_even q = 0%Z.
Proof.
  intros Hq. unfold round_half_even.
  assert (Qfloor q = 0%Z) as -> by (rewrite Hq; reflexivity).
  destruct (Qcompare_spec (q - inject_Z 0) (1 # 2)) as [E|E|E];
    [exfalso|done|exfalso]; rewrite Hq in E; revert E; by compute.
Qed.

End Rounding.

Lemma clip_unit (x : Z) :
  (clip x 0 1 = 0 ∨ clip x 0 1 = 1)
  ∧ (clip x 0 1 = 1 ↔ 1 ≤ x)
  ∧ (clip x 0 1 = 0 ↔ x ≤ 0).
Proof. unfold clip, clip_by_value. simpl. lia. Qed.

Lemma effective_connection_shape (c : tensor Q) :
  shape (Tea.constrain_connections c) = shape c.
Proof. done. Qed.

Lemma effective_connection_cells (c : tensor Q) :
  Forall (λ e, e = 0 ∨ e = 1) (data (Tea.constrain_connections c)).
Proof.
  unfold Tea.constrain_connections, K_clip, tf_round, tensor_map. simpl.
  apply Forall_fmap, Forall_forall. intros z _. simpl. apply clip_unit.
Qed.

(** ** Reading cells *)

Lemma at_index_Forall {A} (P : A → Prop) (d : A) (l : list A) (i : nat) :
  P d → Forall P l → P (at_index d l i).
Proof.
  intros Hd Hl. unfold at_index. destruct (l !! i) as [x|] eqn:E; [|done].
  simpl. eapply Forall_lookup_1; eauto.
Qed.

Lemma at_index_fmap {A B} (f : A → B) (d : A) (l : list A) (i : nat) :
  at_index (f d) (f <$> l) i = f (at_index d l i).
Proof. unfold at_index. rewrite list_lookup_fmap. by destruct (l !! i). Qed.

Lemma imap_fmap_seq {A B} (f : nat → A → B) (g : nat → A) (m : nat) :
  imap f (g <$> seq 0 m) = (λ i, f i (g i)) <$> seq 0 m.
Proof.
  apply list_eq. intros i.
  rewrite list_lookup_imap, !list_lookup_fmap.
  destruct (seq 0 m !! i) as [j|] eqn:E; [|done].
  apply lookup_seq in E as [-> _]. done.
Qed.

Lemma shape_last_Ok {A} (sh : list A) (d : A) :
  shape_last sh = Ok d ↔ last sh = Some d.
Proof. unfold shape_last. destruct (last sh); naive_solver. Qed.

Lemma set_last_snoc {A} (sh : list A) (d v : A) :
  set_last (sh ++ [d]) v = sh ++ [v].
Proof.
  unfold set_last. rewrite length_app. simpl.
  replace (pred (length sh + 1)) with (length sh + 0)%nat by lia.
  by rewrite insert_app_r.
Qed.

(** ** float32 rounding: where it is exact *)

Lemma round_half_even_inject_Z (z : Z) : round_half_even (inject_Z z) = z.
Proof.
  unfold round_half_even. rewrite Qfloor_Z.
  destruct (Qcompare_spec (inject_Z z - inject_Z z) (1 # 2)) as [E|E|E];
    [exfalso; lra|done|exfalso; lra].
Qed.

Lemma round_half_even_comp (q q' : Q) :
  (q == q')%Q → round_half_even q = round_half_even q'.
Proof.
  intros H. unfold round_half_even.
  assert (Qfloor q = Qfloor q') as <- by (by apply Qfloor_comp).
  assert ((q - inject_Z (Qfloor q) ?= 1 # 2)%Q
          = (q' - inject_Z (Qfloor q) ?= 1 # 2)%Q) as <-; [|done].
  apply Qcompare_comp; [lra|reflexivity].
Qed.

Lemma float32_exact (z : Z) : Z.abs z ≤ 2 ^ 24 → float32 z = z.
Proof.
  intros Hz. unfold float32.
  destruct (Z.ltb_spec (Z.log2 (Z.abs z)) 24) as [|Hlog]; [done|].
  assert (0 < Z.abs z) as Hpos.
  { destruct (Z.eq_dec (Z.abs z) 0) as [E|]; [|lia]. rewrite E in Hlog. simpl in Hlog. lia. }
  apply Z.log2_le_pow2 in Hlog; [|done].
  assert (z = 16777216 ∨ z = -16777216) as [-> | ->] by lia; reflexivity.
Qed.

Lemma Zsum_cons (v : Z) (l : list Z) : Zsum (v :: l) = v + Zsum l.
Proof. done. Qed.

Lemma Zsum_abs_nonneg (l : list Z) : 0 ≤ Zsum (Z.abs <$> l).
Proof. induction l as [|v l IH]; [done|]. rewrite fmap_cons, Zsum_cons. lia. Qed.

Lemma Zsum_abs_elem (l : list Z) (v : Z) :
  v ∈ l → Z.abs v ≤ Zsum (Z.abs <$> l).
Proof.
  induction 1 as [v l|v w l _ IH]; rewrite fmap_cons, Zsum_cons.
  - pose proof (Zsum_abs_nonneg l). lia.
  - lia.
Qed.

Lemma Zsum_abs_bound (l : list Z) : Z.abs (Zsum l) ≤ Zsum (Z.abs <$> l).
Proof.
  induction l as [|v l IH]; [done|]. rewrite fmap_cons, !Zsum_cons. lia.
Qed.

(** Terms whose magnitudes add up to at most 2^24 are added without
    rounding, and then in any order. *)
Lemma sum32_exact (l : list Z) :
  Zsum (Z.abs <$> l) ≤ 2 ^ 24 → sum32 l = Zsum l.
Proof.
  unfold sum32.
  assert (∀ acc, Z.abs acc + Zsum (Z.abs <$> l) ≤ 2 ^ 24 →
                 foldl (λ acc v, float32 (acc + v)) acc l = acc + Zsum l) as H.
  { induction l as [|v l IH]; intros acc Hacc.
    - simpl. lia.
    - rewrite fmap_cons, Zsum_cons in Hacc. rewrite Zsum_cons. cbn [foldl].
      pose proof (Zsum_abs_nonneg l).
      rewrite float32_exact by lia. rewrite IH by lia. lia. }
  intros Hl. rewrite H by (simpl; lia). lia.
Qed.

Lemma Zsum_fmap_ext {A} (f g : A → Z) (l : list A) :
  (∀ a, a ∈ l → f a = g a) → Zsum (f <$> l) = Zsum (g <$> l).
Proof.
  intros H. f_equal. apply list_fmap_ext. intros i a Ha. apply H.
  by eapply list_elem_of_lookup_2.
Qed.

Lemma Qplus_inject_Z (a k : Z) : Qplus (inject_Z a) (inject_Z k) = inject_Z (a + k).
Proof. unfold Qplus, inject_Z. simpl. by rewrite !Z.mul_1_r. Qed.

Lemma Qred_inject_Z (k : Z) : Qred (inject_Z k) = inject_Z k.
Proof.
  unfold Qred, inject_Z.
  pose proof (Z.ggcd_gcd k 1) as Hg.
  pose proof (Z.ggcd_correct_divisors k 1) as Hd.
  destruct (Z.ggcd k 1) as [g [aa bb]]. cbn [fst snd] in *.
  rewrite Z.gcd_1_r in Hg. subst g. destruct Hd as [Ha Hb].
  rewrite Z.mul_1_l in Ha, Hb. by subst.
Qed.

Lemma Qpow2_nonpos (s : Z) : s ≤ 0 → Qpow2 s = (1 # Z.to_pos (2 ^ (- s)))%Q.
Proof.
  intros Hs. unfold Qpow2. destruct (Z.leb_spec 0 s) as [H|]; [|done].
  by replace s with 0 by lia.
Qed.

(** The integers up to 2^24 in magnitude are float32 numbers. *)
Lemma float32Q_inject_Z (k : Z) :
  Z.abs k ≤ 2 ^ 24 → float32Q (inject_Z k) = inject_Z k.
Proof.
  intros Hk. unfold float32Q.
  destruct (Z.eq_dec k 0) as [->|Hk0]; [done|].
  assert (Qeq_bool (inject_Z k) 0 = false) as ->.
  { apply not_true_is_false. intros H. apply Qeq_bool_iff in H.
    unfold Qeq in H. simpl in H. lia. }
  cbv zeta.
  assert (Qlog2 (Qabs (inject_Z k)) = Z.log2 (Z.abs k)) as ->.
  { unfold Qlog2. cbn [Qabs inject_Z Qnum Qden].
    change (Z.log2 (Z.pos 1)) with 0. rewrite Z.sub_0_r.
    assert (Qle_bool (Qpow2 (Z.log2 (Z.abs k))) (Z.abs k # 1) = true) as ->; [|done].
    apply Qle_bool_iff. unfold Qpow2.
    rewrite (proj2 (Z.leb_le 0 _)) by apply Z.log2_nonneg.
    change (Z.abs k # 1)%Q with (inject_Z (Z.abs k)). rewrite <-Zle_Qle.
    apply Z.log2_spec. lia. }
  assert (0 ≤ Z.log2 (Z.abs k) < 25) as HL.
  { split; [apply Z.log2_nonneg|]. apply Z.log2_lt_pow2; lia. }
  rewrite Z.max_l by lia.
  destruct (Z.le_gt_cases 24 (Z.log2 (Z.abs k))) as [H24|H24].
  { apply Z.log2_le_pow2 in H24; [|lia].
    assert (k = 16777216 ∨ k = -16777216) as [-> | ->] by lia; reflexivity. }
  rewrite Qpow2_nonpos by lia.
  set (p := Z.to_pos (2 ^ (- (Z.log2 (Z.abs k) - 23)))).
  assert (inject_Z k / (1 # p) == inject_Z (k * Z.pos p))%Q as Hdiv.
  { unfold Qdiv, Qinv, Qmult, Qeq. simpl. lia. }
  rewrite (round_half_even_comp _ _ Hdiv), round_half_even_inject_Z.
  etrans; [|apply Qred_inject_Z]. apply Qred_complete.
  unfold Qmult, Qeq. simpl. lia.
Qed.

(** Integer cells whose magnitudes add up to at most 2^24 are added without
    rounding: the float32 sum is the exact sum. *)
Lemma sum32Q_exact (ks : list Z) :
  Zsum (Z.abs <$> ks) ≤ 2 ^ 24 →
  sum32Q (inject_Z <$> ks) = inject_Z (Zsum ks)
  ∧ Qsum (inject_Z <$> ks) = inject_Z (Zsum ks).
Proof.
  unfold sum32Q, Qsum. change 0%Q with (inject_Z 0).
  assert (∀ acc, Z.abs acc + Zsum (Z.abs <$> ks) ≤ 2 ^ 24 →
            foldl (λ acc v, float32Q (acc + v)) (inject_Z acc) (inject_Z <$> ks)
            = inject_Z (acc + Zsum ks)
            ∧ foldl Qplus (inject_Z acc) (inject_Z <$> ks) = inject_Z (acc + Zsum ks))
    as H.
  { induction ks as [|v ks IH]; intros acc Hacc.
    - simpl. by rewrite Z.add_0_r.
    - rewrite fmap_cons, Zsum_cons in Hacc. rewrite fmap_cons, Zsum_cons.
      cbn [foldl]. pose proof (Zsum_abs_nonneg ks).
      rewrite Qplus_inject_Z, float32Q_inject_Z by lia.
      destruct (IH (acc + v)) as [-> ->]; [lia|].
      by rewrite Z.add_assoc. }
  intros Hl. destruct (H 0) as [-> ->]; [simpl; lia|done].
Qed.

(** ** Sums of bounded terms *)

Lemma Zsum_bounded (l : list Z) :
  Forall (λ v, -1 ≤ v ≤ 1) l → - Z.of_nat (length l) ≤ Zsum l ≤ Z.of_nat (length l).
Proof.
  induction 1 as [|v l Hv _ IH]; simpl; [lia|].
  rewrite Nat2Z.inj_succ. lia.
Qed.

Lemma Zsum_zero (l : list Z) : Forall (λ v, v = 0) l → Zsum l = 0.
Proof. induction 1 as [|v l Hv _ IH]; simpl; lia. Qed.

Lemma mod_block (k nc s : nat) : (s < nc)%nat → ((k * nc + s) mod nc)%nat = s.
Proof.
  intros Hs. symmetry. apply (Nat.mod_unique _ _ k); [done|lia].
Qed.

Lemma div_block (k nc s : nat) : (s < nc)%nat → ((k * nc + s) / nc)%nat = k.
Proof.
  intros Hs. symmetry. apply (Nat.div_unique _ _ _ s); [done|lia].
Qed.

Lemma lookup_block {A} (f : nat → A) (b r bi k : nat) :
  (bi < b)%nat → (k < r)%nat →
  (f <$> seq 0 (b * r)) !! (bi * r + k)%nat = Some (f (bi * r + k)%nat).
Proof.
  intros Hbi Hk. rewrite list_lookup_fmap, lookup_seq_lt; [done|nia].
Qed.

(** The terms of cell [idx] of [K.dot(x, y)], before any rounding. *)
Lemma dot_cell_exact (x y : tensor Z) (n u idx : nat) :
  Zsum ((λ i, Z.abs (cell x n (idx / u) i * cell y u i (idx mod u))) <$> seq 0 n)
  ≤ 2 ^ 24 →
  dot_cell x y n u idx
  = Zsum ((λ i, cell x n (idx / u) i * cell y u i (idx mod u)) <$> seq 0 n).
Proof.
  intros Hsum. unfold dot_cell.
  set (t := λ i, cell x n (idx / u) i * cell y u i (idx mod u)).
  assert (Zsum (Z.abs <$> (t <$> seq 0 n)) ≤ 2 ^ 24) as Hsum'
    by (by rewrite <-list_fmap_compose).
  clear Hsum. rename Hsum' into Hsum.
  change (sum32 ((λ i, float32 (t i)) <$> seq 0 n) = Zsum (t <$> seq 0 n)).
  assert ((λ i, float32 (t i)) <$> seq 0 n = t <$> seq 0 n) as ->.
  { apply list_fmap_ext. intros k i Hi. apply float32_exact.
    etrans; [|exact Hsum]. apply Zsum_abs_elem.
    apply list_elem_of_fmap. exists i. split; [done|].
    by eapply list_elem_of_lookup_2. }
  by apply sum32_exact.
Qed.

Lemma dot_cell_bounded (x y : tensor Z) (n u idx : nat) :
  Forall (λ v, v = 0 ∨ v = 1) (data x) →
  Forall (λ v, v = -1 ∨ v = 0 ∨ v = 1) (data y) →
  Z.of_nat n ≤ 2 ^ 24 →
  - Z.of_nat n ≤ dot_cell x y n u idx ≤ Z.of_nat n.
Proof.
  intros Hx Hy Hn.
  set (t := λ i, cell x n (idx / u) i * cell y u i (idx mod u)).
  assert (∀ i, -1 ≤ t i ≤ 1) as Ht.
  { intros i. unfold t, cell.
    pose proof (at_index_Forall _ 0 (data x) (idx / u * n + i) (or_introl eq_refl) Hx).
    pose proof (at_index_Forall _ 0 (data y) (i * u + idx mod u)
                  (or_intror (or_introl eq_refl)) Hy).
    simpl in *. nia. }
  assert (Zsum ((λ i, Z.abs (t i)) <$> seq 0 n) ≤ Z.of_nat n) as Habs.
  { pose proof (Zsum_bounded ((λ i, Z.abs (t i)) <$> seq 0 n)) as H.
    rewrite length_fmap, length_seq in H. apply H.
    apply Forall_fmap, Forall_forall. intros i _. simpl. specialize (Ht i). lia. }
  rewrite dot_cell_exact by (etrans; [exact Habs|exact Hn]).
  pose proof (Zsum_bounded (t <$> seq 0 n)) as H.
  rewrite length_fmap, length_seq in H. apply H.
  apply Forall_fmap, Forall_forall. intros i _. apply Ht.
Qed.

Lemma dot_cell_zero_input (x y : tensor Z) (n u idx : nat) :
  Forall (λ v, v = 0) (data x) → dot_cell x y n u idx = 0.
Proof.
  intros Hx.
  assert (∀ i, cell x n (idx / u) i * cell y u i (idx mod u) = 0) as Ht.
  { intros i. unfold cell.
    pose proof (at_index_Forall _ 0 (data x) (idx / u * n + i) eq_refl Hx).
    simpl in *. lia. }
  rewrite dot_cell_exact.
  - apply Zsum_zero, Forall_fmap, Forall_forall. intros i _. apply Ht.
  - rewrite Zsum_zero; [done|].
    apply Forall_fmap, Forall_forall. intros i _. simpl. by rewrite Ht.
Qed.

(** ** The forward pass of [Tea] *)

Ltac py_unfold :=
  unfold mbind, mret, py_mbind, py_mret, py_bind, py_ret, py_lift, py_getattr,
    py_read, py_modify, py_assert, py_raise, result_mbind, result_ret,
    result_bind in *;
  unfold py_ret, py_raise in *.

Section TeaForward.
Variable K_sigmoid : Z → Q.

Lemma call_state (phase : learning_phase) (x : tensor Q) (self : Tea.layer) :
  (Tea.call K_sigmoid phase x self).2 = self.
Proof.
  unfold Tea.call. py_unfold.
  destruct (Tea.connections self) as [c|]; [|done].
  destruct (Tea.static_weights self) as [w|]; [|done].
  destruct (tensor_mul _ w) as [wc|]; [|done].
  destruct (K_dot _ wc) as [o|]; [|done].
  destruct (Tea.biases self) as [b|]; [|done].
  by destruct (K_bias_add o _).
Qed.

(** [call] on a layer that holds its three parameters: the steps after the
    effective connections are derived. *)
Lemma call_steps (phase : learning_phase) (x c b : tensor Q) (w : tensor Z)
    (self : Tea.layer) :
  Tea.connections self = Some c →
  Tea.static_weights self = Some w →
  Tea.biases self = Some b →
  Tea.call K_sigmoid phase x self
  = ((weighted_connections ← tensor_mul (Tea.constrain_connections c) w;
      output ← K_dot (tf_round x) weighted_connections;
      output ← K_bias_add output (tf_round b);
      Ok (Tea.activation K_sigmoid phase output)), self).
Proof.
  intros Hc Hw Hb. unfold Tea.call, Tea.constrain_connections. py_unfold.
  rewrite Hc, Hw.
  destruct (tensor_mul _ w) as [wc|]; [|done].
  destruct (K_dot _ wc) as [o|]; [|done].
  rewrite Hb. by destruct (K_bias_add o _).
Qed.

Lemma call_potential (phase : learning_phase) (x c b : tensor Q) (w p : tensor Z)
    (self : Tea.layer) :
  Tea.connections self = Some c →
  Tea.static_weights self = Some w →
  Tea.biases self = Some b →
  Tea.potential x c w b = Ok p →
  Tea.call K_sigmoid phase x self = (Ok (Tea.activation K_sigmoid phase p), self).
Proof.
  intros Hc Hw Hb. unfold Tea.call, Tea.potential, Tea.effective_weights,
    Tea.constrain_connections. py_unfold. rewrite Hc, Hw.
  destruct (tensor_mul _ w) as [wc|]; [|done].
  destruct (K_dot _ wc) as [o|]; [|done].
  rewrite Hb. by intros ->.
Qed.
End TeaForward.

(** [K.dot] on an input it accepts. *)
Lemma K_dot_shaped (x y : tensor Z) (n u : nat) (lead : list nat) :
  shape y = [n; u] →
  shape x = lead ++ [n] → lead ≠ [] → (length lead = 1%nat ∨ n ≠ 0%nat) →
  K_dot x y
  = Ok (Tensor (lead ++ [u]) (dot_cell x y n u <$> seq 0 (numel lead * u))).
Proof.
  intros Hy Hx Hlead Hn. unfold K_dot. rewrite Hy, Hx.
  rewrite last_snoc, length_app. cbn [length].
  replace (length lead + 1 <? 2)%nat with false
    by (symmetry; apply Nat.ltb_ge; destruct lead; [done|simpl; lia]).
  rewrite bool_decide_eq_true_2 by done. cbn [negb].
  replace ((3 <=? length lead + 1)%nat && (n =? 0)%nat) with false.
  2:{ symmetry. apply andb_false_iff. destruct Hn as [Hn|Hn].
      - left. apply Nat.leb_gt. lia.
      - right. by apply Nat.eqb_neq. }
  replace (pred (length lead + 1)) with (length lead) by lia.
  by rewrite take_app_length.
Qed.

Lemma potential_shaped (x c b : tensor Q) (w : tensor Z) (n u : nat)
    (lead : list nat) :
  shape c = [n; u] → shape w = [n; u] → shape b = [u] →
  shape x = lead ++ [n] → lead ≠ [] → (length lead = 1%nat ∨ n ≠ 0%nat) →
  let ew := Tensor [n; u]
              (zip_with (λ v s, float32 (v * s))
                 (data (Tea.constrain_connections c)) (data w)) in
  Tea.effective_weights c w = Ok ew
  ∧ Tea.potential x c w b
    = Ok (Tensor (lead ++ [u])
            ((λ idx, float32 (dot_cell (tf_round x) ew n u idx
                              + round_half_even
                                  (at_index 0%Q (data b) (idx mod u)%nat)))
               <$> seq 0 (numel lead * u))).
Proof.
  intros Hc Hw Hb Hx Hlead Hn ew.
  assert (Tea.effective_weights c w = Ok ew) as Hew.
  { unfold Tea.effective_weights, tensor_mul.
    rewrite decide_True by (by rewrite Hw). unfold ew. do 2 f_equal. exact Hc. }
  split; [done|].
  unfold Tea.potential. rewrite Hew. py_unfold.
  rewrite (K_dot_shaped (tf_round x) ew n u lead) by done.
  unfold K_bias_add. cbn [shape tf_round tensor_map data].
  rewrite Hb, last_snoc. rewrite decide_True by done.
  do 2 f_equal.
  rewrite imap_fmap_seq. apply list_fmap_ext. intros _ idx _. simpl.
  do 2 f_equal. apply (at_index_fmap round_half_even 0%Q).
Qed.

(** [build] on an input with [n] features leaves a built layer: alternating
    static weights, connections of the same shape, zero biases. *)
Lemma build_establishes_built (truncated_normal : nat → Q)
    (input_shape : keras_shape) (self : Tea.layer) (n : nat) :
  (2 ≤ length input_shape)%nat →
  last input_shape = Some (Some (Z.of_nat n)) →
  0 ≤ Tea.units self →
  ∃ self', Tea.build truncated_normal input_shape self = (Ok tt, self')
         ∧ Tea.units self' = Tea.units self
         ∧ Tea.built n self'
         ∧ ∃ b, Tea.biases self' = Some b ∧ Forall (λ q, q = 0%Q) (data b).
Proof.
  intros Hlen Hlast Hu.
  assert (tea_weight_initializer (Z.of_nat n, Tea.units self)
          = Ok (alternating_weights n (Z.to_nat (Tea.units self)))) as Hw.
  { rewrite <-(Z2Nat.id (Tea.units self)) at 1 by lia.
    apply tea_weight_initializer_closed. }
  unfold Tea.build. py_unfold.
  replace (2 <=? length input_shape)%nat with true
    by (symmetry; apply Nat.leb_le; lia).
  apply shape_last_Ok in Hlast. rewrite Hlast. cbn [dim_int]. cbv beta iota.
  rewrite Hw. cbv beta iota. rewrite Nat2Z.id.
  eexists. split; [done|]. split; [done|]. split.
  - split; simpl; [done|done| |].
    + eexists. split; [done|]. split; [done|].
      unfold tensor_wf. simpl. by rewrite length_fmap, length_seq.
    + eexists. split; [done|]. split; [done|].
      unfold tensor_wf. simpl. rewrite length_replicate. lia.
  - eexists. split; [done|]. simpl. by apply Forall_replicate.
Qed.

(** ** The claims about the weight initializer and the [Tea] layer *)

(** C4.  For every shape [(a, b)] with [a > 0] and [b > 0] the initializer
    returns the [a] by [b] matrix whose row [i] holds [+1] in every column
    when [i] is even and [-1] in every column when [i] is odd; the result is
    the closed form [alternating_weights], which depends on the shape only. *)
Theorem tea_weight_initializer_alternating (a b : Z) :
  0 < a → 0 < b →
  ∃ w, tea_weight_initializer (a, b) = Ok w
     ∧ w = alternating_weights (Z.to_nat a) (Z.to_nat b)
     ∧ shape w = [Z.to_nat a; Z.to_nat b]
     ∧ tensor_wf w
     ∧ ∀ i j : nat, (i < Z.to_nat a)%nat → (j < Z.to_nat b)%nat →
         data w !! (i * Z.to_nat b + j)%nat
         = Some (if Nat.even i then 1 else -1).
Proof.
  intros Ha Hb. exists (alternating_weights (Z.to_nat a) (Z.to_nat b)).
  split; [|split; [done|split; [done|split]]].
  - rewrite <-(Z2Nat.id a) at 1 by lia. rewrite <-(Z2Nat.id b) at 1 by lia.
    apply tea_weight_initializer_closed.
  - apply alternating_weights_wf.
  - intros i j Hi Hj. by apply alternating_weights_lookup.
Qed.

Lemma tea_weight_initializer_alternating_witness :
  0 < 3 ∧ 0 < 2 ∧
  ∃ w, tea_weight_initializer (3, 2) = Ok w
     ∧ w = alternating_weights (Z.to_nat 3) (Z.to_nat 2)
     ∧ shape w = [Z.to_nat 3; Z.to_nat 2]
     ∧ tensor_wf w
     ∧ ∀ i j : nat, (i < Z.to_nat 3)%nat → (j < Z.to_nat 2)%nat →
         data w !! (i * Z.to_nat 2 + j)%nat
         = Some (if Nat.even i then 1 else -1).
Proof.
  split; [lia|split; [lia|]].
  apply (tea_weight_initializer_alternating 3 2); lia.
Defined.

(** C1.  The effective connections [call] derives from the connection
    parameters (round to the nearest integer, then clip to [0, 1]) keep
    their shape and hold only 0 and 1; a cell is 1 exactly when the rounded
    parameter is at least 1 and 0 exactly when the rounded parameter is at
    most 0.  The rounded parameter is an integer within one half of the
    parameter.  These effective connections are what the forward pass
    multiplies with the static weights: [call] is the rest of its steps run
    on them. *)
Theorem effective_connection_binary (K_sigmoid : Z → Q) (phase : learning_phase)
    (x connections biases : tensor Q) (static_weights : tensor Z)
    (self : Tea.layer) :
  Tea.connections self = Some connections →
  Tea.static_weights self = Some static_weights →
  Tea.biases self = Some biases →
  let effective := Tea.constrain_connections connections in
  shape effective = shape connections
  ∧ length (data effective) = length (data connections)
  ∧ Forall (λ e, e = 0 ∨ e = 1) (data effective)
  ∧ (∀ (k : nat) (q : Q),
       data connections !! k = Some q →
       (Qabs (q - inject_Z (round_half_even q)) <= 1 # 2)%Q
       ∧ ∃ e, data effective !! k = Some e
            ∧ (e = 0 ∨ e = 1)
            ∧ (e = 1 ↔ 1 ≤ round_half_even q)
            ∧ (e = 0 ↔ round_half_even q ≤ 0))
  ∧ Tea.call K_sigmoid phase x self
    = ((weighted_connections ← tensor_mul effective static_weights;
        output ← K_dot (tf_round x) weighted_connections;
        output ← K_bias_add output (tf_round biases);
        Ok (Tea.activation K_sigmoid phase output)), self).
Proof.
  intros Hc Hw Hb effective.
  split; [done|split; [|split; [apply effective_connection_cells|split]]].
  - unfold effective, Tea.constrain_connections, K_clip, tf_round, tensor_map.
    simpl. by rewrite !length_fmap.
  - intros k q Hq. split; [apply round_half_even_nearest|].
    exists (clip (round_half_even q) 0 1).
    split; [|apply clip_unit].
    unfold effective, Tea.constrain_connections, K_clip, tf_round, tensor_map.
    simpl. by rewrite !list_lookup_fmap, Hq.
  - by apply call_steps.
Qed.

Lemma effective_connection_binary_witness :
  let connections := Tensor [2; 1]%nat [3 # 2; -1 # 3]%Q in
  let biases := Tensor [1%nat] [0 # 1]%Q in
  let static_weights := alternating_weights 2 1 in
  let self := Tea.Layer 1 true (Some static_weights) (Some connections)
                (Some biases) in
  let x := Tensor [1; 2]%nat [1 # 1; 1 # 1]%Q in
  let effective := Tea.constrain_connections connections in
  shape effective = shape connections
  ∧ length (data effective) = length (data connections)
  ∧ Forall (λ e, e = 0 ∨ e = 1) (data effective)
  ∧ (∀ (k : nat) (q : Q),
       data connections !! k = Some q →
       (Qabs (q - inject_Z (round_half_even q)) <= 1 # 2)%Q
       ∧ ∃ e, data effective !! k = Some e
            ∧ (e = 0 ∨ e = 1)
            ∧ (e = 1 ↔ 1 ≤ round_half_even q)
            ∧ (e = 0 ↔ round_half_even q ≤ 0))
  ∧ Tea.call (λ _, 1 # 2)%Q Inference x self
    = ((weighted_connections ← tensor_mul effective static_weights;
        output ← K_dot (tf_round x) weighted_connections;
        output ← K_bias_add output (tf_round biases);
        Ok (Tea.activation (λ _, 1 # 2)%Q Inference output)), self).
Proof.
  intros connections biases static_weights self x.
  apply (effective_connection_binary (λ _, 1 # 2)%Q Inference x connections
           biases static_weights self); reflexivity.
Defined.

(** C9.  [call] assigns no attribute: whatever the phase, the input and the
    outcome (a tensor or an exception), the layer afterwards is the layer
    before, so the connections, the biases and the static weights are the
    stored ones; the rounded and clipped tensors are never written back. *)
Theorem call_preserves_parameters (K_sigmoid : Z → Q) (phase : learning_phase)
    (x : tensor Q) (self : Tea.layer) :
  let self' := (Tea.call K_sigmoid phase x self).2 in
  self' = self
  ∧ Tea.connections self' = Tea.connections self
  ∧ Tea.biases self' = Tea.biases self
  ∧ Tea.static_weights self' = Tea.static_weights self.
Proof. intros self'. unfold self'. by rewrite call_state. Qed.

Lemma zip_with_mul_float32 (l k : list Z) :
  Forall (λ e, e = 0 ∨ e = 1) l → Forall (λ s, s = 1 ∨ s = -1) k →
  zip_with (λ v s, float32 (v * s)) l k = zip_with Z.mul l k.
Proof.
  intros Hl. revert k. induction Hl as [|e l He _ IH]; intros [|s k] Hk; try done.
  apply Forall_cons in Hk as [Hs Hk]. cbn [zip_with]. rewrite IH by done.
  f_equal. apply float32_exact. lia.
Qed.

Lemma alternating_weights_signs (n u : nat) :
  Forall (λ s, s = 1 ∨ s = -1) (data (alternating_weights n u)).
Proof.
  simpl. apply Forall_join. unfold alternating_rows.
  apply Forall_fmap, Forall_forall. intros i _. simpl.
  apply Forall_replicate. unfold axon_sign. destruct (Nat.even i); auto.
Qed.

Lemma effective_weights_ternary (n u : nat) (c : tensor Q) :
  shape c = [n; u] →
  ∃ ew, Tea.effective_weights c (alternating_weights n u) = Ok ew
      ∧ shape ew = [n; u]
      ∧ data ew = zip_with Z.mul (data (Tea.constrain_connections c))
                                 (data (alternating_weights n u))
      ∧ Forall (λ v, v = -1 ∨ v = 0 ∨ v = 1) (data ew).
Proof.
  intros Hc. unfold Tea.effective_weights, tensor_mul.
  rewrite decide_True by (by rewrite effective_connection_shape).
  eexists. split; [done|]. cbn [shape data]. split; [done|].
  rewrite zip_with_mul_float32
    by (apply effective_connection_cells || apply alternating_weights_signs).
  split; [done|].
  eapply Forall_zip_with_fst.
  - apply effective_connection_cells.
  - eapply Forall_impl; [apply alternating_weights_signs|].
    simpl. intros s Hs e He. lia.
Qed.

(** The potentials of a built layer on an input it accepts. *)
Lemma built_potential (n : nat) (self : Tea.layer) (x : tensor Q)
    (lead : list nat) :
  Tea.built n self →
  shape x = lead ++ [n] → lead ≠ [] → (length lead = 1%nat ∨ n ≠ 0%nat) →
  let u := Z.to_nat (Tea.units self) in
  ∃ c b,
    Tea.connections self = Some c ∧ shape c = [n; u]
    ∧ Tea.biases self = Some b ∧ shape b = [u]
    ∧ Tea.static_weights self = Some (alternating_weights n u)
    ∧ Tea.potential x c (alternating_weights n u) b
      = Ok (Tensor (lead ++ [u])
              ((λ idx, float32
                         (dot_cell (tf_round x)
                            (Tensor [n; u]
                               (zip_with Z.mul (data (Tea.constrain_connections c))
                                               (data (alternating_weights n u))))
                            n u idx
                          + round_half_even (at_index 0%Q (data b) (idx mod u)%nat)))
                 <$> seq 0 (numel lead * u))).
Proof.
  intros [Hu Hw (c & Hc & Hcs & _) (b & Hb & Hbs & _)] Hx Hlead Hn u.
  exists c, b. repeat split; try done.
  destruct (potential_shaped x c b (alternating_weights n u) n u lead)
    as [_ Hp]; try done.
  rewrite Hp.
  by rewrite zip_with_mul_float32
    by (apply effective_connection_cells || apply alternating_weights_signs).
Qed.

Lemma at_index_zip_with_mul (l k : list Z) (m : nat) :
  at_index 0 (zip_with Z.mul l k) m = at_index 0 l m * at_index 0 k m.
Proof.
  unfold at_index. rewrite lookup_zip_with.
  destruct (l !! m) as [a|], (k !! m) as [b|]; simpl; lia.
Qed.

Lemma constrain_connections_cell (c : tensor Q) (m : nat) :
  at_index 0 (data (Tea.constrain_connections c)) m
  = clip (round_half_even (at_index 0%Q (data c) m)) 0 1.
Proof.
  unfold Tea.constrain_connections, K_clip, tf_round, tensor_map. cbn [data].
  rewrite <-list_fmap_compose.
  apply (at_index_fmap ((λ x, clip x 0 1) ∘ round_half_even) 0%Q).
Qed.

(** Where float32 adds exactly, the potential of neuron [j] on input row [r]
    is the signed count of the connected spikes plus the rounded leak. *)
Lemma potential_cell_exact (n u : nat) (x c b : tensor Q) (r j : nat) :
  (j < u)%nat →
  Zsum ((λ i, Z.abs (round_half_even
                       (at_index 0%Q (data x) (r * n + i)%nat)))
          <$> seq 0 n)
  + Z.abs (round_half_even (at_index 0%Q (data b) j)) ≤ 2 ^ 24 →
  float32 (dot_cell (tf_round x)
             (Tensor [n; u]
                (zip_with Z.mul (data (Tea.constrain_connections c))
                                (data (alternating_weights n u))))
             n u (r * u + j)
           + round_half_even (at_index 0%Q (data b) ((r * u + j) mod u)%nat))
  = Zsum ((λ i, (if Nat.even i then 1 else -1)
                * (clip (round_half_even
                           (at_index 0%Q (data c) (i * u + j)%nat)) 0 1
                   * round_half_even
                       (at_index 0%Q (data x) (r * n + i)%nat)))
            <$> seq 0 n)
    + round_half_even (at_index 0%Q (data b) j).
Proof.
  intros Hj Hsmall.
  rewrite mod_block by done.
  set (ew := Tensor [n; u]
               (zip_with Z.mul (data (Tea.constrain_connections c))
                  (data (alternating_weights n u)))).
  set (xr := λ i, round_half_even (at_index 0%Q (data x) (r * n + i)%nat)).
  change (Zsum ((λ i, Z.abs (xr i)) <$> seq 0 n)
          + Z.abs (round_half_even (at_index 0%Q (data b) j)) ≤ 2 ^ 24) in Hsmall.
  set (term := λ i, (if Nat.even i then 1 else -1)
                    * (clip (round_half_even
                               (at_index 0%Q (data c) (i * u + j)%nat)) 0 1
                       * xr i)).
  assert (∀ i, (i < n)%nat →
            cell (tf_round x) n ((r * u + j) / u) i
            * cell ew u i ((r * u + j) mod u) = term i) as Hterm.
  { intros i Hi. rewrite div_block, mod_block by done.
    unfold cell, ew, term, xr. cbn [data tf_round tensor_map].
    rewrite (at_index_fmap round_half_even 0%Q).
    rewrite at_index_zip_with_mul, constrain_connections_cell.
    pose proof (alternating_weights_lookup n u i j Hi Hj) as Hs.
    replace (at_index 0 (data (alternating_weights n u)) (i * u + j)) with (axon_sign i)
      by (unfold at_index; by rewrite Hs).
    unfold axon_sign. ring. }
  assert (∀ i, Z.abs (term i) ≤ Z.abs (xr i)) as Hle.
  { intros i. unfold term.
    pose proof (clip_unit (round_half_even (at_index 0%Q (data c) (i * u + j)%nat)))
      as [Hclip _].
    destruct (Nat.even i); lia. }
  assert (Zsum ((λ i, Z.abs (term i)) <$> seq 0 n)
          ≤ Zsum ((λ i, Z.abs (xr i)) <$> seq 0 n)) as Hsum.
  { clear Hterm Hsmall. generalize (seq 0 n). intros l.
    induction l as [|i l IH]; [done|]. rewrite !fmap_cons, !Zsum_cons.
    specialize (Hle i). lia. }
  assert (Zsum ((λ i, cell (tf_round x) n ((r * u + j) / u) i
                      * cell ew u i ((r * u + j) mod u)) <$> seq 0 n)
          = Zsum (term <$> seq 0 n)) as Heq.
  { apply Zsum_fmap_ext. intros i Hi. apply Hterm.
    apply elem_of_seq in Hi. lia. }
  assert (Zsum ((λ i, Z.abs (cell (tf_round x) n ((r * u + j) / u) i
                             * cell ew u i ((r * u + j) mod u))) <$> seq 0 n)
          = Zsum ((λ i, Z.abs (term i)) <$> seq 0 n)) as Heqabs.
  { apply Zsum_fmap_ext. intros i Hi. f_equal. apply Hterm.
    apply elem_of_seq in Hi. lia. }
  pose proof (Zsum_abs_nonneg (xr <$> seq 0 n)) as Hnn.
  rewrite <-list_fmap_compose in Hnn.
  change (Z.abs ∘ xr) with (λ i, Z.abs (xr i)) in Hnn.
  rewrite dot_cell_exact by (rewrite Heqabs; lia).
  rewrite Heq.
  pose proof (Zsum_abs_bound (term <$> seq 0 n)) as Hb1.
  rewrite <-list_fmap_compose in Hb1.
  change (Z.abs ∘ term) with (λ i, Z.abs (term i)) in Hb1.
  rewrite float32_exact by lia. reflexivity.
Qed.

(** C3.  The threshold is inclusive: a potential of exactly 0 spikes, so in
    inference mode every cell of the potentials that holds 0 gives 1.0.  On a
    built layer and an input it accepts, [call] returns, and the neuron [j]
    whose signed count of connected spikes on row [r] plus rounded leak is
    exactly 0 outputs 1.0 there (the magnitudes adding up to at most 2^24,
    so that float32 adds without rounding, in any order).  Whatever the
    connections, an input the layer accepts whose cells are all zero and
    leaks that all round to 0 give an output whose cells are all 1.0. *)
Theorem zero_potential_spikes (K_sigmoid : Z → Q) :
  spike 0 = 1%Q
  ∧ (∀ (p : tensor Z) (k : nat),
       data p !! k = Some 0 →
       data (Tea.activation K_sigmoid Inference p) !! k = Some 1%Q)
  ∧ (∀ (n : nat) (self : Tea.layer) (x c b : tensor Q) (lead : list nat),
       Tea.built n self →
       shape x = lead ++ [n] → lead ≠ [] →
       (length lead = 1%nat ∨ n ≠ 0%nat) →
       Tea.connections self = Some c →
       Tea.biases self = Some b →
       let u := Z.to_nat (Tea.units self) in
       ∃ out, Tea.call K_sigmoid Inference x self = (Ok out, self)
            ∧ ∀ r j : nat, (r < numel lead)%nat → (j < u)%nat →
                Zsum ((λ i, Z.abs (round_half_even
                                     (at_index 0%Q (data x) (r * n + i)%nat)))
                        <$> seq 0 n)
                + Z.abs (round_half_even (at_index 0%Q (data b) j)) ≤ 2 ^ 24 →
                Zsum ((λ i, (if Nat.even i then 1 else -1)
                            * (clip (round_half_even
                                       (at_index 0%Q (data c) (i * u + j)%nat)) 0 1
                               * round_half_even
                                   (at_index 0%Q (data x) (r * n + i)%nat)))
                        <$> seq 0 n)
                + round_half_even (at_index 0%Q (data b) j) = 0 →
                data out !! (r * u + j)%nat = Some 1%Q)
  ∧ (∀ (n : nat) (self : Tea.layer) (x b : tensor Q) (lead : list nat),
       Tea.built n self →
       shape x = lead ++ [n] → lead ≠ [] →
       (length lead = 1%nat ∨ n ≠ 0%nat) →
       Forall (λ q, q == 0) (data x) →
       Tea.biases self = Some b →
       Forall (λ q, round_half_even q = 0) (data b) →
       let u := Z.to_nat (Tea.units self) in
       Tea.call K_sigmoid Inference x self
       = (Ok (Tensor (lead ++ [u]) (replicate (numel lead * u) 1%Q)), self)).
Proof.
  split; [done|split; [|split]].
  - intros p k Hk. simpl. by rewrite list_lookup_fmap, Hk.
  - intros n self x c b lead Hbuilt Hx Hlead Hn Hc Hb u.
    destruct (built_potential n self x lead Hbuilt Hx Hlead Hn)
      as (c' & b' & Hc' & _ & Hb' & _ & Hw & Hp).
    assert (c' = c) as -> by congruence.
    assert (b' = b) as -> by congruence.
    fold u in Hw, Hp.
    eexists. split;
      [exact (call_potential K_sigmoid Inference x c b _ _ self Hc Hw Hb Hp)|].
    intros r j Hr Hj Hsmall Hzero.
    cbn [Tea.activation K_in_train_phase tensor_map data].
    rewrite list_lookup_fmap, lookup_block by done.
    cbn [fmap option_fmap option_map].
    by rewrite potential_cell_exact, Hzero by done.
  - intros n self x b lead Hbuilt Hx Hlead Hn Hzero Hb Hleak u.
    destruct (built_potential n self x lead Hbuilt Hx Hlead Hn)
      as (c & b' & Hc & _ & Hb' & _ & Hw & Hp).
    assert (b' = b) as -> by congruence.
    rewrite (call_potential K_sigmoid Inference x c b _ _ self Hc Hw Hb Hp).
    do 2 f_equal. unfold Tea.activation, tensor_map. simpl. f_equal.
    rewrite <-list_fmap_compose.
    etrans; [apply (const_fmap _ _ 1%Q)|by rewrite length_seq].
    intros _ idx _. simpl.
    rewrite dot_cell_zero_input.
    + rewrite (at_index_Forall (λ q, round_half_even q = 0) 0%Q (data b)); done.
    + simpl. apply Forall_fmap. eapply Forall_impl; [exact Hzero|].
      intros q Hq. simpl. by apply round_half_even_zero.
Qed.

Lemma zero_potential_spikes_witness :
  let self := Tea.Layer 2 true (Some (alternating_weights 3 2))
                (Some (Tensor [3; 2]%nat [1 # 2; 3 # 2; 7 # 10; -1 # 1; 2 # 1; 1 # 1]%Q))
                (Some (Tensor [2]%nat [0 # 1; -4 # 10]%Q)) in
  let x := Tensor [2; 3]%nat [0 # 1; 0 # 2; 0 # 1; 0 # 1; 0 # 5; 0 # 1]%Q in
  Tea.call (λ _, 1 # 2)%Q Inference x self
  = (Ok (Tensor [2; 2]%nat [1; 1; 1; 1]%Q), self).
Proof.
  intros self x.
  apply (proj2 (proj2 (proj2 (zero_potential_spikes (λ _, 1 # 2)%Q))) 3%nat self x
           (Tensor [2]%nat [0 # 1; -4 # 10]%Q) [2%nat]).
  - split; simpl; [lia|reflexivity| |].
    + eexists. split; [reflexivity|]. split; reflexivity.
    + eexists. split; [reflexivity|]. split; reflexivity.
  - reflexivity.
  - discriminate.
  - left. reflexivity.
  - repeat constructor.
  - reflexivity.
  - repeat constructor.
Defined.

(** C10 fails as stated: "any leak" is too much for float32.  With one
    axon, input 1, connection 1 and a leak of 2^24 + 2, the potential is the
    float32 sum of 1 and 16777218, which is 16777220 (16777219 is no float32
    number, and the tie goes to the even significand): more than
    [n + |leak| = 16777219]. *)
Lemma potential_exceeds_bound :
  let c := Tensor [1; 1]%nat [1 # 1]%Q in
  let b := Tensor [1%nat] [16777218 # 1]%Q in
  let x := Tensor [1; 1]%nat [1 # 1]%Q in
  let w := alternating_weights 1 1 in
  let self := Tea.Layer 1 true (Some w) (Some c) (Some b) in
  tea_weight_initializer (1, 1) = Ok w
  ∧ Forall (λ q, round_half_even q = 0 ∨ round_half_even q = 1) (data x)
  ∧ round_half_even (at_index 0%Q (data b) 0%nat) = 16777218
  ∧ Tea.potential x c w b = Ok (Tensor [1; 1]%nat [16777220])
  ∧ ¬ (16777220 ≤ Z.of_nat 1 + Z.abs 16777218)
  ∧ (∀ (K_sigmoid : Z → Q) (phase : learning_phase),
       Tea.call K_sigmoid phase x self
       = (Ok (Tea.activation K_sigmoid phase (Tensor [1; 1]%nat [16777220])),
          self)).
Proof.
  intros c b x w self.
  split; [reflexivity|]. split; [repeat constructor; by right|].
  split; [reflexivity|]. split; [reflexivity|]. split; [lia|].
  intros K_sigmoid phase.
  by apply (call_potential K_sigmoid phase x c b w).
Qed.

(** C10, amended.  With static weights from the alternating-sign rule, every
    cell of the effective weights (effective connections times static
    weights) is -1, 0 or +1, whatever the connection parameters.  Hence, for
    an input the layer accepts whose quantized cells are 0 or 1 and whose
    trailing dimension is [n], the potential of a neuron whose rounded leak
    [leak] has [n + |leak| <= 2^24] (so that float32 adds exactly) is an
    integer between [-n - |leak|] and [n + |leak|]; these potentials are the
    ones [call] feeds to its activation. *)
Theorem potential_bounded (n u : nat) (c : tensor Q) (w : tensor Z) :
  shape c = [n; u] →
  tea_weight_initializer (Z.of_nat n, Z.of_nat u) = Ok w →
  (∃ ew, Tea.effective_weights c w = Ok ew
       ∧ Forall (λ v, v = -1 ∨ v = 0 ∨ v = 1) (data ew))
  ∧ ∀ (x b : tensor Q) (lead : list nat),
      shape x = lead ++ [n] → lead ≠ [] →
      (length lead = 1%nat ∨ n ≠ 0%nat) →
      shape b = [u] →
      Forall (λ q, round_half_even q = 0 ∨ round_half_even q = 1) (data x) →
      ∃ p, Tea.potential x c w b = Ok p
         ∧ shape p = lead ++ [u]
         ∧ length (data p) = (numel lead * u)%nat
         ∧ (∀ (idx : nat) (pv : Z),
              data p !! idx = Some pv →
              let leak := round_half_even (at_index 0%Q (data b) (idx mod u)%nat) in
              Z.of_nat n + Z.abs leak ≤ 2 ^ 24 →
              - Z.of_nat n - Z.abs leak ≤ pv ≤ Z.of_nat n + Z.abs leak)
         ∧ (∀ (K_sigmoid : Z → Q) (phase : learning_phase) (self : Tea.layer),
              Tea.connections self = Some c →
              Tea.static_weights self = Some w →
              Tea.biases self = Some b →
              Tea.call K_sigmoid phase x self
              = (Ok (Tea.activation K_sigmoid phase p), self)).
Proof.
  intros Hc Hw. rewrite tea_weight_initializer_closed in Hw.
  injection Hw as <-.
  destruct (effective_weights_ternary n u c Hc) as (ew & Hew & _ & Hdata & Hcells).
  split; [by exists ew|].
  intros x b lead Hx Hlead Hn Hb Hquant.
  destruct (potential_shaped x c b (alternating_weights n u) n u lead)
    as [_ Hp]; try done.
  rewrite zip_with_mul_float32 in Hp
    by (apply effective_connection_cells || apply alternating_weights_signs).
  eexists. split; [exact Hp|]. split; [done|]. split.
  { cbn [data]. by rewrite length_fmap, length_seq. }
  split.
  - intros idx pv Hpv leak Hsmall. cbn [data] in Hpv.
    apply list_lookup_fmap_Some in Hpv as (i & -> & Hi).
    apply lookup_seq in Hi as [-> _]. fold leak.
    rewrite Hdata in Hcells.
    pose proof (dot_cell_bounded (tf_round x)
                  (Tensor [n; u] (zip_with Z.mul (data (Tea.constrain_connections c))
                                    (data (alternating_weights n u)))) n u idx
                  (proj2 (Forall_fmap _ _ _) Hquant) Hcells ltac:(lia)) as Hdot.
    change (0 + idx)%nat with idx in *.
    rewrite float32_exact by lia. lia.
  - intros K_sigmoid phase self Hsc Hsw Hsb.
    by apply (call_potential K_sigmoid phase x c b (alternating_weights n u)).
Qed.

Lemma potential_bounded_witness :
  let c := Tensor [3; 2]%nat [1 # 2; 3 # 2; 7 # 10; -1 # 1; 2 # 1; 1 # 1]%Q in
  let w := Tensor [3; 2]%nat [1; 1; -1; -1; 1; 1] in
  let x := Tensor [2; 3]%nat [1 # 1; 1 # 1; 1 # 1; 0 # 1; 1 # 1; 0 # 1]%Q in
  let b := Tensor [2]%nat [0 # 1; -4 # 10]%Q in
  ∃ p, Tea.potential x c w b = Ok p
     ∧ shape p = [2%nat] ++ [2%nat]
     ∧ length (data p) = (numel [2%nat] * 2)%nat
     ∧ (∀ (idx : nat) (pv : Z),
          data p !! idx = Some pv →
          let leak := round_half_even (at_index 0%Q (data b) (idx mod 2)%nat) in
          Z.of_nat 3 + Z.abs leak ≤ 2 ^ 24 →
          - Z.of_nat 3 - Z.abs leak ≤ pv ≤ Z.of_nat 3 + Z.abs leak)
     ∧ (∀ (K_sigmoid : Z → Q) (phase : learning_phase) (self : Tea.layer),
          Tea.connections self = Some c →
          Tea.static_weights self = Some w →
          Tea.biases self = Some b →
          Tea.call K_sigmoid phase x self
          = (Ok (Tea.activation K_sigmoid phase p), self)).
Proof.
  intros c w x b.
  apply (proj2 (potential_bounded 3 2 c w eq_refl eq_refl) x b [2%nat]).
  - reflexivity.
  - discriminate.
  - left. reflexivity.
  - reflexivity.
  - repeat constructor; first [by left | by right].
Defined.

(** The inference half of the activation: whatever the layer and the input,
    a forward pass in the test phase that returns a tensor returns spikes. *)
Lemma call_inference_binary (K_sigmoid : Z → Q) (x out : tensor Q)
    (self self' : Tea.layer) :
  Tea.call K_sigmoid Inference x self = (Ok out, self') →
  Forall (λ v, v = 0%Q ∨ v = 1%Q) (data out).
Proof.
  unfold Tea.call. py_unfold.
  destruct (Tea.connections self) as [c|]; [|done].
  destruct (Tea.static_weights self) as [w|]; [|done].
  destruct (tensor_mul _ w) as [wc|]; [|done].
  destruct (K_dot _ wc) as [o|]; [|done].
  destruct (Tea.biases self) as [b|]; [|done].
  destruct (K_bias_add o _) as [p|]; [|done].
  intros [= <- _]. simpl. apply Forall_fmap, Forall_forall. intros z _. simpl.
  unfold spike, cast_float32. destruct (greater_equal z 0); auto.
Qed.

(** The training half: the outputs are values of the backend's logistic
    function. *)
Lemma call_train_range (K_sigmoid : Z → Q) (x out : tensor Q)
    (self self' : Tea.layer) :
  (∀ p : Z, 0 <= K_sigmoid p <= 1)%Q →
  Tea.call K_sigmoid Train x self = (Ok out, self') →
  Forall (λ v, 0 <= v <= 1)%Q (data out).
Proof.
  intros HK. unfold Tea.call. py_unfold.
  destruct (Tea.connections self) as [c|]; [|done].
  destruct (Tea.static_weights self) as [w|]; [|done].
  destruct (tensor_mul _ w) as [wc|]; [|done].
  destruct (K_dot _ wc) as [o|]; [|done].
  destruct (Tea.biases self) as [b|]; [|done].
  destruct (K_bias_add o _) as [p|]; [|done].
  intros [= <- _]. simpl. apply Forall_fmap, Forall_forall. intros z _. apply HK.
Qed.

(** C2 fails as stated: in training mode the output reaches 1.  On float32
    the logistic function is exactly 1.0 at a potential of 64 (the distance
    of the exact value to 1 is far below half the spacing 2^-24 of the
    float32 numbers under 1); for every backend logistic with that value, a
    neuron with leak 64 and a zero input outputs exactly 1, which is not
    strictly less than 1. *)
Lemma training_output_reaches_one :
  ∃ (x : tensor Q) (self : Tea.layer),
    x = Tensor [1; 1]%nat [0 # 1]%Q
    ∧ self = Tea.Layer 1 true (Some (alternating_weights 1 1))
               (Some (Tensor [1; 1]%nat [1 # 1]%Q))
               (Some (Tensor [1%nat] [64 # 1]%Q))
    ∧ ∀ K_sigmoid : Z → Q,
        K_sigmoid 64 = 1%Q →
        Tea.call K_sigmoid Train x self = (Ok (Tensor [1; 1]%nat [1%Q]), self)
        ∧ ¬ Forall (λ v, 0 < v ∧ v < 1)%Q [1%Q].
Proof.
  set (self := Tea.Layer 1 true (Some (alternating_weights 1 1))
                 (Some (Tensor [1; 1]%nat [1 # 1]%Q))
                 (Some (Tensor [1%nat] [64 # 1]%Q))).
  exists (Tensor [1; 1]%nat [0 # 1]%Q), self.
  split; [reflexivity|]. split; [reflexivity|].
  intros K_sigmoid HK. split.
  - rewrite (call_potential K_sigmoid Train (Tensor [1; 1]%nat [0 # 1]%Q)
               (Tensor [1; 1]%nat [1 # 1]%Q)
               (Tensor [1%nat] [64 # 1]%Q) (alternating_weights 1 1)
               (Tensor [1; 1]%nat [64]) self eq_refl eq_refl eq_refl eq_refl).
    unfold Tea.activation, tensor_map.
    cbn [K_in_train_phase shape data fmap list_fmap].
    by rewrite HK.
  - intros H. apply Forall_cons in H as [[_ H] _]. by apply Qlt_irrefl in H.
Qed.

(** C2, amended.  For every input and every parameter state, each element
    of the output of [call] is exactly 0.0 or 1.0 in inference mode, and lies
    in the closed range from 0 to 1 in training mode, for a backend logistic
    function with values in that range.  On a built layer, [call] returns such
    an output for every input the layer accepts. *)
Theorem forward_output_range (K_sigmoid : Z → Q) :
  (∀ p : Z, 0 <= K_sigmoid p <= 1)%Q →
  (∀ (x out : tensor Q) (self self' : Tea.layer),
     Tea.call K_sigmoid Inference x self = (Ok out, self') →
     Forall (λ v, v = 0%Q ∨ v = 1%Q) (data out))
  ∧ (∀ (x out : tensor Q) (self self' : Tea.layer),
       Tea.call K_sigmoid Train x self = (Ok out, self') →
       Forall (λ v, 0 <= v <= 1)%Q (data out))
  ∧ (∀ (phase : learning_phase) (n : nat) (self : Tea.layer) (x : tensor Q)
       (lead : list nat),
       Tea.built n self →
       shape x = lead ++ [n] → lead ≠ [] →
       (length lead = 1%nat ∨ n ≠ 0%nat) →
       ∃ out, Tea.call K_sigmoid phase x self = (Ok out, self)
            ∧ length (data out) = (numel lead * Z.to_nat (Tea.units self))%nat).
Proof.
  intros HK. split; [|split].
  - intros x out self self'. apply call_inference_binary.
  - intros x out self self'. by apply call_train_range.
  - intros phase n self x lead Hbuilt Hx Hlead Hn.
    destruct (built_potential n self x lead Hbuilt Hx Hlead Hn)
      as (c & b & Hc & _ & Hb & _ & Hw & Hp).
    eexists. split; [exact (call_potential K_sigmoid phase x c b _ _ self Hc Hw Hb Hp)|].
    destruct phase; cbn [Tea.activation K_in_train_phase tensor_map data];
      by rewrite !length_fmap, length_seq.
Qed.

Lemma forward_output_range_witness :
  let K_sigmoid := λ p : Z, if 0 <=? p then 1%Q else 0%Q in
  let self := Tea.Layer 2 true (Some (alternating_weights 3 2))
                (Some (Tensor [3; 2]%nat [1 # 2; 3 # 2; 7 # 10; -1 # 1; 2 # 1; 1 # 1]%Q))
                (Some (Tensor [2]%nat [0 # 1; -4 # 10]%Q)) in
  let x := Tensor [2; 3]%nat [1 # 1; 1 # 1; 1 # 1; 0 # 1; 1 # 1; 0 # 1]%Q in
  let out := Tensor [2; 2]%nat [1; 1; 0; 1]%Q in
  (∀ p : Z, 0 <= K_sigmoid p <= 1)%Q
  ∧ Tea.call K_sigmoid Train x self = (Ok out, self)
  ∧ Forall (λ v, 0 <= v <= 1)%Q (data out).
Proof.
  intros K_sigmoid self x out.
  assert (∀ p : Z, 0 <= K_sigmoid p <= 1)%Q as HK.
  { intros p. unfold K_sigmoid. destruct (0 <=? p); split; discriminate. }
  split; [exact HK|]. split; [reflexivity|].
  apply (proj1 (proj2 (forward_output_range K_sigmoid HK)) x out self self).
  reflexivity.
Defined.

(** ** Construction, shape inference and [build] *)

(** C7 fails as stated: both constructors accept a count of 0 (and any other
    integer), so "construction fails for every count that is not positive"
    does not hold for either layer. *)
Lemma construct_accepts_nonpositive :
  Tea.__init__ 0 = Ok (Tea.Layer 0 true None None None)
  ∧ ¬ (∀ units : Z, units ≤ 0 → is_ok (Tea.__init__ units) = false)
  ∧ AdditivePooling.__init__ (-3) = Ok (AdditivePooling.Layer (-3) None)
  ∧ ¬ (∀ num_classes : Z,
         num_classes ≤ 0 → is_ok (AdditivePooling.__init__ num_classes) = false).
Proof.
  split; [done|split; [|split; [done|]]].
  - intros H. by specialize (H 0 ltac:(lia)).
  - intros H. by specialize (H (-3) ltac:(lia)).
Qed.

(** C7, amended.  Construction validates nothing: [Tea(units)] succeeds for
    every integer [units] and records it, with no parameter allocated yet;
    [AdditivePooling(num_classes)] succeeds for every integer [num_classes]
    and records it, with [num_inputs] still [None]. *)
Theorem construct_records_count :
  (∀ units : Z,
     ∃ self, Tea.__init__ units = Ok self
           ∧ Tea.units self = units
           ∧ Tea.static_weights self = None
           ∧ Tea.connections self = None
           ∧ Tea.biases self = None)
  ∧ (∀ num_classes : Z,
       ∃ self, AdditivePooling.__init__ num_classes = Ok self
             ∧ AdditivePooling.num_classes self = num_classes
             ∧ AdditivePooling.num_inputs self = None).
Proof. split; intros k; eexists; by repeat split. Qed.

(** Where a bad count is caught later: a negative [units] makes [Tea.build]
    raise, and [num_classes = 0] makes [AdditivePooling.build] raise. *)
Lemma build_rejects_negative_units (truncated_normal : nat → Q)
    (input_shape : keras_shape) (self : Tea.layer) :
  Tea.units self < 0 →
  is_ok (Tea.build truncated_normal input_shape self).1 = false.
Proof.
  intros Hu. unfold Tea.build. py_unfold.
  destruct (2 <=? length input_shape)%nat; [|done].
  destruct (shape_last input_shape) as [[n|]|]; try done.
  simpl. unfold tea_weight_initializer. simpl.
  replace (Tea.units self <? 0) with true by (symmetry; apply Z.ltb_lt; lia).
  by rewrite orb_true_r.
Qed.

Lemma build_rejects_zero_classes (input_shape : keras_shape)
    (self : AdditivePooling.layer) :
  AdditivePooling.num_classes self = 0 →
  is_ok (AdditivePooling.build input_shape self).1 = false.
Proof.
  intros Hnc. unfold AdditivePooling.build. py_unfold.
  destruct (2 <=? length input_shape)%nat; [|done].
  destruct (shape_last input_shape) as [[n|]|]; try done.
  simpl. by rewrite Hnc.
Qed.

(** C8 fails as stated for a class count of 0: 0 divides 0, and still
    [build] raises on a trailing dimension of 0, because [0 % 0] raises. *)
Lemma build_zero_classes_raises :
  (0 | 0)
  ∧ (2 ≤ length [None; Some 0])%nat
  ∧ AdditivePooling.build [None; Some 0] (AdditivePooling.Layer 0 None)
    = (Raise ZeroDivisionError, AdditivePooling.Layer 0 None).
Proof. split; [by exists 0|]. split; [simpl; lia|reflexivity]. Qed.

(** C8, amended.  [AdditivePooling.build] raises, leaving the layer as it
    was, whenever the trailing dimension is unknown, the class count is 0, or
    the trailing dimension is not a multiple of [num_classes]; for a class
    count other than 0 it succeeds on every shape of at least two dimensions
    whose trailing dimension [a] is a multiple of [num_classes], and it
    records [a], from which [call] derives [a / num_classes] neurons per
    class (the quotient goes through a float64, which holds every integer up
    to 2^53 in magnitude). *)
Theorem build_divisibility (self : AdditivePooling.layer)
    (input_shape : keras_shape) :
  let nc := AdditivePooling.num_classes self in
  (last input_shape = Some None →
     ∃ e, AdditivePooling.build input_shape self = (Raise e, self))
  ∧ (∀ a : Z,
       last input_shape = Some (Some a) → nc = 0 ∨ ¬ (nc | a) →
       ∃ e, AdditivePooling.build input_shape self = (Raise e, self))
  ∧ (∀ a : Z,
       (2 ≤ length input_shape)%nat →
       last input_shape = Some (Some a) →
       nc ≠ 0 → (nc | a) →
       AdditivePooling.build input_shape self
       = (Ok tt, AdditivePooling.Layer nc (Some a))
       ∧ (Z.abs a ≤ 2 ^ 53 →
          ∃ neurons_per_class,
            py_int_truediv (Some a) nc = Ok neurons_per_class
            ∧ neurons_per_class * nc = a)).
Proof.
  intros nc. unfold AdditivePooling.build. py_unfold.
  split; [|split].
  - intros Hlast. apply shape_last_Ok in Hlast. rewrite Hlast.
    destruct (2 <=? length input_shape)%nat; eauto.
  - intros a Hlast Hndiv. apply shape_last_Ok in Hlast. rewrite Hlast.
    destruct (2 <=? length input_shape)%nat; [|eauto].
    simpl. fold nc. destruct (nc =? 0) eqn:E; [eauto|].
    apply Z.eqb_neq in E.
    destruct (a mod nc =? 0) eqn:E'; [|eauto].
    apply Z.eqb_eq in E'. exfalso.
    destruct Hndiv as [Hnc|Hndiv]; [done|]. apply Hndiv.
    by apply Z.mod_divide.
  - intros a Hlen Hlast Hnc Hdiv. apply shape_last_Ok in Hlast. rewrite Hlast.
    replace (2 <=? length input_shape)%nat with true
      by (symmetry; apply Nat.leb_le; lia).
    simpl. fold nc.
    replace (nc =? 0) with false by (symmetry; by apply Z.eqb_neq).
    apply Z.mod_divide in Hdiv; [|done]. rewrite Hdiv. simpl.
    split; [done|]. intros _.
    exists (a ÷ nc). split; [done|].
    apply Z.mod_divide in Hdiv as [k ->]; [|done].
    rewrite Z.quot_mul; lia.
Qed.

Lemma build_divisibility_witness :
  AdditivePooling.build [None; Some 250] (AdditivePooling.Layer 10 None)
  = (Ok tt, AdditivePooling.Layer 10 (Some 250))
  ∧ (Z.abs 250 ≤ 2 ^ 53 →
     ∃ neurons_per_class,
       py_int_truediv (Some 250) 10 = Ok neurons_per_class
       ∧ neurons_per_class * 10 = 250).
Proof.
  apply (proj2 (proj2 (build_divisibility (AdditivePooling.Layer 10 None)
                         [None; Some 250])) 250).
  - simpl. lia.
  - reflexivity.
  - simpl. lia.
  - exists 25. reflexivity.
Defined.

(** C6 fails as stated for the pooling layer.  The shape [(2, 4, 10)] is
    accepted with 5 classes, and its output shape is [(2, 5)]: the tick
    dimension is gone, so more than the trailing dimension changed.  On the
    accepted rank-4 shape [(2, 4, 6, 10)] the output shape is [(2, 6, 5)],
    and applying the function to that gives [(2, 5)], another shape. *)
Lemma pooling_output_shape_drops_ticks :
  let self := AdditivePooling.Layer 5 None in
  let built := AdditivePooling.Layer 5 (Some 10) in
  AdditivePooling.build [Some 2; Some 4; Some 10] self = (Ok tt, built)
  ∧ AdditivePooling.compute_output_shape [Some 2; Some 4; Some 10] built
    = (Ok [Some 2; Some 5], built)
  ∧ [Some 2; Some 5] ≠ set_last [Some 2; Some 4; Some 10] (Some 5)
  ∧ AdditivePooling.build [Some 2; Some 4; Some 6; Some 10] self = (Ok tt, built)
  ∧ AdditivePooling.compute_output_shape [Some 2; Some 4; Some 6; Some 10] built
    = (Ok [Some 2; Some 6; Some 5], built)
  ∧ AdditivePooling.compute_output_shape [Some 2; Some 6; Some 5] built
    = (Ok [Some 2; Some 5], built)
  ∧ [Some 2; Some 5] ≠ [Some 2; Some 6; Some 5].
Proof. by repeat split. Qed.

Lemma length_snoc {A} (l : list A) (x : A) : length (l ++ [x]) = S (length l).
Proof. rewrite length_app. simpl. lia. Qed.

Lemma tea_output_shape_snoc (self : Tea.layer) (lead : keras_shape) (d : dim) :
  (1 ≤ length lead)%nat → dim_truthy d = true →
  Tea.compute_output_shape (lead ++ [d]) self
  = (Ok (lead ++ [Some (Tea.units self)]), self).
Proof.
  intros Hlen Hd. unfold Tea.compute_output_shape. py_unfold.
  rewrite bool_decide_eq_false_2 by (by destruct lead).
  rewrite length_snoc.
  destruct lead as [|b lead]; [simpl in Hlen; lia|].
  cbn [length negb andb Nat.leb].
  unfold shape_last. rewrite last_snoc, Hd. unfold py_ret. cbv beta iota.
  by rewrite set_last_snoc.
Qed.

Lemma tea_output_shape_inv (self self' : Tea.layer) (s s' : keras_shape) :
  Tea.compute_output_shape s self = (Ok s', self') →
  self' = self
  ∧ ∃ lead d, s = lead ++ [d] ∧ (1 ≤ length lead)%nat ∧ dim_truthy d = true
            ∧ s' = lead ++ [Some (Tea.units self)].
Proof.
  unfold Tea.compute_output_shape. py_unfold.
  destruct (negb (bool_decide (s = []))); [|done]. cbn [andb].
  destruct (Nat.leb_spec 2 (length s)) as [Hlen|Hlen]; [|done].
  destruct (shape_last s) as [d|] eqn:Hlast; [|done].
  apply shape_last_Ok, last_Some in Hlast as [lead ->].
  destruct (dim_truthy d) eqn:Hd; [|done].
  intros [= <- <-]. split; [done|]. exists lead, d.
  rewrite length_snoc in Hlen. rewrite set_last_snoc.
  repeat split; [lia|done].
Qed.

Lemma pool_output_shape_snoc (self : AdditivePooling.layer) (lead : keras_shape)
    (d : dim) :
  AdditivePooling.compute_output_shape (lead ++ [d]) self
  = (Ok ((if (3 <=? length (lead ++ [d]))%nat then delete 1%nat lead else lead)
         ++ [Some (AdditivePooling.num_classes self)]), self).
Proof.
  unfold AdditivePooling.compute_output_shape. py_unfold.
  rewrite bool_decide_eq_false_2 by (by destruct lead).
  rewrite set_last_snoc, !length_snoc.
  by destruct lead as [|b [|t lead]].
Qed.

(** C6, amended.  [Tea.compute_output_shape] changes the trailing dimension
    only, to [units], and maps its result to itself when [units] is not 0.
    [AdditivePooling.compute_output_shape] sets the trailing dimension to
    [num_classes] and, on a shape of three or more dimensions, also deletes
    dimension 1; it maps its result to itself when the input shape has at
    most three dimensions.  Neither method changes the layer. *)
Theorem compute_output_shape_trailing :
  (∀ (self self' : Tea.layer) (s s' : keras_shape),
     Tea.compute_output_shape s self = (Ok s', self') →
     self' = self
     ∧ ∃ lead d,
         s = lead ++ [d]
         ∧ s' = lead ++ [Some (Tea.units self)]
         ∧ (Tea.units self ≠ 0 →
            Tea.compute_output_shape s' self = (Ok s', self)))
  ∧ (∀ (self self' : AdditivePooling.layer) (s s' : keras_shape),
       AdditivePooling.compute_output_shape s self = (Ok s', self') →
       self' = self
       ∧ ∃ lead d,
           s = lead ++ [d]
           ∧ s' = (if (3 <=? length s)%nat then delete 1%nat lead else lead)
                  ++ [Some (AdditivePooling.num_classes self)]
           ∧ ((length s ≤ 3)%nat →
              AdditivePooling.compute_output_shape s' self = (Ok s', self))).
Proof.
  split.
  - intros self self' s s' H.
    apply tea_output_shape_inv in H as (-> & lead & d & -> & Hlen & Hd & ->).
    split; [done|]. exists lead, d. split; [done|split; [done|]].
    intros Hu. apply tea_output_shape_snoc; [done|].
    simpl. by apply negb_true_iff, Z.eqb_neq.
  - intros self self' s s' H.
    destruct (last s) as [d|] eqn:Hlast.
    2:{ apply last_None in Hlast as ->. by compute in H. }
    apply last_Some in Hlast as [lead ->].
    rewrite pool_output_shape_snoc in H. injection H as <- <-.
    split; [done|]. exists lead, d. split; [done|split; [done|]].
    intros Hrank. rewrite length_snoc in *.
    rewrite pool_output_shape_snoc. do 2 f_equal.
    destruct lead as [|b [|t [|u lead]]]; simpl in *; [done..|lia].
Qed.

Lemma compute_output_shape_trailing_witness :
  let self := Tea.Layer 64 true None None None in
  Tea.compute_output_shape [None; Some 256] self = (Ok [None; Some 64], self)
  ∧ ∃ lead d,
      [None; Some 256] = lead ++ [d]
      ∧ [None; Some 64] = lead ++ [Some (Tea.units self)]
      ∧ (Tea.units self ≠ 0 →
         Tea.compute_output_shape [None; Some 64] self
         = (Ok [None; Some 64], self)).
Proof.
  intros self. split; [reflexivity|].
  apply (proj1 compute_output_shape_trailing self self
           [None; Some 256] [None; Some 64]).
  reflexivity.
Defined.

(** ** The pooling layer *)

Section Pooling.
Local Open Scope nat_scope.

(** Within the [k]-th block of [nc] consecutive neurons, exactly one
    belongs to class [c]. *)
Lemma filter_block (k nc c m s : nat) :
  s + m ≤ nc →
  filter (λ i, i mod nc = c) (seq (k * nc + s) m)
  = if decide (s ≤ c < s + m) then [k * nc + c] else [].
Proof.
  revert s. induction m as [|m IH]; intros s Hs.
  - simpl. by rewrite decide_False by lia.
  - cbn [seq]. rewrite filter_cons, mod_block by lia.
    replace (S (k * nc + s)) with (k * nc + S s) by lia.
    rewrite IH by lia.
    repeat case_decide; try lia; by subst.
Qed.

Lemma class_members_stride (npc nc c : nat) :
  c < nc →
  AdditivePooling.class_members (npc * nc) nc c
  = (λ j, j * nc + c) <$> seq 0 npc.
Proof.
  intros Hc. unfold AdditivePooling.class_members.
  induction npc as [|npc IH]; [done|].
  replace (S npc * nc) with (npc * nc + nc) by lia.
  rewrite seq_app, filter_app, IH, seq_S, fmap_app. f_equal.
  pose proof (filter_block npc nc c nc 0 ltac:(lia)) as Hblock.
  rewrite Nat.add_0_r, decide_True in Hblock by lia.
  cbn [Nat.add fmap list_fmap]. by rewrite Hblock.
Qed.


Lemma reduce_sum_axis1_shaped (x : tensor Q) (b t : nat) (rest : list nat) :
  shape x = b :: t :: rest →
  reduce_sum_axis1 x
  = Ok (Tensor (b :: rest)
          (sum_axis1_cell x t (numel rest) <$> seq 0 (b * numel rest))).
Proof. intros Hx. unfold reduce_sum_axis1. by rewrite Hx. Qed.


(** The part of [call] after the ticks are summed, on a [(b, n)] tensor. *)
Lemma call_rank2 (self : AdditivePooling.layer) (x : tensor Q) (b npc nc : nat) :
  0 < npc → 0 < nc →
  AdditivePooling.num_classes self = Z.of_nat nc →
  AdditivePooling.num_inputs self = Some (Z.of_nat (npc * nc)) →
  shape x = [b; npc * nc] →
  tensor_wf x →
  AdditivePooling.call x self
  = (Ok (Tensor [b; nc]
           ((λ idx, AdditivePooling.class_sum x (npc * nc) nc (idx / nc) (idx mod nc))
              <$> seq 0 (b * nc))), self).
Proof.
  intros Hnpc Hnc Hcls Hin Hx Hwf.
  unfold tensor_wf in Hwf. rewrite Hx in Hwf. simpl in Hwf.
  unfold AdditivePooling.call. py_unfold. rewrite Hx.
  cbn [length Nat.leb]. cbv beta iota. rewrite Hin, Hcls.
  unfold py_int_truediv.
  replace (Z.of_nat nc =? 0)%Z with false by (symmetry; apply Z.eqb_neq; lia).
  rewrite Nat2Z.inj_mul, Z.quot_mul by lia.
  unfold tf_reshape.
  replace (Z.of_nat npc <? -1)%Z with false by (symmetry; apply Z.ltb_ge; lia).
  replace (Z.of_nat nc <? -1)%Z with false by (symmetry; apply Z.ltb_ge; lia).
  replace (Z.of_nat npc =? -1)%Z with false by (symmetry; apply Z.eqb_neq; lia).
  replace (Z.of_nat nc =? -1)%Z with false by (symmetry; apply Z.eqb_neq; lia).
  cbn [orb]. rewrite !Nat2Z.id.
  rewrite decide_False by nia.
  rewrite Hwf, Nat.mul_1_r.
  rewrite decide_True by apply Nat.Div0.mod_mul.
  rewrite Nat.div_mul by nia.
  rewrite (reduce_sum_axis1_shaped _ b npc [nc]) by done.
  cbn [numel foldr data]. rewrite Nat.mul_1_r.
  do 3 f_equal. apply list_fmap_ext. intros _ idx _.
  unfold sum_axis1_cell, AdditivePooling.class_sum, AdditivePooling.class_cells.
  rewrite class_members_stride by (apply Nat.mod_upper_bound; lia).
  rewrite <-list_fmap_compose. f_equal.
  apply list_fmap_ext. intros _ j _. simpl. f_equal. lia.
Qed.
End Pooling.



(** * Further properties of the layers *)

(** ** [Tea.build] *)

Lemma tea_weight_initializer_raises (a b : Z) :
  a < 0 ∨ b < 0 → tea_weight_initializer (a, b) = Raise ValueError.
Proof.
  intros H. unfold tea_weight_initializer. cbn [fst snd].
  assert ((a <? 0) || (b <? 0) = true) as ->; [|done].
  apply orb_true_iff. destruct H; [left|right]; by apply Z.ltb_lt.
Qed.

Lemma tea_weight_initializer_nonneg (a b : Z) :
  0 ≤ a → 0 ≤ b →
  tea_weight_initializer (a, b) = Ok (alternating_weights (Z.to_nat a) (Z.to_nat b)).
Proof.
  intros Ha Hb. rewrite <-(Z2Nat.id a) at 1 by done.
  rewrite <-(Z2Nat.id b) at 1 by done. apply tea_weight_initializer_closed.
Qed.

(** X1.  On an input shape of at least two dimensions whose trailing
    dimension [n] is known and not negative, and for a unit count that is not
    negative, [Tea.build] succeeds and leaves exactly this layer: the unit
    count kept, the static weights alternating by row, the connections the
    drawn values in drawing order with the shape of the static weights, and
    all biases zero.  Whatever parameters the layer held before are replaced. *)
Theorem build_initializes_layer (truncated_normal : nat → Q)
    (input_shape : keras_shape) (self : Tea.layer) (n : Z) :
  (2 ≤ length input_shape)%nat →
  last input_shape = Some (Some n) →
  0 ≤ n → 0 ≤ Tea.units self →
  let a := Z.to_nat n in
  let u := Z.to_nat (Tea.units self) in
  Tea.build truncated_normal input_shape self
  = (Ok tt,
     Tea.Layer (Tea.units self) (Tea.uses_learning_phase self)
       (Some (alternating_weights a u))
       (Some (Tensor [a; u] (truncated_normal <$> seq 0 (a * u))))
       (Some (Tensor [u] (replicate u 0%Q))))
  ∧ tensor_wf (alternating_weights a u)
  ∧ (∀ i j : nat, (i < a)%nat → (j < u)%nat →
       data (alternating_weights a u) !! (i * u + j)%nat
       = Some (if Nat.even i then 1 else -1)).
Proof.
  intros Hlen Hlast Hn Hu a u. split; [|split].
  - unfold Tea.build. py_unfold.
    replace (2 <=? length input_shape)%nat with true
      by (symmetry; apply Nat.leb_le; lia).
    apply shape_last_Ok in Hlast. rewrite Hlast. cbn [dim_int]. cbv beta iota.
    rewrite tea_weight_initializer_nonneg by done. cbv beta iota.
    unfold Tea.set_biases, Tea.set_connections, Tea.set_static_weights.
    cbn [Tea.units Tea.uses_learning_phase Tea.static_weights Tea.connections
         Tea.biases numel foldr].
    fold a u. by rewrite Nat.mul_1_r.
  - apply alternating_weights_wf.
  - intros i j Hi Hj. by apply alternating_weights_lookup.
Qed.

Lemma build_initializes_layer_witness :
  Tea.build (λ k, if Nat.even k then 3 # 4 else 1 # 4)%Q [None; Some 3]
            (Tea.Layer 2 true None None None)
  = (Ok tt,
     Tea.Layer 2 true
       (Some (alternating_weights 3 2))
       (Some (Tensor [3; 2]%nat
                ((λ k, if Nat.even k then 3 # 4 else 1 # 4)%Q <$> seq 0 (3 * 2))))
       (Some (Tensor [2%nat] (replicate 2 0%Q))))
  ∧ tensor_wf (alternating_weights 3 2)
  ∧ (∀ i j : nat, (i < 3)%nat → (j < 2)%nat →
       data (alternating_weights 3 2) !! (i * 2 + j)%nat
       = Some (if Nat.even i then 1 else -1)).
Proof.
  apply (build_initializes_layer _ [None; Some 3] (Tea.Layer 2 true None None None) 3);
    simpl; try reflexivity; lia.
Defined.

(** X2.  When [Tea.build] raises, the layer is left as it was (no parameter
    is assigned), and the exception tells the cause: [AssertionError] for a
    shape of fewer than two dimensions, [TypeError] for an unknown trailing
    dimension, [ValueError] for a negative trailing dimension or a negative
    unit count. *)
Theorem build_failure_leaves_layer (truncated_normal : nat → Q)
    (input_shape : keras_shape) (self self' : Tea.layer) (e : exn) :
  Tea.build truncated_normal input_shape self = (Raise e, self') →
  self' = self
  ∧ ((e = AssertionError ∧ (length input_shape < 2)%nat)
     ∨ (e = TypeError ∧ (2 ≤ length input_shape)%nat
        ∧ last input_shape = Some None)
     ∨ (e = ValueError ∧ (2 ≤ length input_shape)%nat
        ∧ ∃ n, last input_shape = Some (Some n) ∧ (n < 0 ∨ Tea.units self < 0))).
Proof.
  unfold Tea.build. py_unfold.
  destruct (Nat.leb_spec 2 (length input_shape)) as [Hlen|Hlen].
  2:{ intros [= <- <-]. split; [done|]. left. split; [done|lia]. }
  destruct (last input_shape) as [d|] eqn:Hlast.
  2:{ apply last_None in Hlast. subst. simpl in Hlen. lia. }
  apply shape_last_Ok in Hlast as Hlast'. rewrite Hlast'. cbv beta iota.
  destruct d as [n|]; cbn [dim_int]; cbv beta iota.
  2:{ intros [= <- <-]. split; [done|]. right. left. done. }
  destruct (Z_lt_le_dec n 0) as [Hn|Hn];
    [|destruct (Z_lt_le_dec (Tea.units self) 0) as [Hu|Hu]].
  - rewrite tea_weight_initializer_raises by auto.
    intros [= <- <-]. split; [done|]. right. right. eauto 10.
  - rewrite tea_weight_initializer_raises by auto.
    intros [= <- <-]. split; [done|]. right. right. eauto 10.
  - rewrite tea_weight_initializer_nonneg by done. done.
Qed.

Lemma build_failure_leaves_layer_witness :
  let self := Tea.Layer (-1) true None None None in
  self = self
  ∧ ((ValueError = AssertionError ∧ (length [None; Some 256] < 2)%nat)
     ∨ (ValueError = TypeError ∧ (2 ≤ length [None; Some 256])%nat
        ∧ last [None; Some 256] = Some None)
     ∨ (ValueError = ValueError ∧ (2 ≤ length [None; Some 256])%nat
        ∧ ∃ n, last [None; Some 256] = Some (Some n)
               ∧ (n < 0 ∨ Tea.units self < 0))).
Proof.
  intros self.
  apply (build_failure_leaves_layer (λ _, 1 # 2)%Q [None; Some 256] self self
           ValueError).
  reflexivity.
Defined.

(** ** [Tea.call] *)

Lemma numel_snoc (sh : list nat) (u : nat) : numel (sh ++ [u]) = (numel sh * u)%nat.
Proof.
  unfold numel. induction sh as [|d sh IH]; simpl; [lia|].
  rewrite IH. lia.
Qed.

Lemma lead_dims_snoc {A} (sh : list A) (d : A) : lead_dims (sh ++ [d]) = sh.
Proof.
  unfold lead_dims. rewrite length_snoc. simpl.
  by rewrite take_app_length.
Qed.

(** X3.  On a built layer, [call] succeeds in both phases on every input of
    at least two dimensions whose trailing dimension is the layer's number
    of inputs (not 0 when the input has more than two dimensions): the layer
    is unchanged, the output has the shape of the input with the trailing
    dimension replaced by [units] and holds one cell per position of that
    shape.  For a nonzero trailing dimension this is the shape
    [compute_output_shape] announces. *)
Theorem call_shape_matches_compute_output_shape (K_sigmoid : Z → Q)
    (phase : learning_phase) (n : nat) (self : Tea.layer) (x : tensor Q)
    (lead : list nat) :
  Tea.built n self →
  shape x = lead ++ [n] → lead ≠ [] →
  (length lead = 1%nat ∨ n ≠ 0%nat) →
  let u := Z.to_nat (Tea.units self) in
  ∃ out, Tea.call K_sigmoid phase x self = (Ok out, self)
       ∧ shape out = lead ++ [u]
       ∧ tensor_wf out
       ∧ (n ≠ 0%nat →
          Tea.compute_output_shape ((λ d, Some (Z.of_nat d)) <$> shape x) self
          = (Ok ((λ d, Some (Z.of_nat d)) <$> shape out), self)).
Proof.
  intros Hbuilt Hx Hlead Hrank u.
  destruct (built_potential n self x lead Hbuilt Hx Hlead Hrank)
    as (c & b & Hc & _ & Hb & _ & Hw & Hp).
  fold u in Hw, Hp.
  eexists. split; [exact (call_potential K_sigmoid phase x c b _ _ self Hc Hw Hb Hp)|].
  assert (∀ p : tensor Z, shape (Tea.activation K_sigmoid phase p) = shape p)
    as Hshape by (intros p; by destruct phase).
  split; [by rewrite Hshape|]. split.
  - unfold tensor_wf. destruct phase; simpl;
      by rewrite !length_fmap, length_seq, numel_snoc.
  - intros Hn. rewrite Hshape. cbn [shape].
    rewrite Hx, !fmap_app. cbn [fmap list_fmap].
    rewrite tea_output_shape_snoc.
    + unfold u. rewrite Z2Nat.id; [done|]. by destruct Hbuilt.
    + rewrite length_fmap. destruct lead; [done|simpl; lia].
    + simpl. apply negb_true_iff, Z.eqb_neq. lia.
Qed.

Lemma call_shape_matches_compute_output_shape_witness :
  let self := Tea.Layer 2 true (Some (alternating_weights 3 2))
                (Some (Tensor [3; 2]%nat [1 # 2; 3 # 2; 7 # 10; -1 # 1; 2 # 1; 1 # 1]%Q))
                (Some (Tensor [2]%nat [0 # 1; -4 # 10]%Q)) in
  let x := Tensor [2; 3]%nat [1 # 1; 1 # 1; 1 # 1; 0 # 1; 1 # 1; 0 # 1]%Q in
  ∃ out, Tea.call (λ _, 1 # 2)%Q Train x self = (Ok out, self)
       ∧ shape out = [2%nat] ++ [Z.to_nat (Tea.units self)]
       ∧ tensor_wf out
       ∧ (3%nat ≠ 0%nat →
          Tea.compute_output_shape ((λ d, Some (Z.of_nat d)) <$> shape x) self
          = (Ok ((λ d, Some (Z.of_nat d)) <$> shape out), self)).
Proof.
  intros self x.
  apply (call_shape_matches_compute_output_shape (λ _, 1 # 2)%Q Train 3 self x
           [2%nat]).
  - split; simpl; [lia|reflexivity| |].
    + eexists. split; [reflexivity|]. split; reflexivity.
    + eexists. split; [reflexivity|]. split; reflexivity.
  - reflexivity.
  - discriminate.
  - left. reflexivity.
Defined.

(** X4.  [call] raises, and leaves the layer as it was, on a layer that was
    never built ([AttributeError]: the connections do not exist yet), and on
    a built layer for an input of fewer than two dimensions or with a
    trailing dimension that is not the layer's number of inputs
    ([ValueError], from the matrix product). *)
Theorem call_failures (K_sigmoid : Z → Q) (phase : learning_phase)
    (x : tensor Q) :
  (∀ units : Z,
     ∃ self, Tea.__init__ units = Ok self
           ∧ Tea.call K_sigmoid phase x self = (Raise AttributeError, self))
  ∧ (∀ (n : nat) (self : Tea.layer),
       Tea.built n self →
       (length (shape x) < 2)%nat ∨ last (shape x) ≠ Some n →
       Tea.call K_sigmoid phase x self = (Raise ValueError, self)).
Proof.
  split.
  - intros units. eexists. split; [done|]. done.
  - intros n self [Hu Hw (c & Hc & Hcs & _) (b & Hb & Hbs & _)] Hx.
    unfold Tea.call. py_unfold. rewrite Hc, Hw.
    unfold tensor_mul. cbn [shape tensor_map K_clip tf_round alternating_weights].
    rewrite Hcs. destruct (decide (_ = _)) as [_|Hne]; [|by destruct Hne].
    unfold K_dot. cbn [shape tensor_map tf_round].
    destruct (Nat.ltb_spec (length (shape x)) 2) as [|Hrank]; [done|].
    destruct Hx as [Hx|Hx]; [lia|].
    by rewrite bool_decide_eq_false_2 by done.
Qed.

Lemma call_failures_witness :
  let self := Tea.Layer 2 true (Some (alternating_weights 3 2))
                (Some (Tensor [3; 2]%nat [1 # 2; 3 # 2; 7 # 10; -1 # 1; 2 # 1; 1 # 1]%Q))
                (Some (Tensor [2]%nat [0 # 1; -4 # 10]%Q)) in
  Tea.call (λ _, 1 # 2)%Q Inference (Tensor [1; 4]%nat [1; 0; 1; 0]%Q) self
  = (Raise ValueError, self).
Proof.
  intros self.
  apply (proj2 (call_failures (λ _, 1 # 2)%Q Inference
                  (Tensor [1; 4]%nat [1; 0; 1; 0]%Q)) 3%nat self).
  - split; simpl; [lia|reflexivity| |].
    + eexists. split; [reflexivity|]. split; reflexivity.
    + eexists. split; [reflexivity|]. split; reflexivity.
  - right. simpl. congruence.
Defined.

(** X5.  Whenever a forward pass in the test phase returns, every cell of
    its output is 0.0 or 1.0, whatever the parameters and the input, and the
    output has the shape of the potentials.  On a built layer it is the
    spike pattern of the potentials: wherever the magnitudes of the rounded
    inputs of row [r] and of the rounded leak of neuron [j] add up to at
    most 2^24 (float32 then adds without rounding, in any order), cell
    [(r, j)] is 1.0 when the signed count of the connected spikes plus the
    rounded leak is at least 0, and 0.0 when it is negative. *)
Theorem inference_output_is_spikes (K_sigmoid : Z → Q) (x out : tensor Q)
    (self self' : Tea.layer) :
  Tea.call K_sigmoid Inference x self = (Ok out, self') →
  Forall (λ v, v = 0%Q ∨ v = 1%Q) (data out)
  ∧ (∃ (c b : tensor Q) (w p : tensor Z),
       Tea.connections self = Some c
       ∧ Tea.static_weights self = Some w
       ∧ Tea.biases self = Some b
       ∧ Tea.potential x c w b = Ok p
       ∧ shape out = shape p
       ∧ length (data out) = length (data p))
  ∧ ∀ (n : nat) (lead : list nat) (c b : tensor Q),
      Tea.built n self →
      shape x = lead ++ [n] → lead ≠ [] →
      (length lead = 1%nat ∨ n ≠ 0%nat) →
      Tea.connections self = Some c →
      Tea.biases self = Some b →
      let u := Z.to_nat (Tea.units self) in
      ∀ r j : nat, (r < numel lead)%nat → (j < u)%nat →
        Zsum ((λ i, Z.abs (round_half_even
                             (at_index 0%Q (data x) (r * n + i)%nat)))
                <$> seq 0 n)
        + Z.abs (round_half_even (at_index 0%Q (data b) j)) ≤ 2 ^ 24 →
        data out !! (r * u + j)%nat
        = Some (if decide
                     (0 ≤ Zsum ((λ i, (if Nat.even i then 1 else -1)
                                      * (clip (round_half_even
                                                 (at_index 0%Q (data c)
                                                    (i * u + j)%nat)) 0 1
                                         * round_half_even
                                             (at_index 0%Q (data x)
                                                (r * n + i)%nat)))
                                  <$> seq 0 n)
                          + round_half_even (at_index 0%Q (data b) j))
                then 1%Q else 0%Q).
Proof.
  intros Hcall.
  split; [exact (call_inference_binary K_sigmoid x out self self' Hcall)|].
  split.
  - revert Hcall. unfold Tea.call. py_unfold.
    destruct (Tea.connections self) as [c|]; [|done].
    destruct (Tea.static_weights self) as [w|]; [|done].
    destruct (tensor_mul _ w) as [wc|] eqn:Hwc; [|done].
    destruct (K_dot _ wc) as [o|] eqn:Ho; [|done].
    destruct (Tea.biases self) as [b|]; [|done].
    destruct (K_bias_add o _) as [p|] eqn:Hp; [|done].
    intros [= <- _]. exists c, b, w, p.
    split; [done|]. split; [done|]. split; [done|]. split.
    { unfold Tea.potential, Tea.effective_weights, Tea.constrain_connections.
      py_unfold. by rewrite Hwc, Ho. }
    split; [done|apply length_fmap].
  - intros n lead c b Hbuilt Hx Hlead Hrank Hc Hb u r j Hr Hj Hsmall.
    destruct (built_potential n self x lead Hbuilt Hx Hlead Hrank)
      as (c' & b' & Hc' & _ & Hb' & _ & Hw & Hp).
    assert (c' = c) as -> by congruence.
    assert (b' = b) as -> by congruence.
    fold u in Hw, Hp.
    rewrite (call_potential K_sigmoid Inference x c b _ _ self Hc Hw Hb Hp)
      in Hcall.
    assert (out = Tea.activation K_sigmoid Inference
                    (Tensor (lead ++ [u])
                       ((λ idx, float32
                                  (dot_cell (tf_round x)
                                     (Tensor [n; u]
                                        (zip_with Z.mul
                                           (data (Tea.constrain_connections c))
                                           (data (alternating_weights n u))))
                                     n u idx
                                   + round_half_even
                                       (at_index 0%Q (data b) (idx mod u)%nat)))
                          <$> seq 0 (numel lead * u)))) as -> by congruence.
    cbn [Tea.activation K_in_train_phase tensor_map data].
    rewrite list_lookup_fmap, lookup_block by done. cbn [fmap option_fmap option_map].
    rewrite potential_cell_exact by done.
    f_equal. unfold spike, greater_equal, cast_float32.
    destruct (Z.leb_spec 0
                (Zsum ((λ i, (if Nat.even i then 1 else -1)
                             * (clip (round_half_even
                                        (at_index 0%Q (data c) (i * u + j)%nat)) 0 1
                                * round_half_even
                                    (at_index 0%Q (data x) (r * n + i)%nat)))
                         <$> seq 0 n)
                 + round_half_even (at_index 0%Q (data b) j)));
      [by rewrite decide_True|by rewrite decide_False by lia].
Qed.

Lemma inference_output_is_spikes_witness :
  let self := Tea.Layer 2 true (Some (alternating_weights 3 2))
                (Some (Tensor [3; 2]%nat [1 # 2; 3 # 2; 7 # 10; -1 # 1; 2 # 1; 1 # 1]%Q))
                (Some (Tensor [2]%nat [0 # 1; -4 # 10]%Q)) in
  let x := Tensor [2; 3]%nat [1 # 1; 1 # 1; 1 # 1; 0 # 1; 1 # 1; 0 # 1]%Q in
  let out := Tensor [2; 2]%nat [1; 1; 0; 1]%Q in
  Tea.call (λ _, 1 # 2)%Q Inference x self = (Ok out, self)
  ∧ Forall (λ v, v = 0%Q ∨ v = 1%Q) (data out).
Proof.
  intros self x out.
  split; [reflexivity|].
  apply (inference_output_is_spikes (λ _, 1 # 2)%Q x out self self).
  reflexivity.
Defined.

(** X6.  Even axons excite and odd axons inhibit.  On a built layer with [n]
    inputs, on an input it accepts, [call] returns the activation of the
    potentials, and the potential of neuron [j] for input row [r] is the sum
    over the axons [i < n] of [sign i * connected i j * spikes r i], plus the
    rounded leak of neuron [j], whenever the magnitudes of the rounded inputs
    of the row and of the leak add up to at most 2^24 (float32 then adds
    without rounding, in any order): [sign i] is +1 for even [i] and -1 for
    odd [i], [connected i j] is the 0/1 effective connection, and
    [spikes r i] is the rounded input. *)
Theorem potential_excites_and_inhibits (K_sigmoid : Z → Q)
    (phase : learning_phase) (n : nat) (self : Tea.layer)
    (x : tensor Q) (lead : list nat) :
  Tea.built n self →
  shape x = lead ++ [n] → lead ≠ [] →
  (length lead = 1%nat ∨ n ≠ 0%nat) →
  let u := Z.to_nat (Tea.units self) in
  ∃ (c b : tensor Q) (p : tensor Z),
    Tea.connections self = Some c
    ∧ Tea.biases self = Some b
    ∧ Tea.potential x c (alternating_weights n u) b = Ok p
    ∧ Tea.call K_sigmoid phase x self
      = (Ok (Tea.activation K_sigmoid phase p), self)
    ∧ ∀ r j : nat, (r < numel lead)%nat → (j < u)%nat →
        Zsum ((λ i, Z.abs (round_half_even
                             (at_index 0%Q (data x) (r * n + i)%nat)))
                <$> seq 0 n)
        + Z.abs (round_half_even (at_index 0%Q (data b) j)) ≤ 2 ^ 24 →
        data p !! (r * u + j)%nat
        = Some (Zsum ((λ i, (if Nat.even i then 1 else -1)
                            * (clip (round_half_even
                                       (at_index 0%Q (data c) (i * u + j)%nat)) 0 1
                               * round_half_even
                                   (at_index 0%Q (data x) (r * n + i)%nat)))
                        <$> seq 0 n)
                + round_half_even (at_index 0%Q (data b) j)).
Proof.
  intros Hbuilt Hx Hlead Hrank u.
  destruct (built_potential n self x lead Hbuilt Hx Hlead Hrank)
    as (c & b & Hc & _ & Hb & _ & Hw & Hp).
  fold u in Hw, Hp.
  exists c, b. eexists. split; [done|]. split; [done|]. split; [exact Hp|].
  split; [exact (call_potential K_sigmoid phase x c b _ _ self Hc Hw Hb Hp)|].
  intros r j Hr Hj Hsmall. cbn [data].
  rewrite lookup_block by done. f_equal.
  by apply potential_cell_exact.
Qed.

Lemma potential_excites_and_inhibits_witness :
  let self := Tea.Layer 2 true (Some (alternating_weights 3 2))
                (Some (Tensor [3; 2]%nat [1 # 2; 3 # 2; 7 # 10; -1 # 1; 2 # 1; 1 # 1]%Q))
                (Some (Tensor [2]%nat [0 # 1; -4 # 10]%Q)) in
  let x := Tensor [2; 3]%nat [1 # 1; 1 # 1; 1 # 1; 0 # 1; 1 # 1; 0 # 1]%Q in
  let u := Z.to_nat (Tea.units self) in
  ∃ (c b : tensor Q) (p : tensor Z),
    Tea.connections self = Some c
    ∧ Tea.biases self = Some b
    ∧ Tea.potential x c (alternating_weights 3 u) b = Ok p
    ∧ Tea.call (λ _, 1 # 2)%Q Inference x self
      = (Ok (Tea.activation (λ _, 1 # 2)%Q Inference p), self)
    ∧ ∀ r j : nat, (r < numel [2%nat])%nat → (j < u)%nat →
        Zsum ((λ i, Z.abs (round_half_even
                             (at_index 0%Q (data x) (r * 3 + i)%nat)))
                <$> seq 0 3)
        + Z.abs (round_half_even (at_index 0%Q (data b) j)) ≤ 2 ^ 24 →
        data p !! (r * u + j)%nat
        = Some (Zsum ((λ i, (if Nat.even i then 1 else -1)
                            * (clip (round_half_even
                                       (at_index 0%Q (data c) (i * u + j)%nat)) 0 1
                               * round_half_even
                                   (at_index 0%Q (data x) (r * 3 + i)%nat)))
                        <$> seq 0 3)
                + round_half_even (at_index 0%Q (data b) j)).
Proof.
  intros self x.
  apply (potential_excites_and_inhibits (λ _, 1 # 2)%Q Inference 3 self x [2%nat]).
  - split; simpl; [lia|reflexivity| |].
    + eexists. split; [reflexivity|]. split; reflexivity.
    + eexists. split; [reflexivity|]. split; reflexivity.
  - reflexivity.
  - discriminate.
  - left. reflexivity.
Defined.

(** ** [AdditivePooling] *)

(** After the ticks are summed, [call] reads only the cells of the sum. *)
Lemma call_ticks_first (self : AdditivePooling.layer) (x z : tensor Q)
    (b t : nat) (rest : list nat) :
  shape x = b :: t :: rest → rest ≠ [] →
  (length (shape z) ≤ 2)%nat →
  data z = sum_axis1_cell x t (numel rest) <$> seq 0 (b * numel rest) →
  AdditivePooling.call x self = AdditivePooling.call z self.
Proof.
  intros Hx Hrest Hz Hdata. unfold AdditivePooling.call. py_unfold.
  rewrite (reduce_sum_axis1_shaped x b t rest Hx), Hx.
  replace (3 <=? length (b :: t :: rest))%nat with true by (by destruct rest).
  replace (3 <=? length (shape z))%nat with false
    by (symmetry; apply Nat.leb_gt; lia).
  cbv beta iota. unfold tf_reshape. cbn [data]. by rewrite Hdata.
Qed.

Lemma pooling_call_state (x : tensor Q) (self : AdditivePooling.layer) :
  (AdditivePooling.call x self).2 = self.
Proof.
  unfold AdditivePooling.call. py_unfold.
  destruct (3 <=? length (shape x))%nat.
  - destruct (reduce_sum_axis1 x) as [y|]; [|done]. cbv beta iota.
    destruct (py_int_truediv _ _) as [npc|]; [|done].
    destruct (tf_reshape y npc _) as [y'|]; [|done].
    by destruct (reduce_sum_axis1 y').
  - cbv beta iota.
    destruct (py_int_truediv _ _) as [npc|]; [|done].
    destruct (tf_reshape x npc _) as [y'|]; [|done].
    by destruct (reduce_sum_axis1 y').
Qed.

(** X7.  [AdditivePooling.call] never changes the layer.  On a layer that
    was constructed but not built it raises [TypeError] ([num_inputs] is
    still [None]), whatever the class count and the input.  A layer with
    zero classes stays in that state: [build] raises on every input shape and
    leaves the layer as constructed, so [call] on it raises [TypeError]. *)
Theorem pooling_call_errors (x : tensor Q) :
  (∀ self : AdditivePooling.layer, (AdditivePooling.call x self).2 = self)
  ∧ (∀ num_classes : Z,
       ∃ self, AdditivePooling.__init__ num_classes = Ok self
             ∧ AdditivePooling.call x self = (Raise TypeError, self))
  ∧ (∀ input_shape : keras_shape,
       ∃ self e,
         AdditivePooling.__init__ 0 = Ok self
         ∧ AdditivePooling.build input_shape self = (Raise e, self)
         ∧ AdditivePooling.call x self = (Raise TypeError, self)).
Proof.
  split; [apply pooling_call_state|].
  assert (∀ num_classes : Z,
            AdditivePooling.call x (AdditivePooling.Layer num_classes None)
            = (Raise TypeError, AdditivePooling.Layer num_classes None)) as Hcall.
  { intros num_classes. unfold AdditivePooling.call. py_unfold.
    destruct (shape x) as [|b [|t [|d rest]]] eqn:Hx; try done.
    rewrite (reduce_sum_axis1_shaped x b t (d :: rest) Hx). done. }
  split.
  - intros num_classes. eexists. split; [done|]. apply Hcall.
  - intros input_shape. exists (AdditivePooling.Layer 0 None).
    assert (∃ e, AdditivePooling.build input_shape (AdditivePooling.Layer 0 None)
                 = (Raise e, AdditivePooling.Layer 0 None)) as [e He].
    { unfold AdditivePooling.build. py_unfold.
      destruct (2 <=? length input_shape)%nat; [|by eexists].
      destruct (shape_last input_shape) as [[n|]|]; by eexists. }
    exists e. split; [done|]. split; [exact He|apply Hcall].
Qed.

Lemma count_list (m : Z) (l : list Q) :
  Forall (count_upto m) l →
  ∃ ks, l = inject_Z <$> ks ∧ Forall (λ k, 0 ≤ k ≤ m) ks.
Proof.
  induction 1 as [|v l (k & -> & Hk) _ (ks & -> & Hks)].
  - by exists [].
  - exists (k :: ks). split; [done|by constructor].
Qed.

Lemma Zsum_counts (m : Z) (ks : list Z) :
  Forall (λ k, 0 ≤ k ≤ m) ks →
  0 ≤ Zsum ks ≤ m * Z.of_nat (length ks)
  ∧ Zsum (Z.abs <$> ks) = Zsum ks.
Proof.
  induction 1 as [|k ks Hk _ IH].
  - simpl. lia.
  - rewrite fmap_cons, !Zsum_cons. cbn [length]. lia.
Qed.

(** A float32 sum of counts is their exact sum as long as it stays below
    2^24. *)
Lemma sum32Q_counts (m : Z) (l : list Q) :
  0 ≤ m → m * Z.of_nat (length l) ≤ 2 ^ 24 →
  Forall (count_upto m) l → count_upto (m * Z.of_nat (length l)) (sum32Q l).
Proof.
  intros Hm Hsmall Hl.
  destruct (count_list m l Hl) as (ks & -> & Hks).
  rewrite length_fmap in *.
  destruct (Zsum_counts m ks Hks) as [Hrange Habs].
  destruct (sum32Q_exact ks) as [-> _]; [lia|].
  by exists (Zsum ks).
Qed.

Lemma count_upto_at_index (m : Z) (l : list Q) (i : nat) :
  0 ≤ m → Forall (count_upto m) l → count_upto m (at_index 0%Q l i).
Proof.
  intros Hm Hl. apply (at_index_Forall (count_upto m)); [|done].
  exists 0. split; [done|lia].
Qed.

Lemma class_members_length (npc nc c : nat) :
  (c < nc)%nat → length (AdditivePooling.class_members (npc * nc) nc c) = npc.
Proof.
  intros Hc. rewrite class_members_stride by done.
  by rewrite length_fmap, length_seq.
Qed.

Lemma call_rank2_counts (self : AdditivePooling.layer) (x : tensor Q)
    (b npc nc : nat) (m : Z) :
  (0 < npc)%nat → (0 < nc)%nat →
  AdditivePooling.num_classes self = Z.of_nat nc →
  AdditivePooling.num_inputs self = Some (Z.of_nat (npc * nc)) →
  shape x = [b; (npc * nc)%nat] →
  tensor_wf x →
  0 ≤ m → m * Z.of_nat npc ≤ 2 ^ 24 →
  Forall (count_upto m) (data x) →
  ∃ out, AdditivePooling.call x self = (Ok out, self)
       ∧ shape out = [b; nc]
       ∧ tensor_wf out
       ∧ Forall (count_upto (m * Z.of_nat npc)) (data out).
Proof.
  intros Hnpc Hnc Hcls Hin Hx Hwf Hm Hsmall Hcells.
  eexists. split; [by apply (call_rank2 self x b npc nc)|].
  split; [done|]. split.
  - unfold tensor_wf. simpl. rewrite length_fmap, length_seq. lia.
  - cbn [data]. apply Forall_fmap, Forall_forall. intros idx _. simpl.
    unfold AdditivePooling.class_sum, AdditivePooling.class_cells.
    pose proof (sum32Q_counts m
      ((λ i, at_index 0%Q (data x) (idx / nc * (npc * nc) + i)%nat)
         <$> AdditivePooling.class_members (npc * nc) nc (idx mod nc)) Hm) as Hsum.
    rewrite length_fmap, class_members_length in Hsum
      by (apply Nat.mod_upper_bound; lia).
    apply Hsum; [done|]. apply Forall_fmap, Forall_forall. intros i _. simpl.
    by apply count_upto_at_index.
Qed.

(** X8.  Pooling counts spikes.  When every cell of the input is an integer
    between 0 and [m] (spikes: [m = 1]), every class score is an integer too:
    between 0 and [m * neuronsPerClass] for a [(b, n)] input, and between 0
    and [m * t * neuronsPerClass] for a [(b, t, n)] input with [t] ticks, as
    long as that bound is at most 2^24 (float32 then adds without
    rounding); the output has shape [(b, num_classes)] in both cases. *)
Theorem pooling_counts_bounded (self : AdditivePooling.layer) (x : tensor Q)
    (b npc nc : nat) (m : Z) :
  (0 < npc)%nat → (0 < nc)%nat →
  AdditivePooling.num_classes self = Z.of_nat nc →
  AdditivePooling.num_inputs self = Some (Z.of_nat (npc * nc)) →
  0 ≤ m →
  Forall (λ v, ∃ k : Z, v = inject_Z k ∧ 0 ≤ k ≤ m) (data x) →
  (shape x = [b; (npc * nc)%nat] → tensor_wf x →
   m * Z.of_nat npc ≤ 2 ^ 24 →
   ∃ out, AdditivePooling.call x self = (Ok out, self)
        ∧ shape out = [b; nc]
        ∧ Forall (λ v, ∃ k : Z, v = inject_Z k ∧ 0 ≤ k ≤ m * Z.of_nat npc)
                 (data out))
  ∧ (∀ t : nat,
       shape x = [b; t; (npc * nc)%nat] →
       m * Z.of_nat t * Z.of_nat npc ≤ 2 ^ 24 →
       ∃ out, AdditivePooling.call x self = (Ok out, self)
            ∧ shape out = [b; nc]
            ∧ Forall (λ v, ∃ k : Z,
                        v = inject_Z k
                        ∧ 0 ≤ k ≤ m * Z.of_nat t * Z.of_nat npc)
                     (data out)).
Proof.
  intros Hnpc Hnc Hcls Hin Hm Hcells. split.
  - intros Hx Hwf Hsmall.
    destruct (call_rank2_counts self x b npc nc m) as (out & Hout & Hs & _ & Hc);
      try done.
    by exists out.
  - intros t Hx Hsmall.
    set (n := (npc * nc)%nat) in *.
    set (y := Tensor [b; n] (sum_axis1_cell x t (numel [n]) <$> seq 0 (b * numel [n]))).
    rewrite (call_ticks_first self x y b t [n]); [|done|done|simpl; lia|done].
    assert (m * Z.of_nat t ≤ 2 ^ 24) as Hticks by nia.
    destruct (call_rank2_counts self y b npc nc (m * Z.of_nat t))
      as (out & Hout & Hs & _ & Hc); try done.
    + unfold tensor_wf, y. simpl. by rewrite length_fmap, length_seq.
    + lia.
    + unfold y. cbn [data]. apply Forall_fmap, Forall_forall. intros idx _.
      simpl. unfold sum_axis1_cell.
      pose proof (sum32Q_counts m
        ((λ ti, at_index 0%Q (data x)
                  ((idx / (n * 1) * t + ti) * (n * 1) + idx mod (n * 1))%nat)
           <$> seq 0 t) Hm) as Hsum.
      rewrite length_fmap, length_seq in Hsum.
      apply Hsum; [done|]. apply Forall_fmap, Forall_forall. intros ti _. simpl.
      by apply count_upto_at_index.
    + by exists out.
Qed.

Lemma pooling_counts_bounded_witness :
  let self := AdditivePooling.Layer 2 (Some 4) in
  let x := Tensor [1; 4]%nat [1; 0; 1; 1]%Q in
  ∃ out, AdditivePooling.call x self = (Ok out, self)
       ∧ shape out = [1; 2]%nat
       ∧ Forall (λ v, ∃ k : Z, v = inject_Z k ∧ 0 ≤ k ≤ 1 * Z.of_nat 2)
                (data out).
Proof.
  intros self x.
  apply (proj1 (pooling_counts_bounded self x 1 2 2 1 ltac:(lia) ltac:(lia)
                  eq_refl eq_refl ltac:(lia)
                  ltac:(repeat constructor;
                        first [by exists 1 | by exists 0])));
    [reflexivity|reflexivity|simpl; lia].
Defined.

Lemma pool_build_ok (input_shape : keras_shape) (nc a : Z) (d : dim) :
  (2 ≤ length input_shape)%nat →
  last input_shape = Some (Some a) →
  nc ≠ 0 → a mod nc = 0 →
  AdditivePooling.build input_shape (AdditivePooling.Layer nc d)
  = (Ok tt, AdditivePooling.Layer nc (Some a)).
Proof.
  intros Hlen Hlast Hnc Hmod. unfold AdditivePooling.build. py_unfold.
  replace (2 <=? length input_shape)%nat with true
    by (symmetry; apply Nat.leb_le; lia).
  apply shape_last_Ok in Hlast. rewrite Hlast. cbv beta iota.
  cbn [AdditivePooling.num_classes py_mod].
  replace (nc =? 0) with false by (symmetry; by apply Z.eqb_neq).
  by rewrite Hmod.
Qed.

(** X9.  For inputs of two or three dimensions the pooling layer does what
    its shape inference says.  Constructed with a positive class count and
    built on the shape of a [(b, n)] or [(b, t, n)] input whose [n] is a
    positive multiple of the class count, the layer accepts the input, and
    the shape of the tensor [call] returns is the shape
    [compute_output_shape] computes from the input shape. *)
Theorem pooling_shape_matches (x : tensor Q) (b npc nc : nat) :
  (0 < npc)%nat → (0 < nc)%nat →
  tensor_wf x →
  (shape x = [b; (npc * nc)%nat] ∨ ∃ t, shape x = [b; t; (npc * nc)%nat]) →
  ∃ (self0 self : AdditivePooling.layer) (out : tensor Q),
    AdditivePooling.__init__ (Z.of_nat nc) = Ok self0
    ∧ AdditivePooling.build (static_shape x) self0 = (Ok tt, self)
    ∧ AdditivePooling.call x self = (Ok out, self)
    ∧ shape out = [b; nc]
    ∧ tensor_wf out
    ∧ AdditivePooling.compute_output_shape (static_shape x) self
      = (Ok (static_shape out), self).
Proof.
  intros Hnpc Hnc Hwf Hx.
  set (self := AdditivePooling.Layer (Z.of_nat nc) (Some (Z.of_nat (npc * nc)))).
  assert (AdditivePooling.build (static_shape x)
            (AdditivePooling.Layer (Z.of_nat nc) None) = (Ok tt, self)) as Hbuild.
  { apply pool_build_ok.
    - unfold static_shape. rewrite length_fmap.
      destruct Hx as [->|[t ->]]; simpl; lia.
    - unfold static_shape. destruct Hx as [->|[t ->]]; done.
    - lia.
    - rewrite Nat2Z.inj_mul. apply Z.mod_mul. lia. }
  exists (AdditivePooling.Layer (Z.of_nat nc) None), self.
  destruct Hx as [Hx|[t Hx]].
  - eexists. split; [done|]. split; [done|].
    split; [by apply (call_rank2 self x b npc nc)|]. split; [done|]. split.
    + unfold tensor_wf. simpl. rewrite length_fmap, length_seq. lia.
    + unfold static_shape. by rewrite Hx.
  - set (n := (npc * nc)%nat) in *.
    set (y := Tensor [b; n] (sum_axis1_cell x t (numel [n]) <$> seq 0 (b * numel [n]))).
    rewrite (call_ticks_first self x y b t [n]); [|done|done|simpl; lia|done].
    eexists. split; [done|]. split; [done|].
    split; [apply (call_rank2 self y b npc nc); try done|].
    { unfold tensor_wf, y. simpl. by rewrite length_fmap, length_seq. }
    split; [done|]. split.
    + unfold tensor_wf. simpl. rewrite length_fmap, length_seq. lia.
    + unfold static_shape. by rewrite Hx.
Qed.

Lemma pooling_shape_matches_witness :
  let x := Tensor [1; 2; 4]%nat [1; 0; 1; 1; 0; 0; 1; 0]%Q in
  ∃ (self0 self : AdditivePooling.layer) (out : tensor Q),
    AdditivePooling.__init__ (Z.of_nat 2) = Ok self0
    ∧ AdditivePooling.build (static_shape x) self0 = (Ok tt, self)
    ∧ AdditivePooling.call x self = (Ok out, self)
    ∧ shape out = [1; 2]%nat
    ∧ tensor_wf out
    ∧ AdditivePooling.compute_output_shape (static_shape x) self
      = (Ok (static_shape out), self).
Proof.
  intros x.
  apply (pooling_shape_matches x 1 2 2); [lia|lia|reflexivity|].
  right. by exists 2%nat.
Defined.

(** X10.  For an input of four dimensions the two disagree.  On a
    [(b, t, u, n)] input, [call] sums dimension 1 and then folds the
    remaining [b * u] rows into the batch: its output has shape
    [(b * u, num_classes)], of two dimensions, while
    [compute_output_shape] announces the three-dimensional shape
    [(b, u, num_classes)]. *)
Theorem pooling_rank4_merges_batch (self : AdditivePooling.layer) (x : tensor Q)
    (b t u npc nc : nat) :
  (0 < npc)%nat → (0 < nc)%nat →
  AdditivePooling.num_classes self = Z.of_nat nc →
  AdditivePooling.num_inputs self = Some (Z.of_nat (npc * nc)) →
  shape x = [b; t; u; (npc * nc)%nat] →
  ∃ out, AdditivePooling.call x self = (Ok out, self)
       ∧ shape out = [(b * u)%nat; nc]
       ∧ AdditivePooling.compute_output_shape (static_shape x) self
         = (Ok [Some (Z.of_nat b); Some (Z.of_nat u); Some (Z.of_nat nc)], self)
       ∧ static_shape out
         ≠ [Some (Z.of_nat b); Some (Z.of_nat u); Some (Z.of_nat nc)].
Proof.
  intros Hnpc Hnc Hcls Hin Hx.
  set (n := (npc * nc)%nat) in *.
  set (z := Tensor [(b * u)%nat; n]
              (sum_axis1_cell x t (numel [u; n]) <$> seq 0 (b * numel [u; n]))).
  rewrite (call_ticks_first self x z b t [u; n]); [|done|done|simpl; lia|done].
  eexists. split; [apply (call_rank2 self z (b * u) npc nc); try done|].
  { unfold tensor_wf, z. simpl. rewrite length_fmap, length_seq. lia. }
  split; [done|]. split; [|done].
  unfold static_shape. rewrite Hx.
  unfold AdditivePooling.compute_output_shape. py_unfold. simpl.
  by rewrite Hcls.
Qed.

Lemma pooling_rank4_merges_batch_witness :
  let self := AdditivePooling.Layer 2 (Some 2) in
  let x := Tensor [1; 1; 2; 2]%nat [1; 0; 1; 1]%Q in
  ∃ out, AdditivePooling.call x self = (Ok out, self)
       ∧ shape out = [(1 * 2)%nat; 2%nat]
       ∧ AdditivePooling.compute_output_shape (static_shape x) self
         = (Ok [Some (Z.of_nat 1); Some (Z.of_nat 2); Some (Z.of_nat 2)], self)
       ∧ static_shape out
         ≠ [Some (Z.of_nat 1); Some (Z.of_nat 2); Some (Z.of_nat 2)].
Proof.
  intros self x.
  apply (pooling_rank4_merges_batch self x 1 1 2 1 2); try reflexivity; lia.
Defined.

(** * Properties of the network, its export and its packets *)

(** ** The four input partitions *)

Lemma slice_columns_spec (lo : nat) (hi : option nat) (x : tensor Q) (b n : nat) :
  shape x = [b; n] →
  let start := Nat.min lo n in
  let w := (Nat.min (default n hi) n - start)%nat in
  ∃ s, slice_columns lo hi x = Ok s
     ∧ shape s = [b; w]
     ∧ tensor_wf s
     ∧ ∀ r k : nat, (r < b)%nat → (k < w)%nat →
         data s !! (r * w + k)%nat
         = Some (at_index 0%Q (data x) (r * n + start + k)%nat).
Proof.
  intros Hx start w. unfold slice_columns. rewrite Hx. fold start w.
  eexists. split; [done|]. split; [done|]. split.
  - unfold tensor_wf. simpl. rewrite length_fmap, length_seq. lia.
  - intros r k Hr Hk. cbn [data].
    rewrite lookup_block by done. by rewrite div_block, mod_block.
Qed.

(** X11.  The four [Lambda] layers of the network cut a [(b, 784)] input
    into four [(b, 256)] inputs, one per core, that start at columns 0, 176,
    352 and 528: cell [(r, k)] of the [i]-th is cell [(r, 176 i + k)] of the
    input.  They overlap, and together they leave no pixel out: every cell of
    the input is a cell of at least one core input. *)
Theorem partitions_cover_input (x : tensor Q) (b : nat) :
  shape x = [b; 784%nat] →
  ∃ x0 x1 x2 x3 : tensor Q,
    slice_columns 0 (Some 256%nat) x = Ok x0
    ∧ slice_columns 176 (Some 432%nat) x = Ok x1
    ∧ slice_columns 352 (Some 608%nat) x = Ok x2
    ∧ slice_columns 528 None x = Ok x3
    ∧ (∀ (i : nat) (xi : tensor Q),
         [x0; x1; x2; x3] !! i = Some xi →
         shape xi = [b; 256%nat]
         ∧ tensor_wf xi
         ∧ ∀ r k : nat, (r < b)%nat → (k < 256)%nat →
             data xi !! (r * 256 + k)%nat
             = Some (at_index 0%Q (data x) (r * 784 + 176 * i + k)%nat))
    ∧ (∀ r j : nat, (r < b)%nat → (j < 784)%nat →
         ∃ (i k : nat) (xi : tensor Q),
           [x0; x1; x2; x3] !! i = Some xi ∧ (k < 256)%nat
           ∧ data xi !! (r * 256 + k)%nat
             = Some (at_index 0%Q (data x) (r * 784 + j)%nat)).
Proof.
  intros Hx.
  destruct (slice_columns_spec 0 (Some 256%nat) x b 784 Hx) as (x0 & E0 & S0 & W0 & C0).
  destruct (slice_columns_spec 176 (Some 432%nat) x b 784 Hx) as (x1 & E1 & S1 & W1 & C1).
  destruct (slice_columns_spec 352 (Some 608%nat) x b 784 Hx) as (x2 & E2 & S2 & W2 & C2).
  destruct (slice_columns_spec 528 None x b 784 Hx) as (x3 & E3 & S3 & W3 & C3).
  change (Nat.min (default 784 (Some 256)) 784 - Nat.min 0 784)%nat
    with 256%nat in *.
  change (Nat.min (default 784 (Some 432)) 784 - Nat.min 176 784)%nat
    with 256%nat in *.
  change (Nat.min (default 784 (Some 608)) 784 - Nat.min 352 784)%nat
    with 256%nat in *.
  change (Nat.min (default 784 None) 784 - Nat.min 528 784)%nat
    with 256%nat in *.
  change (Nat.min 0 784) with 0%nat in *.
  change (Nat.min 176 784) with 176%nat in *.
  change (Nat.min 352 784) with 352%nat in *.
  change (Nat.min 528 784) with 528%nat in *.
  assert (∀ (i : nat) (xi : tensor Q),
         [x0; x1; x2; x3] !! i = Some xi →
         shape xi = [b; 256%nat]
         ∧ tensor_wf xi
         ∧ ∀ r k : nat, (r < b)%nat → (k < 256)%nat →
             data xi !! (r * 256 + k)%nat
             = Some (at_index 0%Q (data x) (r * 784 + 176 * i + k)%nat)) as Hcells.
  { intros i xi Hi.
    destruct i as [|[|[|[|i]]]]; cbn in Hi; [| | | |done];
      injection Hi as <-; (split; [done|split; [done|]]); intros r k Hr Hk.
    - rewrite C0 by done. do 2 f_equal; lia.
    - rewrite C1 by done. do 2 f_equal; lia.
    - rewrite C2 by done. do 2 f_equal; lia.
    - rewrite C3 by done. do 2 f_equal; lia. }
  exists x0, x1, x2, x3. repeat (split; [done|]).
  intros r j Hr Hj.
  assert (∃ i k : nat, (i < 4 ∧ k < 256 ∧ j = 176 * i + k)%nat) as (i & k & Hi & Hk & ->).
  { destruct (Nat.lt_ge_cases j 256); [exists 0%nat, j; lia|].
    destruct (Nat.lt_ge_cases j 432); [exists 1%nat, (j - 176)%nat; lia|].
    destruct (Nat.lt_ge_cases j 608); [exists 2%nat, (j - 352)%nat; lia|].
    exists 3%nat, (j - 528)%nat. lia. }
  destruct ([x0; x1; x2; x3] !! i) as [xi|] eqn:Hxi.
  2:{ apply lookup_ge_None in Hxi. simpl in Hxi. lia. }
  exists i, k, xi. split; [done|]. split; [done|].
  destruct (Hcells i xi Hxi) as (_ & _ & Hc).
  rewrite Hc by done. do 2 f_equal; lia.
Qed.

Lemma partitions_cover_input_witness :
  let x := Tensor [1; 784]%nat (replicate 784 1%Q) in
  ∃ x0 x1 x2 x3 : tensor Q,
    slice_columns 0 (Some 256%nat) x = Ok x0
    ∧ slice_columns 176 (Some 432%nat) x = Ok x1
    ∧ slice_columns 352 (Some 608%nat) x = Ok x2
    ∧ slice_columns 528 None x = Ok x3
    ∧ (∀ (i : nat) (xi : tensor Q),
         [x0; x1; x2; x3] !! i = Some xi →
         shape xi = [1%nat; 256%nat]
         ∧ tensor_wf xi
         ∧ ∀ r k : nat, (r < 1)%nat → (k < 256)%nat →
             data xi !! (r * 256 + k)%nat
             = Some (at_index 0%Q (data x) (r * 784 + 176 * i + k)%nat))
    ∧ (∀ r j : nat, (r < 1)%nat → (j < 784)%nat →
         ∃ (i k : nat) (xi : tensor Q),
           [x0; x1; x2; x3] !! i = Some xi ∧ (k < 256)%nat
           ∧ data xi !! (r * 256 + k)%nat
             = Some (at_index 0%Q (data x) (r * 784 + j)%nat)).
Proof.
  intros x. apply (partitions_cover_input x 1). reflexivity.
Defined.

(** ** Building the network *)

Lemma new_tea_ok (truncated_normal : nat → Q) (units : Z) (n : nat) :
  0 < units → (0 < n)%nat →
  ∃ self, Network.new_tea truncated_normal units [None; Some (Z.of_nat n)]
          = Ok (self, [None; Some units])
        ∧ Tea.built n self
        ∧ Tea.units self = units.
Proof.
  intros Hu Hn. unfold Network.new_tea, Tea.__init__.
  destruct (build_establishes_built truncated_normal [None; Some (Z.of_nat n)]
              (Tea.Layer units true None None None) n)
    as (self & Hbuild & Hunits & Hbuilt & _); [simpl; lia|done|simpl; lia|].
  exists self. split; [|done].
  cbn [mbind result_mbind result_bind]. rewrite Hbuild.
  cbn [mbind result_mbind result_bind].
  assert (Tea.compute_output_shape [None; Some (Z.of_nat n)] self
          = (Ok [None; Some (Tea.units self)], self)) as ->.
  { apply (tea_output_shape_snoc self [None] (Some (Z.of_nat n)));
      [simpl; lia|simpl; apply negb_true_iff, Z.eqb_neq; lia]. }
  cbn [mbind result_mbind result_bind]. by rewrite Hunits.
Qed.

(** X12.  The network of cell 21 builds, whatever values are drawn for the
    connections: the shapes chain from the 784 pixels through four cores of
    256 axons and 64 neurons and an output core of 256 axons and 250
    neurons to 10 classes of 25 neurons each, so every [build] and every
    [compute_output_shape] on the way succeeds, and the class scores have
    the shape [(None, 10)]. *)
Theorem build_model_ready (truncated_normal : nat → nat → Q) :
  ∃ net, Network.build_model truncated_normal = Ok (net, [None; Some 10])
       ∧ Network.ready net.
Proof.
  unfold Network.build_model.
  change (Flatten_shape [None; Some 28; Some 28]) with (Ok [None; Some 784]).
  cbn [mbind result_mbind result_bind].
  change (slice_columns_shape 0 (Some 256%nat) [None; Some 784])
    with (Ok [None; Some (Z.of_nat 256)]).
  change (slice_columns_shape 176 (Some 432%nat) [None; Some 784])
    with (Ok [None; Some (Z.of_nat 256)]).
  change (slice_columns_shape 352 (Some 608%nat) [None; Some 784])
    with (Ok [None; Some (Z.of_nat 256)]).
  change (slice_columns_shape 528 None [None; Some 784])
    with (Ok [None; Some (Z.of_nat 256)]).
  cbn [mbind result_mbind result_bind].
  destruct (new_tea_ok (truncated_normal 0%nat) 64 256) as (c0 & -> & B0 & U0);
    [lia|lia|].
  destruct (new_tea_ok (truncated_normal 1%nat) 64 256) as (c1 & -> & B1 & U1);
    [lia|lia|].
  destruct (new_tea_ok (truncated_normal 2%nat) 64 256) as (c2 & -> & B2 & U2);
    [lia|lia|].
  destruct (new_tea_ok (truncated_normal 3%nat) 64 256) as (c3 & -> & B3 & U3);
    [lia|lia|].
  cbn [mbind result_mbind result_bind].
  change (concatenate_shape [[None; Some 64]; [None; Some 64]; [None; Some 64];
                             [None; Some 64]])
    with (Ok [None; Some (Z.of_nat 256)]).
  cbn [mbind result_mbind result_bind].
  destruct (new_tea_ok (truncated_normal 4%nat) 250 256) as (oc & -> & B4 & U4);
    [lia|lia|].
  cbn [mbind result_mbind result_bind].
  change (Network.new_pooling 10 [None; Some 250])
    with (Ok (AdditivePooling.Layer 10 (Some 250), [None; Some 10])).
  cbn [mbind result_mbind result_bind].
  eexists. split; [done|]. by split.
Qed.

(** ** The forward pass of the network *)

Lemma spike_count (z : Z) : count_upto 1 (spike z).
Proof.
  unfold spike, cast_float32.
  destruct (greater_equal z 0); [exists 1|exists 0]; (split; [done|lia]).
Qed.

Lemma tea_call_ready (K_sigmoid : Z → Q) (phase : learning_phase)
    (self : Tea.layer) (x : tensor Q) (b n u : nat) :
  Tea.built n self → Tea.units self = Z.of_nat u →
  shape x = [b; n] →
  ∃ out, Tea.call K_sigmoid phase x self = (Ok out, self)
       ∧ shape out = [b; u]
       ∧ tensor_wf out
       ∧ (phase = Inference → Forall (count_upto 1) (data out)).
Proof.
  intros Hbuilt Hu Hx.
  destruct (built_potential n self x [b] Hbuilt Hx ltac:(done) (or_introl eq_refl))
    as (c & b' & Hc & _ & Hb & _ & Hw & Hp).
  rewrite Hu, Nat2Z.id in Hw. rewrite Hu, Nat2Z.id in Hp.
  cbn [app] in Hp.
  eexists. split; [exact (call_potential K_sigmoid phase x c b' _ _ self Hc Hw Hb Hp)|].
  split; [by destruct phase|]. split.
  - unfold tensor_wf. destruct phase; simpl;
      rewrite !length_fmap, length_seq; lia.
  - intros ->. cbn [Tea.activation K_in_train_phase tensor_map data].
    apply Forall_fmap, Forall_forall. intros z _. apply spike_count.
Qed.

Lemma on_layer_core0 {A} (m : py Tea.layer A) (r : result A) (net : Network.layers) :
  m (Network.core0 net) = (r, Network.core0 net) →
  on_layer Network.core0 Network.set_core0 m net = (r, net).
Proof. intros H. unfold on_layer. rewrite H. by destruct net. Qed.

Lemma on_layer_core1 {A} (m : py Tea.layer A) (r : result A) (net : Network.layers) :
  m (Network.core1 net) = (r, Network.core1 net) →
  on_layer Network.core1 Network.set_core1 m net = (r, net).
Proof. intros H. unfold on_layer. rewrite H. by destruct net. Qed.

Lemma on_layer_core2 {A} (m : py Tea.layer A) (r : result A) (net : Network.layers) :
  m (Network.core2 net) = (r, Network.core2 net) →
  on_layer Network.core2 Network.set_core2 m net = (r, net).
Proof. intros H. unfold on_layer. rewrite H. by destruct net. Qed.

Lemma on_layer_core3 {A} (m : py Tea.layer A) (r : result A) (net : Network.layers) :
  m (Network.core3 net) = (r, Network.core3 net) →
  on_layer Network.core3 Network.set_core3 m net = (r, net).
Proof. intros H. unfold on_layer. rewrite H. by destruct net. Qed.

Lemma on_layer_output_core {A} (m : py Tea.layer A) (r : result A)
    (net : Network.layers) :
  m (Network.output_core net) = (r, Network.output_core net) →
  on_layer Network.output_core Network.set_output_core m net = (r, net).
Proof. intros H. unfold on_layer. rewrite H. by destruct net. Qed.

Lemma on_layer_pooling {A} (m : py AdditivePooling.layer A) (r : result A)
    (net : Network.layers) :
  m (Network.pooling net) = (r, Network.pooling net) →
  on_layer Network.pooling Network.set_pooling m net = (r, net).
Proof. intros H. unfold on_layer. rewrite H. by destruct net. Qed.

Lemma concatenate_four (x0 x1 x2 x3 : tensor Q) (b w0 w1 w2 w3 : nat) :
  shape x0 = [b; w0] → shape x1 = [b; w1] →
  shape x2 = [b; w2] → shape x3 = [b; w3] →
  ∃ x, concatenate [x0; x1; x2; x3] = Ok x
     ∧ shape x = [b; (w0 + (w1 + (w2 + (w3 + 0))))%nat].
Proof.
  intros H0 H1 H2 H3. unfold concatenate. cbn [forallb].
  rewrite H0, H1, H2, H3. cbn [lead_dims length pred take].
  rewrite !bool_decide_eq_true_2 by (split; [discriminate|reflexivity]).
  cbn [andb]. eexists. split; [done|].
  cbn [shape fmap list_fmap]. by rewrite H0, H1, H2, H3.
Qed.

Lemma Flatten_image (inputs : tensor Q) (b : nat) :
  shape inputs = [b; 28%nat; 28%nat] →
  Flatten inputs = Ok (Tensor [b; 784%nat] (data inputs)).
Proof. intros H. unfold Flatten. rewrite H. do 3 f_equal. Qed.

Lemma partitions_slices (x : tensor Q) (b : nat) :
  shape x = [b; 784%nat] →
  ∃ x0 x1 x2 x3 : tensor Q,
    slice_columns 0 (Some 256%nat) x = Ok x0
    ∧ slice_columns 176 (Some 432%nat) x = Ok x1
    ∧ slice_columns 352 (Some 608%nat) x = Ok x2
    ∧ slice_columns 528 None x = Ok x3
    ∧ shape x0 = [b; 256%nat] ∧ shape x1 = [b; 256%nat]
    ∧ shape x2 = [b; 256%nat] ∧ shape x3 = [b; 256%nat].
Proof.
  intros Hx.
  destruct (slice_columns_spec 0 (Some 256%nat) x b 784 Hx) as (x0 & E0 & S0 & _).
  destruct (slice_columns_spec 176 (Some 432%nat) x b 784 Hx) as (x1 & E1 & S1 & _).
  destruct (slice_columns_spec 352 (Some 608%nat) x b 784 Hx) as (x2 & E2 & S2 & _).
  destruct (slice_columns_spec 528 None x b 784 Hx) as (x3 & E3 & S3 & _).
  by exists x0, x1, x2, x3.
Qed.

(** X13.  On a network whose layers are built as in cell 21, whatever the
    trained connections and leaks, the forward pass succeeds in both phases
    on every batch of 28 by 28 images, leaves every layer unchanged and
    returns class scores of shape [(b, 10)].  In the test phase every class
    score is an integer between 0 and 25: the number of neurons of the class
    that spiked. *)
Theorem class_scores_bounded (K_sigmoid : Z → Q) (phase : learning_phase)
    (net : Network.layers) (inputs : tensor Q) (b : nat) :
  Network.ready net →
  shape inputs = [b; 28%nat; 28%nat] →
  ∃ out, Network.class_scores K_sigmoid phase inputs net = (Ok out, net)
       ∧ shape out = [b; 10%nat]
       ∧ tensor_wf out
       ∧ (phase = Inference →
          Forall (λ v, ∃ k : Z, v = inject_Z k ∧ 0 ≤ k ≤ 25) (data out)).
Proof.
  intros [[B0 U0] [B1 U1] [B2 U2] [B3 U3] [B4 U4] Hpool] Hin.
  unfold Network.class_scores. py_unfold.
  rewrite (Flatten_image inputs b Hin). cbv beta iota.
  set (flat := Tensor [b; 784%nat] (data inputs)).
  destruct (partitions_slices flat b eq_refl)
    as (x0 & x1 & x2 & x3 & -> & -> & -> & -> & S0 & S1 & S2 & S3).
  cbv beta iota.
  destruct (tea_call_ready K_sigmoid phase _ x0 b 256 64 B0 U0 S0)
    as (y0 & E0 & T0 & _ & C0).
  destruct (tea_call_ready K_sigmoid phase _ x1 b 256 64 B1 U1 S1)
    as (y1 & E1 & T1 & _ & C1).
  destruct (tea_call_ready K_sigmoid phase _ x2 b 256 64 B2 U2 S2)
    as (y2 & E2 & T2 & _ & C2).
  destruct (tea_call_ready K_sigmoid phase _ x3 b 256 64 B3 U3 S3)
    as (y3 & E3 & T3 & _ & C3).
  rewrite (on_layer_core0 _ _ _ E0). cbv beta iota.
  rewrite (on_layer_core1 _ _ _ E1). cbv beta iota.
  rewrite (on_layer_core2 _ _ _ E2). cbv beta iota.
  rewrite (on_layer_core3 _ _ _ E3). cbv beta iota.
  destruct (concatenate_four y0 y1 y2 y3 b 64 64 64 64 T0 T1 T2 T3)
    as (y & -> & Sy).
  change (64 + (64 + (64 + (64 + 0))))%nat with 256%nat in Sy.
  cbv beta iota.
  destruct (tea_call_ready K_sigmoid phase _ y b 256 250 B4 U4 Sy)
    as (z & E4 & Sz & Wz & Cz).
  rewrite (on_layer_output_core _ _ _ E4). cbv beta iota.
  assert (AdditivePooling.num_classes (Network.pooling net) = Z.of_nat 10) as Hnc
    by (by rewrite Hpool).
  assert (AdditivePooling.num_inputs (Network.pooling net)
          = Some (Z.of_nat (25 * 10))) as Hni by (by rewrite Hpool).
  pose proof (call_rank2 (Network.pooling net) z b 25 10 ltac:(lia) ltac:(lia)
                Hnc Hni Sz Wz) as Eout.
  rewrite (on_layer_pooling _ _ _ Eout).
  eexists. split; [done|]. split; [done|]. split.
  - unfold tensor_wf. simpl. rewrite length_fmap, length_seq. lia.
  - intros Hphase.
    destruct (call_rank2_counts (Network.pooling net) z b 25 10 1)
      as (out & Eout' & _ & _ & Cout); try done; [lia|lia|by apply Cz|].
    rewrite Eout in Eout'. injection Eout' as <-. exact Cout.
Qed.

Lemma class_scores_bounded_witness :
  let core := Tea.Layer 64 true (Some (alternating_weights 256 64))
                (Some (Tensor [256; 64]%nat (replicate (256 * 64) (1 # 2)%Q)))
                (Some (Tensor [64%nat] (replicate 64 0%Q))) in
  let output_core :=
    Tea.Layer 250 true (Some (alternating_weights 256 250))
      (Some (Tensor [256; 250]%nat (replicate (256 * 250) (1 # 2)%Q)))
      (Some (Tensor [250%nat] (replicate 250 0%Q))) in
  let net := Network.Layers core core core core output_core
               (AdditivePooling.Layer 10 (Some 250)) in
  let inputs := Tensor [1; 28; 28]%nat (replicate 784 1%Q) in
  ∃ out, Network.class_scores (λ _, 1 # 2)%Q Inference inputs net = (Ok out, net)
       ∧ shape out = [1; 10]%nat
       ∧ tensor_wf out
       ∧ (Inference = Inference →
          Forall (λ v, ∃ k : Z, v = inject_Z k ∧ 0 ≤ k ≤ 25) (data out)).
Proof.
  intros core output_core net inputs.
  apply (class_scores_bounded (λ _, 1 # 2)%Q Inference net inputs 1).
  - assert (Tea.built 256 core) as Hcore.
    { split; [done|done| |].
      - eexists. split; [done|]. split; [done|].
        unfold tensor_wf. cbn [data shape numel foldr].
        rewrite length_replicate. lia.
      - eexists. split; [done|]. split; [done|].
        unfold tensor_wf. cbn [data shape numel foldr].
        rewrite length_replicate. lia. }
    assert (Tea.built 256 output_core) as Hout.
    { split; [done|done| |].
      - eexists. split; [done|]. split; [done|].
        unfold tensor_wf. cbn [data shape numel foldr].
        rewrite length_replicate. lia.
      - eexists. split; [done|]. split; [done|].
        unfold tensor_wf. cbn [data shape numel foldr].
        rewrite length_replicate. lia. }
    by split.
  - reflexivity.
Defined.

(** ** The export for the simulator *)

Lemma np_clip_round (c : tensor Q) :
  np_clip (np_round c) 0 1 = Tea.constrain_connections c.
Proof.
  unfold np_clip, np_round, Tea.constrain_connections, K_clip, tf_round,
    tensor_map. cbn [shape data]. f_equal.
  apply list_fmap_ext. intros _ z _. unfold clip, clip_by_value. simpl. lia.
Qed.

Lemma tea_weights_holds (self : Tea.layer) (c b : tensor Q) (w : tensor Z) :
  Network.holds self c b w →
  Network.tea_weights self = [c; b; tensor_map inject_Z w].
Proof. intros (Hc & Hb & Hw). unfold Network.tea_weights. by rewrite Hc, Hb, Hw. Qed.

Lemma astype_int_fits (t : tensor Z) : fits_int64 t → astype_int t = t.
Proof.
  destruct t as [sh d]. unfold fits_int64, astype_int, tensor_map.
  cbn [shape data]. intros H. f_equal.
  induction H as [|z d [Hlo Hhi] _ IH]; [done|]. cbn [fmap list_fmap].
  rewrite (proj2 (Z.leb_le _ _) Hlo), (proj2 (Z.leb_le _ _) Hhi). cbn [andb].
  f_equal. exact IH.
Qed.

Lemma constrain_connections_fits (c : tensor Q) :
  fits_int64 (Tea.constrain_connections c).
Proof.
  unfold fits_int64. eapply Forall_impl; [apply effective_connection_cells|].
  intros e He. simpl in He. unfold int64_min, int64_max. lia.
Qed.

Lemma export_model_explicit (net : Network.layers)
    (c0 c1 c2 c3 c4 b0 b1 b2 b3 b4 : tensor Q) (w0 w1 w2 w3 w4 : tensor Z) :
  Network.holds (Network.core0 net) c0 b0 w0 →
  Network.holds (Network.core1 net) c1 b1 w1 →
  Network.holds (Network.core2 net) c2 b2 w2 →
  Network.holds (Network.core3 net) c3 b3 w3 →
  Network.holds (Network.output_core net) c4 b4 w4 →
  fits_int64 (tf_round b0) → fits_int64 (tf_round b1) →
  fits_int64 (tf_round b2) → fits_int64 (tf_round b3) →
  fits_int64 (tf_round b4) →
  Network.export_model net
  = Ok (Network.Export
          [[Tea.constrain_connections c0; Tea.constrain_connections c1;
            Tea.constrain_connections c2; Tea.constrain_connections c3];
           [Tea.constrain_connections c4]]
          [[tf_round b0; tf_round b1; tf_round b2; tf_round b3]; [tf_round b4]]
          [[tensor_map inject_Z w0; tensor_map inject_Z w1;
            tensor_map inject_Z w2; tensor_map inject_Z w3];
           [tensor_map inject_Z w4]]).
Proof.
  intros H0 H1 H2 H3 H4 F0 F1 F2 F3 F4.
  unfold Network.export_model, Network.get_weights.
  rewrite (tea_weights_holds _ _ _ _ H0), (tea_weights_holds _ _ _ _ H1),
    (tea_weights_holds _ _ _ _ H2), (tea_weights_holds _ _ _ _ H3),
    (tea_weights_holds _ _ _ _ H4).
  unfold Network.export_connection, Network.export_bias, py_item.
  cbn [app lookup list_lookup mbind result_mbind result_bind].
  rewrite !np_clip_round.
  rewrite !(astype_int_fits _ (constrain_connections_fits _)).
  change np_round with tf_round.
  by rewrite (astype_int_fits _ F0), (astype_int_fits _ F1),
    (astype_int_fits _ F2), (astype_int_fits _ F3), (astype_int_fits _ F4).
Qed.

(** X14.  For a network whose five [Tea] layers hold their parameters, with
    rounded leaks that 64-bit integers hold, the export picks, by its
    hard-coded positions in [model.get_weights()], the arrays of the right
    layers, grouped as four input cores and one output core: the exported
    connections are exactly the 0/1 effective connections [call] computes
    from the stored connections, the exported biases are the rounded leaks
    [call] adds, and the exported weights are the static weights. *)
Theorem export_model_discretizes (net : Network.layers)
    (c0 c1 c2 c3 c4 b0 b1 b2 b3 b4 : tensor Q) (w0 w1 w2 w3 w4 : tensor Z) :
  Network.holds (Network.core0 net) c0 b0 w0 →
  Network.holds (Network.core1 net) c1 b1 w1 →
  Network.holds (Network.core2 net) c2 b2 w2 →
  Network.holds (Network.core3 net) c3 b3 w3 →
  Network.holds (Network.output_core net) c4 b4 w4 →
  fits_int64 (tf_round b0) → fits_int64 (tf_round b1) →
  fits_int64 (tf_round b2) → fits_int64 (tf_round b3) →
  fits_int64 (tf_round b4) →
  Network.export_model net
  = Ok (Network.Export
          [[Tea.constrain_connections c0; Tea.constrain_connections c1;
            Tea.constrain_connections c2; Tea.constrain_connections c3];
           [Tea.constrain_connections c4]]
          [[tf_round b0; tf_round b1; tf_round b2; tf_round b3]; [tf_round b4]]
          [[tensor_map inject_Z w0; tensor_map inject_Z w1;
            tensor_map inject_Z w2; tensor_map inject_Z w3];
           [tensor_map inject_Z w4]]).
Proof. apply export_model_explicit. Qed.

Lemma export_model_discretizes_witness :
  let core := Tea.Layer 1 true (Some (alternating_weights 2 1))
                (Some (Tensor [2; 1]%nat [3 # 2; 1 # 4]%Q))
                (Some (Tensor [1%nat] [-3 # 2]%Q)) in
  let net := Network.Layers core core core core core
               (AdditivePooling.Layer 1 (Some 1)) in
  let c := Tensor [2; 1]%nat [3 # 2; 1 # 4]%Q in
  let b := Tensor [1%nat] [-3 # 2]%Q in
  let w := alternating_weights 2 1 in
  Network.export_model net
  = Ok (Network.Export
          [[Tea.constrain_connections c; Tea.constrain_connections c;
            Tea.constrain_connections c; Tea.constrain_connections c];
           [Tea.constrain_connections c]]
          [[tf_round b; tf_round b; tf_round b; tf_round b]; [tf_round b]]
          [[tensor_map inject_Z w; tensor_map inject_Z w;
            tensor_map inject_Z w; tensor_map inject_Z w];
           [tensor_map inject_Z w]]).
Proof.
  intros core net c b w.
  apply (export_model_discretizes net c c c c c b b b b b w w w w w);
    first [by repeat split | by repeat constructor].
Defined.

(** A bind that returns has run both of its parts. *)
Lemma result_bind_Ok {A B} (m : result A) (f : A → result B) (b : B) :
  m ≫= f = Ok b → ∃ a, m = Ok a ∧ f a = Ok b.
Proof. destruct m as [a|e]; [by exists a|done]. Qed.

Lemma tea_weights_length (self : Tea.layer) :
  (length (Network.tea_weights self) ≤ 3)%nat
  ∧ (length (Network.tea_weights self) = 3%nat →
     ∃ c b w, Network.holds self c b w).
Proof.
  unfold Network.tea_weights, Network.holds.
  destruct (Tea.connections self) as [c|], (Tea.biases self) as [b|],
    (Tea.static_weights self) as [w|]; simpl; split; try lia; try discriminate.
  intros _. by exists c, b, w.
Qed.

Lemma export_model_holds (net : Network.layers) (e : Network.export) :
  Network.export_model net = Ok e →
  ∃ c0 b0 w0 c1 b1 w1 c2 b2 w2 c3 b3 w3 c4 b4 w4,
    Network.holds (Network.core0 net) c0 b0 w0
    ∧ Network.holds (Network.core1 net) c1 b1 w1
    ∧ Network.holds (Network.core2 net) c2 b2 w2
    ∧ Network.holds (Network.core3 net) c3 b3 w3
    ∧ Network.holds (Network.output_core net) c4 b4 w4.
Proof.
  intros He.
  assert (14 < length (Network.get_weights net))%nat as Hlen.
  { unfold Network.export_model in He. cbv zeta in He.
    do 14 (apply result_bind_Ok in He as (? & _ & He)).
    apply result_bind_Ok in He as (w14 & H14 & _).
    unfold py_item in H14.
    destruct (Network.get_weights net !! 14%nat) eqn:Hl; [|done].
    by apply lookup_lt_Some in Hl. }
  unfold Network.get_weights in Hlen. rewrite !length_app in Hlen.
  destruct (tea_weights_length (Network.core0 net)) as [L0 H0].
  destruct (tea_weights_length (Network.core1 net)) as [L1 H1].
  destruct (tea_weights_length (Network.core2 net)) as [L2 H2].
  destruct (tea_weights_length (Network.core3 net)) as [L3 H3].
  destruct (tea_weights_length (Network.output_core net)) as [L4 H4].
  destruct H0 as (c0 & b0 & w0 & ?); [lia|].
  destruct H1 as (c1 & b1 & w1 & ?); [lia|].
  destruct H2 as (c2 & b2 & w2 & ?); [lia|].
  destruct H3 as (c3 & b3 & w3 & ?); [lia|].
  destruct H4 as (c4 & b4 & w4 & ?); [lia|].
  exists c0, b0, w0, c1, b1, w1, c2, b2, w2, c3, b3, w3, c4, b4, w4. done.
Qed.

Lemma tensor_map_inject_Z_inj (w w' : tensor Z) :
  tensor_map inject_Z w = tensor_map inject_Z w' → w = w'.
Proof.
  destruct w as [sh d], w' as [sh' d']. unfold tensor_map. cbn [shape data].
  intros [= -> Hd]. f_equal.
  revert d' Hd. induction d as [|z d IH]; intros [|z' d']; try done.
  cbn [fmap list_fmap]. intros [= -> Hd]. f_equal. by apply IH.
Qed.

Lemma call_discretized (K_sigmoid : Z → Q) (phase : learning_phase)
    (x : tensor Q) (self self' : Tea.layer) (c b c' b' : tensor Q)
    (w : tensor Z) :
  Network.holds self c b w → Network.holds self' c' b' w →
  Tea.constrain_connections c = Tea.constrain_connections c' →
  tf_round b = tf_round b' →
  (Tea.call K_sigmoid phase x self).1 = (Tea.call K_sigmoid phase x self').1.
Proof.
  intros (Hc & Hb & Hw) (Hc' & Hb' & Hw') Hcc Hbb.
  unfold Tea.call. py_unfold. rewrite Hc, Hw, Hc', Hw'.
  change (K_clip (tf_round c) 0 1) with (Tea.constrain_connections c).
  change (K_clip (tf_round c') 0 1) with (Tea.constrain_connections c').
  rewrite Hcc.
  destruct (tensor_mul _ w) as [wc|]; [|done].
  destruct (K_dot _ wc) as [o|]; [|done].
  rewrite Hb, Hb', Hbb.
  by destruct (K_bias_add o _).
Qed.

(** X15.  The export carries everything the forward pass depends on.  Two
    networks with the same pooling layer, with rounded leaks that 64-bit
    integers hold, whose exports succeed and are equal return the same class
    scores, or raise the same exception, on every input and in both phases,
    however their stored connections and leaks differ. *)
Theorem export_determines_scores (K_sigmoid : Z → Q) (phase : learning_phase)
    (inputs : tensor Q) (net net' : Network.layers) (e : Network.export) :
  Network.export_model net = Ok e →
  Network.export_model net' = Ok e →
  Network.pooling net = Network.pooling net' →
  Network.exportable net → Network.exportable net' →
  (Network.class_scores K_sigmoid phase inputs net).1
  = (Network.class_scores K_sigmoid phase inputs net').1.
Proof.
  intros He He' Hpool (F0 & F1 & F2 & F3 & F4) (F0' & F1' & F2' & F3' & F4').
  destruct (export_model_holds net e He)
    as (c0 & b0 & w0 & c1 & b1 & w1 & c2 & b2 & w2 & c3 & b3 & w3
        & c4 & b4 & w4 & H0 & H1 & H2 & H3 & H4).
  destruct (export_model_holds net' e He')
    as (c0' & b0' & w0' & c1' & b1' & w1' & c2' & b2' & w2' & c3' & b3' & w3'
        & c4' & b4' & w4' & H0' & H1' & H2' & H3' & H4').
  rewrite (export_model_explicit net _ _ _ _ _ _ _ _ _ _ _ _ _ _ _
             H0 H1 H2 H3 H4
             (F0 _ (proj1 (proj2 H0))) (F1 _ (proj1 (proj2 H1)))
             (F2 _ (proj1 (proj2 H2))) (F3 _ (proj1 (proj2 H3)))
             (F4 _ (proj1 (proj2 H4)))) in He.
  rewrite (export_model_explicit net' _ _ _ _ _ _ _ _ _ _ _ _ _ _ _
             H0' H1' H2' H3' H4'
             (F0' _ (proj1 (proj2 H0'))) (F1' _ (proj1 (proj2 H1')))
             (F2' _ (proj1 (proj2 H2'))) (F3' _ (proj1 (proj2 H3')))
             (F4' _ (proj1 (proj2 H4')))) in He'.
  rewrite <-He' in He.
  assert (Tea.constrain_connections c0 = Tea.constrain_connections c0') as C0
    by congruence.
  assert (tf_round b0 = tf_round b0') as B0 by congruence.
  assert (tensor_map inject_Z w0 = tensor_map inject_Z w0') as W0 by congruence.
  assert (Tea.constrain_connections c1 = Tea.constrain_connections c1') as C1
    by congruence.
  assert (tf_round b1 = tf_round b1') as B1 by congruence.
  assert (tensor_map inject_Z w1 = tensor_map inject_Z w1') as W1 by congruence.
  assert (Tea.constrain_connections c2 = Tea.constrain_connections c2') as C2
    by congruence.
  assert (tf_round b2 = tf_round b2') as B2 by congruence.
  assert (tensor_map inject_Z w2 = tensor_map inject_Z w2') as W2 by congruence.
  assert (Tea.constrain_connections c3 = Tea.constrain_connections c3') as C3
    by congruence.
  assert (tf_round b3 = tf_round b3') as B3 by congruence.
  assert (tensor_map inject_Z w3 = tensor_map inject_Z w3') as W3 by congruence.
  assert (Tea.constrain_connections c4 = Tea.constrain_connections c4') as C4
    by congruence.
  assert (tf_round b4 = tf_round b4') as B4 by congruence.
  assert (tensor_map inject_Z w4 = tensor_map inject_Z w4') as W4 by congruence.
  clear He He'.
  apply tensor_map_inject_Z_inj in W0, W1, W2, W3, W4. subst.
  pose proof (λ x, call_discretized K_sigmoid phase x _ _ _ _ _ _ _ H0 H0' C0 B0) as E0.
  pose proof (λ x, call_discretized K_sigmoid phase x _ _ _ _ _ _ _ H1 H1' C1 B1) as E1.
  pose proof (λ x, call_discretized K_sigmoid phase x _ _ _ _ _ _ _ H2 H2' C2 B2) as E2.
  pose proof (λ x, call_discretized K_sigmoid phase x _ _ _ _ _ _ _ H3 H3' C3 B3) as E3.
  pose proof (λ x, call_discretized K_sigmoid phase x _ _ _ _ _ _ _ H4 H4' C4 B4) as E4.
  clear H0 H1 H2 H3 H4 H0' H1' H2' H3' H4' C0 C1 C2 C3 C4 B0 B1 B2 B3 B4.
  unfold Network.class_scores. py_unfold.
  destruct (Flatten inputs) as [flat|]; [|done]. cbv beta iota.
  destruct (slice_columns 0 _ flat) as [x0|]; [|done].
  destruct (slice_columns 176 _ flat) as [x1|]; [|done].
  destruct (slice_columns 352 _ flat) as [x2|]; [|done].
  destruct (slice_columns 528 _ flat) as [x3|]; [|done].
  cbv beta iota. unfold on_layer.
  specialize (E0 x0).
  destruct (Tea.call K_sigmoid phase x0 (Network.core0 net)) as [r0 s0],
    (Tea.call K_sigmoid phase x0 (Network.core0 net')) as [r0' s0'].
  cbn [fst] in E0. subst r0'. destruct r0 as [y0|]; [|done].
  cbv beta iota. cbn [Network.core1 Network.set_core0].
  specialize (E1 x1).
  destruct (Tea.call K_sigmoid phase x1 (Network.core1 net)) as [r1 s1],
    (Tea.call K_sigmoid phase x1 (Network.core1 net')) as [r1' s1'].
  cbn [fst] in E1. subst r1'. destruct r1 as [y1|]; [|done].
  cbv beta iota. cbn [Network.core2 Network.set_core1 Network.set_core0].
  specialize (E2 x2).
  destruct (Tea.call K_sigmoid phase x2 (Network.core2 net)) as [r2 s2],
    (Tea.call K_sigmoid phase x2 (Network.core2 net')) as [r2' s2'].
  cbn [fst] in E2. subst r2'. destruct r2 as [y2|]; [|done].
  cbv beta iota.
  cbn [Network.core3 Network.set_core2 Network.set_core1 Network.set_core0].
  specialize (E3 x3).
  destruct (Tea.call K_sigmoid phase x3 (Network.core3 net)) as [r3 s3],
    (Tea.call K_sigmoid phase x3 (Network.core3 net')) as [r3' s3'].
  cbn [fst] in E3. subst r3'. destruct r3 as [y3|]; [|done].
  cbv beta iota.
  destruct (concatenate [y0; y1; y2; y3]) as [y|]; [|done].
  cbv beta iota.
  cbn [Network.output_core Network.set_core3 Network.set_core2 Network.set_core1
       Network.set_core0].
  specialize (E4 y).
  destruct (Tea.call K_sigmoid phase y (Network.output_core net)) as [r4 s4],
    (Tea.call K_sigmoid phase y (Network.output_core net')) as [r4' s4'].
  cbn [fst] in E4. subst r4'. destruct r4 as [z|]; [|done].
  cbv beta iota.
  cbn [Network.pooling Network.set_output_core Network.set_core3
       Network.set_core2 Network.set_core1 Network.set_core0].
  rewrite Hpool.
  by destruct (AdditivePooling.call z (Network.pooling net')).
Qed.

Lemma export_determines_scores_witness :
  let stored := Tea.Layer 1 true (Some (alternating_weights 2 1))
                  (Some (Tensor [2; 1]%nat [3 # 2; 1 # 4]%Q))
                  (Some (Tensor [1%nat] [-3 # 2]%Q)) in
  let deployed := Tea.Layer 1 true (Some (alternating_weights 2 1))
                    (Some (Tensor [2; 1]%nat [1 # 1; 0 # 1]%Q))
                    (Some (Tensor [1%nat] [-2 # 1]%Q)) in
  let pool := AdditivePooling.Layer 1 (Some 1) in
  let net := Network.Layers stored stored stored stored stored pool in
  let net' := Network.Layers deployed deployed deployed deployed deployed pool in
  let inputs := Tensor [1; 28; 28]%nat (replicate 784 1%Q) in
  (Network.class_scores (λ _, 1 # 2)%Q Inference inputs net).1
  = (Network.class_scores (λ _, 1 # 2)%Q Inference inputs net').1.
Proof.
  intros stored deployed pool net net' inputs.
  apply (export_determines_scores (λ _, 1 # 2)%Q Inference inputs net net'
           (Network.Export
              [[Tensor [2; 1]%nat [1; 0]; Tensor [2; 1]%nat [1; 0];
                Tensor [2; 1]%nat [1; 0]; Tensor [2; 1]%nat [1; 0]];
               [Tensor [2; 1]%nat [1; 0]]]
              [[Tensor [1%nat] [-2]; Tensor [1%nat] [-2]; Tensor [1%nat] [-2];
                Tensor [1%nat] [-2]]; [Tensor [1%nat] [-2]]]
              [[Tensor [2; 1]%nat [1; -1]%Q; Tensor [2; 1]%nat [1; -1]%Q;
                Tensor [2; 1]%nat [1; -1]%Q; Tensor [2; 1]%nat [1; -1]%Q];
               [Tensor [2; 1]%nat [1; -1]%Q]]));
    first [reflexivity
          | repeat split; intros b [= <-]; by repeat constructor].
Defined.

(** ** The input packets *)

Lemma py_slice_lookup {A} (l : list A) (lo hi k : nat) (x : A) :
  py_slice l lo hi !! k = Some x ↔ (k < hi - lo)%nat ∧ l !! (lo + k)%nat = Some x.
Proof.
  unfold py_slice. rewrite lookup_take_Some, lookup_drop. tauto.
Qed.

Lemma elem_of_enumerate {A} (l : list A) (k : nat) (x : A) :
  (k, x) ∈ enumerate l ↔ l !! k = Some x.
Proof.
  unfold enumerate. rewrite elem_of_lookup_imap. split.
  - by intros (i & y & [= -> ->] & H).
  - intros H. by exists k, x.
Qed.

(** The inner loop appends, in order, one packet per bright pixel. *)
Lemma pixel_loop (core : Z * Z) (l : list (nat * Q)) (temp : list Network.packet) :
  foldl (λ temp_packets '(pixel_num, pixel),
           if Qlt_le_dec (1 # 2) pixel
           then temp_packets ++ [Network.Packet core pixel_num 0]
           else temp_packets) temp l
  = temp ++ (l ≫= λ '(pixel_num, pixel),
                    if Qlt_le_dec (1 # 2) pixel
                    then [Network.Packet core pixel_num 0] else []).
Proof.
  revert temp. induction l as [|[k p] l IH]; intros temp.
  - by rewrite app_nil_r.
  - cbn [foldl]. rewrite IH. cbn [mbind list_bind].
    destruct (Qlt_le_dec (1 # 2) p); by rewrite <-?app_assoc.
Qed.

Lemma core_loop (image : list Q) (cores : list nat) (temp : list Network.packet) :
  foldl (λ temp_packets i,
           foldl (λ temp_packets '(pixel_num, pixel),
                    if Qlt_le_dec (1 # 2) pixel
                    then temp_packets
                         ++ [Network.Packet
                               (at_index (0, 0) Network.core_coordinates i)
                               pixel_num 0]
                    else temp_packets)
                 temp_packets
                 (enumerate (py_slice image (176 * i) (176 * i + 256))))
        temp cores
  = temp ++ (cores ≫= λ i,
               enumerate (py_slice image (176 * i) (176 * i + 256))
               ≫= λ '(pixel_num, pixel),
                    if Qlt_le_dec (1 # 2) pixel
                    then [Network.Packet
                            (at_index (0, 0) Network.core_coordinates i)
                            pixel_num 0]
                    else []).
Proof.
  revert temp. induction cores as [|i cores IH]; intros temp.
  - by rewrite app_nil_r.
  - cbn [foldl]. rewrite pixel_loop, IH. cbn [mbind list_bind].
    by rewrite <-app_assoc.
Qed.

Lemma Ok_inj {A} (a b : A) : Ok a = Ok b → a = b.
Proof. by intros [= ->]. Qed.

Lemma image_packets_elem (image : tensor Q) (ps : list Network.packet)
    (c : Z * Z) (k : nat) (t : Z) :
  Network.image_packets image = Ok ps →
  Network.Packet c k t ∈ ps
  ↔ ∃ i : nat, (i < 4)%nat ∧ c = (Z.of_nat i, 0) ∧ t = 0 ∧ (k < 256)%nat
      ∧ (1 # 2 < at_index 0 (data image) (176 * i + k)%nat)%Q.
Proof.
  unfold Network.image_packets, Network.reshape_784. cbv zeta.
  destruct (decide (length (data image) = 784%nat)) as [Hlen|]; [|done].
  unfold mbind, result_mbind, result_bind. rewrite core_loop. cbn [app].
  intros H. apply Ok_inj in H. subst ps.
  rewrite list_elem_of_bind. split.
  - intros (i & Hin & Hi). apply elem_of_seq in Hi as [_ Hi].
    apply list_elem_of_bind in Hin as ([k' p] & Hin & Hkp).
    apply elem_of_enumerate, py_slice_lookup in Hkp as [Hk Hp].
    destruct (Qlt_le_dec (1 # 2) p) as [Hbright|]; [|by apply elem_of_nil in Hin].
    apply list_elem_of_singleton in Hin as [= -> -> ->].
    exists i. split; [lia|]. split.
    { by destruct i as [|[|[|[|i]]]]; [..|lia]. }
    split; [done|]. split; [lia|].
    unfold at_index. by rewrite Hp.
  - intros (i & Hi & -> & -> & Hk & Hbright).
    exists i. split; [|apply elem_of_seq; lia].
    destruct (data image !! (176 * i + k)%nat) as [p|] eqn:Hp.
    2:{ apply lookup_ge_None in Hp. lia. }
    apply list_elem_of_bind. exists (k, p). split.
    + unfold at_index in Hbright. rewrite Hp in Hbright. cbn [default] in Hbright.
      destruct (Qlt_le_dec (1 # 2) p) as [|Hle]; [|by apply Qle_not_lt in Hle].
      apply list_elem_of_singleton.
      by destruct i as [|[|[|[|i]]]]; [..|lia].
    + apply elem_of_enumerate, py_slice_lookup. split; [lia|done].
Qed.

Lemma round_unit_interval (p : Q) :
  (0 <= p)%Q → (p <= 1)%Q → round_half_even p = 1 ↔ (1 # 2 < p)%Q.
Proof.
  intros H0 H1. unfold round_half_even.
  pose proof (Qfloor_le p) as Hlo. pose proof (Qlt_floor p) as Hhi.
  rewrite inject_Z_plus in Hhi. change (inject_Z 1) with 1%Q in Hhi.
  destruct (Qlt_le_dec p 1) as [Hlt|Hge].
  - assert (Qfloor p = 0) as ->.
    { assert (inject_Z (Qfloor p) < inject_Z 1)%Q as A
        by (change (inject_Z 1) with 1%Q; lra).
      assert (inject_Z (-1) < inject_Z (Qfloor p))%Q as B
        by (change (inject_Z (-1)) with (-1 # 1)%Q; lra).
      rewrite <-Zlt_Qlt in A, B. lia. }
    change (inject_Z 0) with 0%Q.
    destruct (Qcompare_spec (p - 0) (1 # 2)) as [E|E|E]; cbn [Z.even].
    + split; [done|]. intros Hb. exfalso. lra.
    + split; [done|]. intros Hb. exfalso. lra.
    + split; [|done]. intros _. lra.
  - assert (p == 1)%Q as Hp by lra.
    assert (Qfloor p = 1) as -> by (rewrite Hp; reflexivity).
    change (inject_Z 1) with 1%Q.
    destruct (Qcompare_spec (p - 1) (1 # 2)) as [E|E|E].
    + exfalso. lra.
    + split; [|done]. intros _. lra.
    + exfalso. lra.
Qed.

(** X16.  The packets of an image are the spikes the network sees.  For an
    image of 784 pixels with values between 0 and 1, the packet
    [Packet((i, 0), k, 0)] is emitted exactly when the quantized input of
    core [i] of the network has a spike (a 1) on axon [k]: the packet code
    cuts the image at the columns of the four [Lambda] layers, and its test
    [pixel > 0.5] agrees with rounding half to even, which sends 0.5 to 0.
    Every packet goes to one of the four cores, to an axon below 256, with
    third argument 0. *)
Theorem packets_match_quantized_input (image : tensor Q)
    (ps : list Network.packet) :
  Network.image_packets image = Ok ps →
  Forall (λ p, 0 <= p ∧ p <= 1)%Q (data image) →
  length (data image) = 784%nat
  ∧ (∀ (c : Z * Z) (k : nat) (t : Z),
       Network.Packet c k t ∈ ps →
       ∃ i : nat, (i < 4)%nat ∧ c = (Z.of_nat i, 0) ∧ t = 0 ∧ (k < 256)%nat)
  ∧ ∃ flat x0 x1 x2 x3 : tensor Q,
      Flatten (Tensor [1; 28; 28]%nat (data image)) = Ok flat
      ∧ slice_columns 0 (Some 256%nat) flat = Ok x0
      ∧ slice_columns 176 (Some 432%nat) flat = Ok x1
      ∧ slice_columns 352 (Some 608%nat) flat = Ok x2
      ∧ slice_columns 528 None flat = Ok x3
      ∧ ∀ (i k : nat) (xi : tensor Q),
          [x0; x1; x2; x3] !! i = Some xi → (k < 256)%nat →
          Network.Packet (Z.of_nat i, 0) k 0 ∈ ps
          ↔ at_index 0 (data (tf_round xi)) k = 1.
Proof.
  intros Hps Hrange.
  assert (length (data image) = 784%nat) as Hlen.
  { revert Hps. unfold Network.image_packets, Network.reshape_784.
    by destruct (decide (length (data image) = 784%nat)). }
  split; [done|]. split.
  { intros c k t Hin.
    apply (image_packets_elem image ps c k t Hps) in Hin
      as (i & Hi & Hc & Ht & Hk & _).
    by exists i. }
  set (flat := Tensor [1; 784]%nat (data image)).
  destruct (slice_columns_spec 0 (Some 256%nat) flat 1 784 eq_refl)
    as (x0 & E0 & _ & _ & C0).
  destruct (slice_columns_spec 176 (Some 432%nat) flat 1 784 eq_refl)
    as (x1 & E1 & _ & _ & C1).
  destruct (slice_columns_spec 352 (Some 608%nat) flat 1 784 eq_refl)
    as (x2 & E2 & _ & _ & C2).
  destruct (slice_columns_spec 528 None flat 1 784 eq_refl)
    as (x3 & E3 & _ & _ & C3).
  change (Nat.min (default 784 (Some 256)) 784 - Nat.min 0 784)%nat
    with 256%nat in *.
  change (Nat.min (default 784 (Some 432)) 784 - Nat.min 176 784)%nat
    with 256%nat in *.
  change (Nat.min (default 784 (Some 608)) 784 - Nat.min 352 784)%nat
    with 256%nat in *.
  change (Nat.min (default 784 None) 784 - Nat.min 528 784)%nat
    with 256%nat in *.
  change (Nat.min 0 784) with 0%nat in *.
  change (Nat.min 176 784) with 176%nat in *.
  change (Nat.min 352 784) with 352%nat in *.
  change (Nat.min 528 784) with 528%nat in *.
  exists flat, x0, x1, x2, x3.
  split; [by apply (Flatten_image (Tensor [1; 28; 28]%nat (data image)) 1)|].
  repeat (split; [done|]).
  intros i k xi Hxi Hk.
  assert (at_index 0%Q (data xi) k
          = at_index 0%Q (data image) (176 * i + k)%nat) as Hcell.
  { destruct i as [|[|[|[|i]]]]; cbn in Hxi; [| | | |done];
      injection Hxi as <-; unfold at_index at 1.
    - specialize (C0 0%nat k ltac:(lia) Hk). cbn [Nat.mul Nat.add] in C0.
      rewrite C0. cbn [default]. f_equal.
    - specialize (C1 0%nat k ltac:(lia) Hk). cbn [Nat.mul Nat.add] in C1.
      rewrite C1. cbn [default]. f_equal.
    - specialize (C2 0%nat k ltac:(lia) Hk). cbn [Nat.mul Nat.add] in C2.
      rewrite C2. cbn [default]. f_equal.
    - specialize (C3 0%nat k ltac:(lia) Hk). cbn [Nat.mul Nat.add] in C3.
      rewrite C3. cbn [default]. f_equal. }
  cbn [tf_round tensor_map data].
  rewrite (at_index_fmap round_half_even 0%Q), Hcell.
  assert (0 <= at_index 0 (data image) (176 * i + k)
          ∧ at_index 0 (data image) (176 * i + k) <= 1)%Q as [Hge Hle].
  { apply (at_index_Forall (λ p, 0 <= p ∧ p <= 1)%Q); [|done]. by split. }
  rewrite (round_unit_interval _ Hge Hle).
  rewrite (image_packets_elem image ps _ k 0 Hps). split.
  - intros (i' & _ & [= Hi'] & _ & _ & Hbright).
    apply Nat2Z.inj in Hi'. by subst i'.
  - intros Hbright. exists i. repeat split; try done.
    apply lookup_lt_Some in Hxi. simpl in Hxi. lia.
Qed.

Lemma packets_match_quantized_input_witness :
  let image := Tensor [28; 28]%nat (replicate 784 1%Q) in
  ∃ ps, Network.image_packets image = Ok ps
      ∧ length (data image) = 784%nat
      ∧ (∀ (c : Z * Z) (k : nat) (t : Z),
           Network.Packet c k t ∈ ps →
           ∃ i : nat, (i < 4)%nat ∧ c = (Z.of_nat i, 0) ∧ t = 0 ∧ (k < 256)%nat)
      ∧ ∃ flat x0 x1 x2 x3 : tensor Q,
          Flatten (Tensor [1; 28; 28]%nat (data image)) = Ok flat
          ∧ slice_columns 0 (Some 256%nat) flat = Ok x0
          ∧ slice_columns 176 (Some 432%nat) flat = Ok x1
          ∧ slice_columns 352 (Some 608%nat) flat = Ok x2
          ∧ slice_columns 528 None flat = Ok x3
          ∧ ∀ (i k : nat) (xi : tensor Q),
              [x0; x1; x2; x3] !! i = Some xi → (k < 256)%nat →
              Network.Packet (Z.of_nat i, 0) k 0 ∈ ps
              ↔ at_index 0 (data (tf_round xi)) k = 1.
Proof.
  intros image.
  destruct (Network.image_packets image) as [ps|] eqn:Hps; [|by vm_compute in Hps].
  exists ps. split; [done|].
  apply (packets_match_quantized_input image ps Hps).
  apply Forall_replicate. split; by compute.
Defined.

Lemma image_packets_ok (image : tensor Q) :
  length (data image) = 784%nat → ∃ ps, Network.image_packets image = Ok ps.
Proof.
  intros Hlen. unfold Network.image_packets, Network.reshape_784.
  rewrite decide_True by done. by eexists.
Qed.

Lemma image_packets_raises (image : tensor Q) :
  length (data image) ≠ 784%nat → Network.image_packets image = Raise ValueError.
Proof.
  intros Hlen. unfold Network.image_packets, Network.reshape_784.
  by rewrite decide_False by done.
Qed.

Lemma packets_loop_raised {A B} (f : result A → B → result A) (e : exn)
    (l : list B) :
  (∀ e x, f (Raise e) x = Raise e) → foldl f (Raise e) l = Raise e.
Proof.
  intros Hf. induction l as [|x l IH]; [done|]. cbn [foldl]. by rewrite Hf.
Qed.

(** The outer loop, for a step [f] that appends the packets of one image and
    passes an exception on. *)
Lemma packets_loop
    (f : result (list (list Network.packet)) → tensor Q
         → result (list (list Network.packet)))
    (l : list (tensor Q)) (acc : list (list Network.packet)) :
  (∀ acc image,
     f (Ok acc) image
     = Network.image_packets image ≫= λ temp_packets, Ok (acc ++ [temp_packets])) →
  (∀ e image, f (Raise e) image = Raise e) →
  (Forall (λ image, length (data image) = 784%nat) l →
   ∃ ps, foldl f (Ok acc) l = Ok (acc ++ ps)
       ∧ Forall2 (λ image p, Network.image_packets image = Ok p) l ps)
  ∧ (Exists (λ image, length (data image) ≠ 784%nat) l →
     foldl f (Ok acc) l = Raise ValueError).
Proof.
  intros Hok Hraise. revert acc. induction l as [|image l IH]; intros acc.
  - split.
    + intros _. exists []. by rewrite app_nil_r.
    + intros H. by apply Exists_nil in H.
  - cbn [foldl]. rewrite Hok.
    destruct (decide (length (data image) = 784%nat)) as [Hlen|Hlen].
    + destruct (image_packets_ok image Hlen) as [p Hp]. rewrite Hp.
      change (Ok p ≫= λ temp_packets, Ok (acc ++ [temp_packets]))
        with (Ok (A:=list (list Network.packet)) (acc ++ [p])).
      destruct (IH (acc ++ [p])) as [IHok IHbad]. split.
      * intros Hall. apply Forall_cons in Hall as [_ Hall].
        destruct (IHok Hall) as (ps & -> & Hps).
        exists (p :: ps). split; [by rewrite <-app_assoc|by constructor].
      * intros Hex. apply Exists_cons in Hex as [Hex|Hex]; [done|].
        by apply IHbad.
    + rewrite (image_packets_raises image Hlen).
      change (Raise ValueError ≫= _)
        with (Raise (A:=list (list Network.packet)) ValueError).
      split.
      * intros Hall. by apply Forall_cons in Hall as [? _].
      * intros _. by apply packets_loop_raised.
Qed.

(** X17.  Only the first ten test images are converted.  When each of them
    has 784 pixels the conversion succeeds and returns one packet list per
    image, in order: ten lists, or as many as there are images when there
    are fewer; later images are never looked at.  When one of the first ten
    has another number of pixels the conversion raises [ValueError]. *)
Theorem make_packets_first_ten (x_test : list (tensor Q)) :
  (Forall (λ image, length (data image) = 784%nat) (take 10 x_test) →
   ∃ packets, Network.make_packets x_test = Ok packets
            ∧ length packets = Nat.min 10 (length x_test)
            ∧ Forall2 (λ image p, Network.image_packets image = Ok p)
                      (take 10 x_test) packets)
  ∧ (Exists (λ image, length (data image) ≠ 784%nat) (take 10 x_test) →
     Network.make_packets x_test = Raise ValueError)
  ∧ Network.make_packets x_test = Network.make_packets (take 10 x_test).
Proof.
  assert (∀ l : list (tensor Q), py_slice l 0 10 = take 10 l) as Hslice by done.
  unfold Network.make_packets. rewrite !Hslice.
  match goal with
  | |- context [foldl ?f _ _] =>
      destruct (packets_loop f (take 10 x_test) []) as [Hok Hbad]; [done..|]
  end.
  split; [|split].
  - intros Hall. destruct (Hok Hall) as (ps & -> & Hps).
    exists ps. split; [done|]. split; [|done].
    apply Forall2_length in Hps. rewrite <-Hps. apply length_take.
  - exact Hbad.
  - by rewrite take_take.
Qed.

Lemma make_packets_first_ten_witness :
  let x_test := replicate 12 (Tensor [28; 28]%nat (replicate 784 (1 # 4)%Q)) in
  ∃ packets, Network.make_packets x_test = Ok packets
           ∧ length packets = Nat.min 10 (length x_test)
           ∧ Forall2 (λ image p, Network.image_packets image = Ok p)
                     (take 10 x_test) packets.
Proof.
  intros x_test.
  apply (proj1 (make_packets_first_ten x_test)).
  apply Forall_take, Forall_replicate. reflexivity.
Defined.

(** ** Edge cases of the initializer, of shape inference and of pooling *)

(** X18.  [tea_weight_initializer] raises [ValueError] exactly when a
    dimension is negative.  Otherwise it returns a tensor of the asked shape
    in which no zero of the initial array is left: each of its [a * b] cells
    is +1 or -1 (there are none when a dimension is 0). *)
Theorem tea_weight_initializer_total (a b : Z) :
  (a < 0 ∨ b < 0 → tea_weight_initializer (a, b) = Raise ValueError)
  ∧ (0 ≤ a → 0 ≤ b →
     ∃ w, tea_weight_initializer (a, b) = Ok w
        ∧ shape w = [Z.to_nat a; Z.to_nat b]
        ∧ length (data w) = (Z.to_nat a * Z.to_nat b)%nat
        ∧ Forall (λ v, v = 1 ∨ v = -1) (data w)).
Proof.
  split; [apply tea_weight_initializer_raises|].
  intros Ha Hb. eexists. split; [by apply tea_weight_initializer_nonneg|].
  split; [done|]. split; [|apply alternating_weights_signs].
  pose proof (alternating_weights_wf (Z.to_nat a) (Z.to_nat b)) as Hwf.
  unfold tensor_wf in Hwf. rewrite Hwf. simpl. lia.
Qed.

Lemma tea_weight_initializer_total_witness :
  ∃ w, tea_weight_initializer (0, 5) = Ok w
     ∧ shape w = [Z.to_nat 0; Z.to_nat 5]
     ∧ length (data w) = (Z.to_nat 0 * Z.to_nat 5)%nat
     ∧ Forall (λ v, v = 1 ∨ v = -1) (data w).
Proof. apply (proj2 (tea_weight_initializer_total 0 5)); lia. Defined.

(** X19.  [Tea.compute_output_shape] accepts a shape exactly when it has at
    least two dimensions and its trailing dimension is known and not 0; every
    other shape raises [AssertionError], and the layer is never changed.
    [build] is more lenient: it accepts a trailing dimension of 0, which
    [compute_output_shape] rejects. *)
Theorem compute_output_shape_accepts (self : Tea.layer) (s : keras_shape) :
  (∀ z : Z, (2 ≤ length s)%nat → last s = Some (Some z) → z ≠ 0 →
     Tea.compute_output_shape s self
     = (Ok (set_last s (Some (Tea.units self))), self))
  ∧ ((length s < 2)%nat ∨ last s = Some None ∨ last s = Some (Some 0) →
     Tea.compute_output_shape s self = (Raise AssertionError, self))
  ∧ (∀ truncated_normal : nat → Q,
       0 ≤ Tea.units self →
       is_ok (Tea.build truncated_normal [None; Some 0] self).1 = true
       ∧ Tea.compute_output_shape [None; Some 0] self
         = (Raise AssertionError, self)).
Proof.
  split; [|split].
  - intros z Hlen Hlast Hz. apply last_Some in Hlast as [lead ->].
    rewrite set_last_snoc. apply tea_output_shape_snoc.
    + rewrite length_snoc in Hlen. lia.
    + simpl. by apply negb_true_iff, Z.eqb_neq.
  - intros Hbad. unfold Tea.compute_output_shape. py_unfold.
    destruct (negb (bool_decide (s = []))); [|done]. cbn [andb].
    destruct (Nat.leb_spec 2 (length s)) as [Hlen|Hlen]; [|done].
    destruct Hbad as [Hbad|[Hbad|Hbad]]; [lia| |];
      apply shape_last_Ok in Hbad; by rewrite Hbad.
  - intros truncated_normal Hu. split; [|done].
    destruct (build_establishes_built truncated_normal [None; Some 0] self 0)
      as (self' & -> & _); [simpl; lia|done|done|done].
Qed.

Lemma compute_output_shape_accepts_witness :
  let self := Tea.Layer 64 true None None None in
  Tea.compute_output_shape [None; Some 256] self
  = (Ok (set_last [None; Some 256] (Some (Tea.units self))), self).
Proof.
  intros self.
  apply (proj1 (compute_output_shape_accepts self [None; Some 256]) 256);
    [simpl; lia|reflexivity|lia].
Defined.

(** X20.  A negative class count is caught late.  The constructor and
    [build] accept it when it divides the trailing dimension, but then, for
    a count below -1, every [call] on an input of at least two dimensions
    raises a [ValueError]: the reshape gets a dimension below -1.  (A count
    of -1 reads as a second dimension to infer; the trailing dimension is
    one a float64 holds, as [call] divides it as a float64.) *)
Theorem pooling_negative_classes (num_classes a : Z) (input_shape : keras_shape)
    (x : tensor Q) :
  num_classes < -1 →
  (2 ≤ length input_shape)%nat →
  last input_shape = Some (Some a) →
  Z.abs a ≤ 2 ^ 53 →
  (num_classes | a) →
  (2 ≤ length (shape x))%nat →
  ∃ self0 self,
    AdditivePooling.__init__ num_classes = Ok self0
    ∧ AdditivePooling.build input_shape self0 = (Ok tt, self)
    ∧ AdditivePooling.call x self = (Raise ValueError, self).
Proof.
  intros Hneg Hlen Hlast _ Hdiv Hrank.
  exists (AdditivePooling.Layer num_classes None),
         (AdditivePooling.Layer num_classes (Some a)).
  split; [done|]. split.
  - apply pool_build_ok; [done|done|lia|].
    apply Z.mod_divide; [lia|done].
  - unfold AdditivePooling.call. py_unfold.
    assert (py_int_truediv (Some a) num_classes = Ok (a ÷ num_classes)) as Hquot.
    { unfold py_int_truediv.
      by replace (num_classes =? 0) with false by (symmetry; apply Z.eqb_neq; lia). }
    assert (∀ y : tensor Q, tf_reshape y (a ÷ num_classes) num_classes
                            = Raise ValueError) as Hreshape.
    { intros y. unfold tf_reshape.
      replace (num_classes <? -1) with true by (symmetry; apply Z.ltb_lt; lia).
      by rewrite orb_true_r. }
    destruct (shape x) as [|b [|t rest]] eqn:Hx; simpl in Hrank; try lia.
    destruct rest as [|d rest].
    + cbn [length Nat.leb AdditivePooling.num_inputs AdditivePooling.num_classes].
      by rewrite Hquot, Hreshape.
    + cbn [length Nat.leb].
      rewrite (reduce_sum_axis1_shaped x b t (d :: rest) Hx).
      cbn [AdditivePooling.num_inputs AdditivePooling.num_classes].
      by rewrite Hquot, Hreshape.
Qed.

Lemma pooling_negative_classes_witness :
  ∃ self0 self,
    AdditivePooling.__init__ (-5) = Ok self0
    ∧ AdditivePooling.build [None; Some 10] self0 = (Ok tt, self)
    ∧ AdditivePooling.call (Tensor [1; 10]%nat (replicate 10 1%Q)) self
      = (Raise ValueError, self).
Proof.
  apply (pooling_negative_classes (-5) 10 [None; Some 10]
           (Tensor [1; 10]%nat (replicate 10 1%Q)));
    [lia|simpl; lia|reflexivity|lia|by exists (-2)|simpl; lia].
Defined.
